(** * Auto Montage Builder: the render pipeline, embedded and verified

    A shallow embedding of the render pipeline of the Python sources
    ([models.py], [utils.py], [filters.py], [engine.py]) together with the
    properties of its specification.

    Conventions of the embedding.
    - Python [int] is [Z]; Python [float] is an exact rational [Q] (rounding
      is not modelled); the text Python prints for a float is a field of the
      platform ([repr_float]).
    - A [dict] used as a map is a [gmap]; the disk is a map from paths to
      contents.
    - Code that calls the outside world (processes, the disk, the random
      source, the clock) runs in the monad [M] over [World]: a computation
      takes the world and gives back a result or a raised exception, and the
      world after it.  What the outside world answers is read from a
      [Platform]. *)

From Stdlib Require Import String Ascii List ZArith QArith Qround Reals Lia Lra.
From stdpp Require Import base option gmap sets list strings pretty.
Import ListNotations.

#[local] Open Scope string_scope.
#[local] Open Scope list_scope.
#[local] Open Scope Z_scope.

(* ===================================================================== *)
(** * Part I: the programs                                                *)
(* ===================================================================== *)

(** ** Python values and control *)

Module Py.

(** The outcome of running a piece of Python: a value, or an exception
    (named by its class). *)
Inductive result (A : Type) : Type :=
| Return (a : A)
| Raise (exn : string).
Arguments Return {A} a.
Arguments Raise {A} exn.

(** Effectful code over a state [S]; the state survives an exception. *)
Definition M (S A : Type) : Type := S -> result A * S.

Definition ret {S A} (a : A) : M S A := fun s => (Return a, s).

Definition bind {S A B} (m : M S A) (k : A -> M S B) : M S B :=
  fun s => match m s with
           | (Return a, s') => k a s'
           | (Raise e, s') => (Raise e, s')
           end.

Definition raise {S A} (e : string) : M S A := fun s => (Raise e, s).

(** [try: m  except Exception: h] (also the bare [except:]). *)
Definition try_except {S A} (m : M S A) (h : string -> M S A) : M S A :=
  fun s => match m s with
           | (Return a, s') => (Return a, s')
           | (Raise e, s') => h e s'
           end.

Definition gets {S A} (f : S -> A) : M S A := fun s => (Return (f s), s).
Definition modify {S} (f : S -> S) : M S unit := fun s => (Return tt, f s).

(** [for x in l: body x], the loop state [acc] threaded through. *)
Fixpoint for_each {S A B} (l : list A) (body : B -> A -> M S B) (acc : B) : M S B :=
  match l with
  | [] => ret acc
  | x :: l' => bind (body acc x) (for_each l' body)
  end.

(** [list(enumerate(l))] counted from [i]. *)
Fixpoint enumerate_from {A} (i : Z) (l : list A) : list (Z * A) :=
  match l with
  | [] => []
  | x :: l' => (i, x) :: enumerate_from (i + 1) l'
  end.
Definition enumerate {A} (l : list A) : list (Z * A) := enumerate_from 0 l.

(** [l[-n:]] for [n > 0]. *)
Definition last_n {A} (n : nat) (l : list A) : list A :=
  drop (length l - n)%nat l.

(** [x in l] for a list of strings. *)
Definition str_in (x : string) (l : list string) : bool := bool_decide (x ∈ l).

(** An exception is the name of its class.  These are the built-in classes
    that do not derive from [Exception]: [except Exception] lets them
    through, a bare [except] does not. *)
Definition outside_Exception : list string :=
  ["BaseException"; "SystemExit"; "KeyboardInterrupt"; "GeneratorExit"].

(** [try: m  except Exception as e: h e]. *)
Definition try_except_Exception {S A} (m : M S A) (h : string -> M S A) : M S A :=
  fun s => match m s with
           | (Return a, s') => (Return a, s')
           | (Raise e, s') => if str_in e outside_Exception then (Raise e, s') else h e s'
           end.

(** [sep.join(parts)]. *)
Fixpoint join (sep : string) (parts : list string) : string :=
  match parts with
  | [] => ""
  | [p] => p
  | p :: rest => p +:+ sep +:+ join sep rest
  end.

(** The ints from [float_limit] on round to a value above the largest
    float: converting one to a float, or dividing two ints whose quotient is
    that large, raises [OverflowError]. *)
Definition float_limit : Z := 2 ^ 1024 - 2 ^ 970.

(** [a / b] on ints. *)
Definition int_truediv {S} (a b : Z) : M S Q :=
  if b =? 0 then raise "ZeroDivisionError"
  else if float_limit * Z.abs b <=? Z.abs a then raise "OverflowError"
  else ret (inject_Z a / inject_Z b)%Q.

(** [max(lo, min(hi, x))] on integers and on floats. *)
Definition clampZ (lo hi x : Z) : Z := Z.max lo (Z.min hi x).
Definition clampQ (lo hi x : Q) : Q := Qminmax.Qmax lo (Qminmax.Qmin hi x).

(** JSON documents as [json.loads] builds them. *)
#[warnings="-register-all"]
Inductive json : Type :=
| JNull
| JBool (b : bool)
| JNum (q : Q)
| JStr (s : string)
| JList (l : list json)
| JDict (d : list (string * json)).

End Py.
Import Py.

Declare Scope py_scope.
Delimit Scope py_scope with py.
Notation "x <- m ;; k" := (bind m (fun x => k))
  (at level 100, m at next level, right associativity) : py_scope.
Notation "m ;;; k" := (bind m (fun _ => k))
  (at level 100, right associativity) : py_scope.
#[local] Open Scope py_scope.

(** ** The outside world *)

(** What the pipeline can observe and change outside the interpreter. *)
Record World : Type := mkWorld {
  disk : gmap string string;        (* path -> content of the files that exist *)
  spawned : list (list string);     (* argv of every process launched, latest first *)
  drawn : nat                       (* values taken from the random source so far *)
}.

(** [subprocess.CompletedProcess]. *)
Record Completed : Type := mkCompleted {
  returncode : Z;
  stdout : string;
  stderr : string
}.

(** What the platform answers.  [process w argv] is what launching [argv] in
    world [w] does: [None] when [subprocess.run] itself raises (the binary
    cannot be started, the output cannot be decoded), otherwise the completed
    process and the files it wrote. *)
Class Platform : Type := {
  process : World -> list string -> option (Completed * list (string * string));
  entropy : nat -> nat;                       (* the raw random stream *)
  time_time : World -> Z;                     (* int(time.time()) *)
  which : string -> bool;                     (* shutil.which(cmd) is not None *)
  os_name : string;                           (* os.name *)
  module_dir : string;                        (* Path(__file__).parent *)
  tempdir : string;                           (* tempfile.gettempdir() *)
  resolve_posix : string -> string;           (* Path(p).resolve().as_posix() *)
  is_absolute : string -> bool;               (* Path(p).is_absolute() *)
  repr_float : Q -> string;                   (* str(x) of a float *)
  repr_pow2_12 : Q -> string;                 (* str(2 ** (x / 12)), in range *)
  float_of_string : string -> option Q;       (* float(s); None: ValueError *)
  json_loads : string -> option json;         (* json.loads(s); None: it raises *)
  safe_filename : string -> string            (* FileUtils.safe_filename *)
}.

Module Os.
Section Os.
Context `{Platform}.

(** [subprocess.run(argv, capture_output=True, text=True)]. *)
Definition subprocess_run (argv : list string) : M World Completed :=
  fun w =>
    let w' := mkWorld (disk w) (argv :: spawned w) (drawn w) in
    match process w argv with
    | None => (Raise "OSError", w')
    | Some (c, written) =>
        (Return c,
         mkWorld (foldr (fun kv d => <[kv.1 := kv.2]> d) (disk w) written)
                 (argv :: spawned w) (drawn w))
    end.

(** [Path(p).exists()]. *)
Definition path_exists (p : string) : M World bool :=
  gets (fun w => bool_decide (is_Some (disk w !! p))).

(** [Path(p).unlink()]. *)
Definition unlink (p : string) : M World unit :=
  fun w => match disk w !! p with
           | Some _ => (Return tt, mkWorld (delete p (disk w)) (spawned w) (drawn w))
           | None => (Raise "FileNotFoundError", w)
           end.

(** [Path(p).unlink(missing_ok=True)]. *)
Definition unlink_missing_ok (p : string) : M World unit :=
  modify (fun w => mkWorld (delete p (disk w)) (spawned w) (drawn w)).

(** [Path(src).rename(dst)]. *)
Definition rename (src dst : string) : M World unit :=
  fun w => match disk w !! src with
           | Some c => (Return tt,
                        mkWorld (<[dst := c]> (delete src (disk w))) (spawned w) (drawn w))
           | None => (Raise "FileNotFoundError", w)
           end.

(** [with open(p, 'w') as f: f.write(text)]. *)
Definition write_file (p text : string) : M World unit :=
  modify (fun w => mkWorld (<[p := text]> (disk w)) (spawned w) (drawn w)).

(** [Path(p).stat().st_size]. *)
Definition st_size (p : string) : M World Z :=
  fun w => match disk w !! p with
           | Some c => (Return (Z.of_nat (String.length c)), w)
           | None => (Raise "FileNotFoundError", w)
           end.

(** One value of the random source. *)
Definition draw : M World nat :=
  fun w => (Return (entropy (drawn w)), mkWorld (disk w) (spawned w) (S (drawn w))).

(** [random.choice(l)]. *)
Definition random_choice {A} (l : list A) : M World A :=
  match l with
  | [] => raise "IndexError"
  | _ => r <- draw ;;
         match l !! (r mod length l)%nat with
         | Some x => ret x
         | None => raise "IndexError"
         end
  end.

(** [random.randint(a, b)] for [a <= b]. *)
Definition random_randint (a b : Z) : M World Z :=
  r <- draw ;; ret (a + Z.of_nat r mod (b - a + 1)).

(** [a / b] on paths. *)
Definition path_join (a b : string) : string := a +:+ "/" +:+ b.

End Os.
End Os.
Import Os.

(** ** models.py *)

Module Models.

(** [[e.value for e in KenBurnsEffect]]. *)
Definition valid_ken_burns : list string :=
  ["zoomIn"; "zoomOut"; "panLeft"; "panRight"; "panUp"; "panDown"; "rotate";
   "diagonal"; "zoomRotate"; "parallax"; "spiral"; "shake"].

(** [[t.value for t in TransitionType]]. *)
Definition valid_transitions : list string :=
  ["fade"; "dissolve"; "dip_black"; "dip_white"; "wipe"; "slide"; "push";
   "zoom"; "blur"; "pixelate"; "glitch"; "rotate"; "squeeze"; "morph"].

(** [[c.value for c in CapCutEffect]]. *)
Definition valid_capcut : list string :=
  ["zoomBurst"; "pulse"; "bounce"; "elastic"; "wave"; "glitch"; "shake";
   "wobble"; "pendulum"; "swing"; "spin"; "flip"; "zoomBlur"; "chromatic";
   "rgbSplit"; "distortion"].

(** [EffectSettings]: the fields the render pipeline reads or validates. *)
Record EffectSettings : Type := mkEffectSettings {
  ken_burns : list string;
  ken_burns_intensity : Z;
  rotation_angle : Z;
  kb_randomize : bool;
  kb_smooth_factor : Q;
  transitions : list string;
  transition_duration : Q;
  trans_overlap : Q;
  fade_in_from_black : bool;
  fade_in_duration : Q;
  fade_out_to_black : bool;
  fade_out_duration : Q;
  add_black_frame : bool;
  color_correction : bool;
  color_filter : string;
  vignette : bool;
  vignette_intensity : Z;
  grain : bool;
  grain_intensity : Z;
  blur_edges : bool;
  blur_intensity : Z;
  audio_pitch : string;
  audio_effect : string;
  audio_stereo_enhance : bool;
  audio_normalize : bool;
  audio_compressor : bool;
  audio_limiter : bool;
  easing_type : string;
  motion_blur : bool;
  motion_blur_amount : Z;
  capcut_effects : list string;
  scale_amplitude : Z;
  zoom_burst_start : Z;
  zoom_burst_decay : Z;
  motion_effects : list string;
  motion_intensity : Z;
  effect_frequency : string;
  effect_percent : Z;
  effect_every : Z;
  capcut_timing : string
}.

(** The dataclass defaults. *)
Definition default_effects : EffectSettings :=
  {| ken_burns := []; ken_burns_intensity := 30; rotation_angle := 5;
     kb_randomize := false; kb_smooth_factor := 7 # 10;
     transitions := ["fade"]; transition_duration := 1; trans_overlap := 1 # 2;
     fade_in_from_black := false; fade_in_duration := 1;
     fade_out_to_black := false; fade_out_duration := 1;
     add_black_frame := true;
     color_correction := false; color_filter := "none";
     vignette := false; vignette_intensity := 40;
     grain := false; grain_intensity := 20;
     blur_edges := false; blur_intensity := 30;
     audio_pitch := "0"; audio_effect := "none";
     audio_stereo_enhance := false; audio_normalize := true;
     audio_compressor := false; audio_limiter := false;
     easing_type := "ease"; motion_blur := false; motion_blur_amount := 20;
     capcut_effects := []; scale_amplitude := 15;
     zoom_burst_start := 150; zoom_burst_decay := 80;
     motion_effects := []; motion_intensity := 30;
     effect_frequency := "all"; effect_percent := 50; effect_every := 3;
     capcut_timing := "start" |}.

(** [[x for x in l if x in valid]]. *)
Definition keep_valid (valid l : list string) : list string :=
  List.filter (fun x => str_in x valid) l.

(** [EffectSettings.validate], [_validate_effect_lists] included. *)
Definition validate_effects (s : EffectSettings) : EffectSettings :=
  let transitions' := keep_valid valid_transitions (transitions s) in
  {| ken_burns := keep_valid valid_ken_burns (ken_burns s);
     ken_burns_intensity := clampZ 0 100 (ken_burns_intensity s);
     rotation_angle := clampZ 0 90 (rotation_angle s);
     kb_randomize := kb_randomize s;
     kb_smooth_factor := clampQ 0 1 (kb_smooth_factor s);
     transitions := match transitions' with [] => ["fade"] | _ => transitions' end;
     transition_duration := clampQ (1 # 10) 5 (transition_duration s);
     trans_overlap := clampQ 0 1 (trans_overlap s);
     fade_in_from_black := fade_in_from_black s;
     fade_in_duration := clampQ (1 # 10) 5 (fade_in_duration s);
     fade_out_to_black := fade_out_to_black s;
     fade_out_duration := clampQ (1 # 10) 5 (fade_out_duration s);
     add_black_frame := add_black_frame s;
     color_correction := color_correction s;
     color_filter := color_filter s;
     vignette := vignette s;
     vignette_intensity := clampZ 0 100 (vignette_intensity s);
     grain := grain s;
     grain_intensity := clampZ 0 100 (grain_intensity s);
     blur_edges := blur_edges s;
     blur_intensity := clampZ 0 100 (blur_intensity s);
     audio_pitch := audio_pitch s;
     audio_effect := audio_effect s;
     audio_stereo_enhance := audio_stereo_enhance s;
     audio_normalize := audio_normalize s;
     audio_compressor := audio_compressor s;
     audio_limiter := audio_limiter s;
     easing_type := easing_type s;
     motion_blur := motion_blur s;
     motion_blur_amount := motion_blur_amount s;
     capcut_effects := keep_valid valid_capcut (capcut_effects s);
     scale_amplitude := clampZ 0 100 (scale_amplitude s);
     zoom_burst_start := clampZ 100 300 (zoom_burst_start s);
     zoom_burst_decay := clampZ 0 100 (zoom_burst_decay s);
     motion_effects := keep_valid valid_capcut (motion_effects s);
     motion_intensity := clampZ 0 100 (motion_intensity s);
     effect_frequency := effect_frequency s;
     effect_percent := clampZ 0 100 (effect_percent s);
     effect_every := clampZ 1 10 (effect_every s);
     capcut_timing := capcut_timing s |}.

(** [VideoQuality]. *)
Record VideoQuality : Type := mkVideoQuality {
  preset : string;
  crf : Z;
  profile : string;
  level : string;
  pixel_format : string;
  color_space : string;
  color_range : string
}.

(** [VideoQuality.validate]. *)
Definition validate_quality (q : VideoQuality) : VideoQuality :=
  let valid_presets := ["ultrafast"; "superfast"; "veryfast"; "faster"; "fast";
                        "medium"; "slow"; "slower"; "veryslow"] in
  let valid_profiles := ["baseline"; "main"; "high"] in
  {| preset := if str_in (preset q) valid_presets then preset q else "medium";
     crf := clampZ 0 51 (crf q);
     profile := if str_in (profile q) valid_profiles then profile q else "high";
     level := level q;
     pixel_format := pixel_format q;
     color_space := color_space q;
     color_range := color_range q |}.

(** [ExportSettings]. *)
Record ExportSettings : Type := mkExportSettings {
  resolution : string;
  custom_width : Z;
  custom_height : Z;
  fps : Z;
  bitrate : Z;
  codec : string;
  quality : VideoQuality;
  use_gpu : bool;
  gpu_type : string;
  audio_bitrate : Z;
  audio_codec : string;
  container : string
}.

(** [ExportSettings.get_resolution]. *)
Definition get_resolution (e : ExportSettings) : Z * Z :=
  if String.eqb (resolution e) "custom" then (custom_width e, custom_height e)
  else if String.eqb (resolution e) "1920x1080" then (1920, 1080)
  else if String.eqb (resolution e) "3840x2160" then (3840, 2160)
  else if String.eqb (resolution e) "2560x1440" then (2560, 1440)
  else if String.eqb (resolution e) "1280x720" then (1280, 720)
  else if String.eqb (resolution e) "1080x1920" then (1080, 1920)
  else if String.eqb (resolution e) "1080x1080" then (1080, 1080)
  else if String.eqb (resolution e) "720x1280" then (720, 1280)
  else (1920, 1080).

(** [ExportSettings.validate]. *)
Definition validate_export (e : ExportSettings) : ExportSettings :=
  {| resolution := resolution e;
     custom_width := clampZ 320 7680 (custom_width e);
     custom_height := clampZ 240 4320 (custom_height e);
     fps := clampZ 1 120 (fps e);
     bitrate := clampZ 1 100 (bitrate e);
     codec := codec e;
     quality := validate_quality (quality e);
     use_gpu := use_gpu e;
     gpu_type := gpu_type e;
     audio_bitrate := clampZ 64 320 (audio_bitrate e);
     audio_codec := audio_codec e;
     container := container e |}.

(** [OverlaySettings]. *)
Record OverlaySettings : Type := mkOverlaySettings {
  enabled : bool;
  folder : string;
  files : list string;
  blend_mode : string;
  opacity : Z;
  randomize : bool;
  position : string;
  scale : Z;
  rotation : Z;
  animate : bool;
  animation_type : string
}.

(** [OverlaySettings.validate]. *)
Definition validate_overlays (o : OverlaySettings) : OverlaySettings :=
  let valid_blend_modes := ["normal"; "screen"; "overlay"; "multiply"; "add";
                            "lighten"; "darken"] in
  let valid_positions := ["center"; "top-left"; "top-right"; "bottom-left";
                          "bottom-right"] in
  {| enabled := enabled o;
     folder := folder o;
     files := files o;
     blend_mode := if str_in (blend_mode o) valid_blend_modes then blend_mode o
                   else "screen";
     opacity := clampZ 0 100 (opacity o);
     randomize := randomize o;
     position := if str_in (position o) valid_positions then position o else "center";
     scale := clampZ 10 200 (scale o);
     rotation := clampZ (-180) 180 (rotation o);
     animate := animate o;
     animation_type := animation_type o |}.

(** [Channel]: the name and the three settings the pipeline reads. *)
Record Channel : Type := mkChannel {
  name : string;
  export : ExportSettings;
  effects : EffectSettings;
  overlays : OverlaySettings
}.

(** [Channel.validate]. *)
Definition validate_channel (c : Channel) : Channel :=
  {| name := name c;
     export := validate_export (export c);
     effects := validate_effects (effects c);
     overlays := validate_overlays (overlays c) |}.

(** [MediaPair]. *)
Record MediaPair : Type := mkMediaPair {
  number : string;
  media_type : string;
  media_file : string;
  audio_file : string
}.

End Models.
Import Models.

(** ** engine.py: EffectsManager *)

Module EffectsManager.
Section EffectsManager.
Context `{Platform}.

(** The object: its settings and the Ken Burns picks made so far. *)
Record t : Type := mk {
  settings : EffectSettings;
  used_effects : list string
}.

(** [EffectsManager(effects_settings)]. *)
Definition init (effects_settings : EffectSettings) : t :=
  {| settings := effects_settings; used_effects := [] |}.

(** The dict [get_effects_for_clip] returns. *)
Record ClipEffects : Type := mkClipEffects {
  ce_ken_burns : option string;
  capcut_start : option string;
  capcut_end : option string
}.

Definition _should_apply_capcut (self : t) (clip_index : Z) : M World bool :=
  let s := settings self in
  if String.eqb (effect_frequency s) "all" then ret true
  else if String.eqb (effect_frequency s) "percent" then
    r <- random_randint 1 100 ;; ret (r <=? effect_percent s)
  else if String.eqb (effect_frequency s) "every" then
    if effect_every s =? 0 then raise "ZeroDivisionError"
    else ret ((clip_index + 1) mod effect_every s =? 0)
  else if String.eqb (effect_frequency s) "random" then
    random_choice [true; false]
  else ret false.

(** The Ken Burns block of [get_effects_for_clip]: the pick and the
    manager after it. *)
Definition pick_ken_burns (self : t) (clip_index : Z) : M World (option string * t) :=
  let s := settings self in
  match ken_burns s with
  | [] => ret (None, self)
  | _ =>
      if kb_randomize s then
        let available :=
          List.filter (fun e => negb (str_in e (last_n 2 (used_effects self))))
                      (ken_burns s) in
        let available := match available with [] => ken_burns s | _ => available end in
        e <- random_choice available ;;
        ret (Some e, {| settings := s; used_effects := used_effects self ++ [e] |})
      else
        match ken_burns s !! Z.to_nat (clip_index mod Z.of_nat (length (ken_burns s))) with
        | Some e => ret (Some e, self)
        | None => raise "IndexError"
        end
  end.

(** The CapCut block of [get_effects_for_clip]: the two slots. *)
Definition pick_capcut (self : t) (clip_index : Z) : M World (option string * option string) :=
  let s := settings self in
  match capcut_effects s with
  | [] => ret (None, None)
  | _ =>
      apply <- _should_apply_capcut self clip_index ;;
      if apply : bool then
        let all_effects := capcut_effects s ++ motion_effects s in
        cs <- (if str_in (capcut_timing s) ["start"; "random"]
               then e <- random_choice all_effects ;; ret (Some e)
               else ret None) ;;
        ce <- (if str_in (capcut_timing s) ["end"; "random"]
               then e <- random_choice all_effects ;; ret (Some e)
               else ret None) ;;
        cs <- (if String.eqb (capcut_timing s) "middle"
               then e <- random_choice all_effects ;; ret (Some e)
               else ret cs) ;;
        ret (cs, ce)
      else ret (None, None)
  end.

Definition get_effects_for_clip (self : t) (clip_index total_clips : Z)
  : M World (ClipEffects * t) :=
  kb <- pick_ken_burns self clip_index ;;
  cc <- pick_capcut kb.2 clip_index ;;
  ret ({| ce_ken_burns := kb.1; capcut_start := cc.1; capcut_end := cc.2 |}, kb.2).

(** The selections of a whole clip sequence: one call per clip index
    [0 .. n-1] on the same manager, as the per-clip loop of
    [generate_channel_montage] makes them. *)
Fixpoint select_from (self : t) (i : Z) (todo : nat) (n : Z)
  : M World (list ClipEffects * t) :=
  match todo with
  | O => ret ([], self)
  | S todo' =>
      r <- get_effects_for_clip self i n ;;
      rest <- select_from r.2 (i + 1) todo' n ;;
      ret (r.1 :: rest.1, rest.2)
  end.

Definition select_all (self : t) (n : nat) : M World (list ClipEffects * t) :=
  select_from self 0 n (Z.of_nat n).

End EffectsManager.
End EffectsManager.

(** ** utils.py: FFmpegUtils *)

Module FFmpegUtils.

(** [needle in hay] on strings. *)
Fixpoint contains (needle hay : string) : bool :=
  String.prefix needle hay
  || match hay with
     | EmptyString => false
     | String _ hay' => contains needle hay'
     end.

(** *** Python's dynamic operations on a JSON document *)

(** [bool(v)]. *)
Definition truthy (v : json) : bool :=
  match v with
  | JNull => false
  | JBool b => b
  | JNum q => negb (Qeq_bool q 0)
  | JStr s => negb (String.eqb s "")
  | JList l => match l with [] => false | _ => true end
  | JDict d => match d with [] => false | _ => true end
  end.

(** [d.get(k)] on the pairs of a dict. *)
Fixpoint assoc (k : string) (d : list (string * json)) : option json :=
  match d with
  | [] => None
  | (k', v) :: d' => if String.eqb k k' then Some v else assoc k d'
  end.

Definition is_str (k : string) (v : json) : bool :=
  match v with JStr s => String.eqb s k | _ => false end.

Definition chars (s : string) : list json :=
  map (fun c => JStr (String c EmptyString)) (list_ascii_of_string s).

Section Dynamic.
Context {S : Type}.

(** [k in v] for a string [k]. *)
Definition py_in (k : string) (v : json) : M S bool :=
  match v with
  | JDict d => ret (bool_decide (is_Some (assoc k d)))
  | JList l => ret (existsb (is_str k) l)
  | JStr s => ret (contains k s)
  | _ => raise "TypeError"
  end.

(** [v[k]] for a string [k]. *)
Definition py_getitem (v : json) (k : string) : M S json :=
  match v with
  | JDict d => match assoc k d with
               | Some x => ret x
               | None => raise "KeyError"
               end
  | _ => raise "TypeError"
  end.

(** The items [for x in v] walks through. *)
Definition py_iter (v : json) : M S (list json) :=
  match v with
  | JList l => ret l
  | JDict d => ret (map (fun kv => JStr kv.1) d)
  | JStr s => ret (chars s)
  | _ => raise "TypeError"
  end.
End Dynamic.

(** *** The 'Duration:' pattern *)

Definition digit (c : ascii) : option Z :=
  let n := Z.of_nat (nat_of_ascii c) in
  if (48 <=? n) && (n <=? 57) then Some (n - 48) else None.

(** [int(m.group(i))] for a group [\d{2}] at the head of [s], and the rest. *)
Definition two_digits (s : string) : option (Z * string) :=
  match s with
  | String a (String b rest) =>
      match digit a, digit b with
      | Some x, Some y => Some (10 * x + y, rest)
      | _, _ => None
      end
  | _ => None
  end.

(** The literal [lit] at the head of [s], and the rest. *)
Fixpoint strip (lit s : string) : option string :=
  match lit with
  | EmptyString => Some s
  | String c lit' =>
      match s with
      | String c' s' => if Ascii.eqb c c' then strip lit' s' else None
      | EmptyString => None
      end
  end.

(** A match of [Duration: (\d{2}):(\d{2}):(\d{2})\.(\d{2})] at the head. *)
Definition match_duration_here (s : string) : option (Z * Z * Z * Z) :=
  match strip "Duration: " s with
  | None => None
  | Some s1 =>
    match two_digits s1 with
    | None => None
    | Some (h, s2) =>
      match strip ":" s2 with
      | None => None
      | Some s3 =>
        match two_digits s3 with
        | None => None
        | Some (m, s4) =>
          match strip ":" s4 with
          | None => None
          | Some s5 =>
            match two_digits s5 with
            | None => None
            | Some (sec, s6) =>
              match strip "." s6 with
              | None => None
              | Some s7 =>
                match two_digits s7 with
                | None => None
                | Some (cs, _) => Some (h, m, sec, cs)
                end
              end
            end
          end
        end
      end
    end
  end.

(** [re.search(r'Duration: (\d{2}):(\d{2}):(\d{2})\.(\d{2})', s)]: the
    groups of the leftmost match. *)
Fixpoint search_duration (s : string) : option (Z * Z * Z * Z) :=
  match match_duration_here s with
  | Some g => Some g
  | None => match s with
            | EmptyString => None
            | String _ s' => search_duration s'
            end
  end.

Section FFmpegUtils.
Context `{Platform}.

Definition get_ffmpeg_path : M World string :=
  if which "ffmpeg" then ret "ffmpeg"
  else if which "ffmpeg.exe" then ret "ffmpeg.exe"
  else
    let local_ffmpeg := path_join (path_join module_dir "ffmpeg") "ffmpeg.exe" in
    ex <- path_exists local_ffmpeg ;;
    if ex : bool then ret local_ffmpeg else ret "ffmpeg".

Definition get_ffprobe_path : M World string :=
  if which "ffprobe" then ret "ffprobe"
  else if which "ffprobe.exe" then ret "ffprobe.exe"
  else
    let local_ffprobe := path_join (path_join module_dir "ffmpeg") "ffprobe.exe" in
    ex <- path_exists local_ffprobe ;;
    if ex : bool then ret local_ffprobe else ret "ffprobe".

Definition check_filter_available (filter_name : string) : M World bool :=
  ffmpeg <- get_ffmpeg_path ;;
  try_except
    (result <- subprocess_run [ffmpeg; "-filters"] ;;
     ret (contains filter_name (stdout result)))
    (fun _ => ret false).

Definition check_ffmpeg_installed : M World bool :=
  try_except
    (ffmpeg <- get_ffmpeg_path ;;
     result <- subprocess_run [ffmpeg; "-version"] ;;
     ret (returncode result =? 0))
    (fun _ => ret false).



Definition check_gpu_support : M World (gmap string bool) :=
  let support : gmap string bool :=
    <["nvidia" := false]> (<["amd" := false]> (<["intel" := false]>
      (<["videotoolbox" := false]> ∅))) in
  ffmpeg <- get_ffmpeg_path ;;
  try_except
    (result <- subprocess_run [ffmpeg; "-encoders"] ;;
     let encoders := stdout result in
     let support :=
       if contains "h264_nvenc" encoders || contains "hevc_nvenc" encoders
       then <["nvidia" := true]> support else support in
     let support :=
       if contains "h264_amf" encoders then <["amd" := true]> support else support in
     let support :=
       if contains "h264_qsv" encoders then <["intel" := true]> support else support in
     let support :=
       if contains "h264_videotoolbox" encoders
       then <["videotoolbox" := true]> support else support in
     ret support)
    (fun _ => ret support).

Definition get_media_info (file_path : string) : M World json :=
  ffprobe <- get_ffprobe_path ;;
  let cmd := [ffprobe; "-v"; "quiet"; "-print_format"; "json";
              "-show_format"; "-show_streams"; file_path] in
  r <- try_except
         (result <- subprocess_run cmd ;;
          if returncode result =? 0 then
            match json_loads (stdout result) with
            | Some j => ret (Some j)
            | None => raise "JSONDecodeError"
            end
          else ret None)
         (fun _ => ret None) ;;
  match r with
  | Some j => ret j
  | None => ret (JDict [])
  end.

(** [float(v)]. *)
Definition py_float (v : json) : M World Q :=
  match v with
  | JNum q => ret q
  | JBool b => ret (if b then 1 else 0)%Q
  | JStr s => match float_of_string s with
              | Some q => ret q
              | None => raise "ValueError"
              end
  | _ => raise "TypeError"
  end.

(** [try: return float(v['duration'])  except: pass]: the value returned,
    or [None] when the statement falls through. *)
Definition try_float_duration (v : json) : M World (option Q) :=
  try_except
    (x <- py_getitem v "duration" ;; q <- py_float x ;; ret (Some q))
    (fun _ => ret None).

(** The loop over [info['streams']]: [Some q] when it returns [q]. *)
Fixpoint scan_streams (streams : list json) : M World (option Q) :=
  match streams with
  | [] => ret None
  | stream :: rest =>
      has <- py_in "duration" stream ;;
      if has : bool then
        r <- try_float_duration stream ;;
        match r with
        | Some q => ret (Some q)
        | None => scan_streams rest
        end
      else scan_streams rest
  end.

(** [a and b], the second operand evaluated only when needed. *)
Definition and_then (a : bool) (b : M World bool) : M World bool :=
  if a then b else ret false.

Definition get_duration (file_path : string) : M World Q :=
  info <- get_media_info file_path ;;
  c1 <- and_then (truthy info)
          (has <- py_in "format" info ;;
           and_then has (fmt <- py_getitem info "format" ;; py_in "duration" fmt)) ;;
  r1 <- (if c1 : bool then fmt <- py_getitem info "format" ;; try_float_duration fmt
         else ret None) ;;
  match r1 with
  | Some q => ret q
  | None =>
    c2 <- and_then (truthy info) (py_in "streams" info) ;;
    r2 <- (if c2 : bool then
             streams <- py_getitem info "streams" ;;
             items <- py_iter streams ;;
             scan_streams items
           else ret None) ;;
    match r2 with
    | Some q => ret q
    | None =>
      ffmpeg <- get_ffmpeg_path ;;
      let cmd := [ffmpeg; "-i"; file_path; "-f"; "null"; "-"] in
      r3 <- try_except
              (result <- subprocess_run cmd ;;
               match search_duration (stderr result) with
               | Some (hours, minutes, seconds, centiseconds) =>
                   ret (Some (inject_Z (hours * 3600 + minutes * 60 + seconds)
                              + inject_Z centiseconds / 100)%Q)
               | None => ret None
               end)
              (fun _ => ret None) ;;
      match r3 with
      | Some q => ret q
      | None => ret 10%Q
      end
    end
  end.

End FFmpegUtils.
End FFmpegUtils.

(** ** filters.py: FilterGenerator *)

Module FilterGenerator.

(** An f-string with float holes, before the floats are printed: literal
    text and float values in order. *)
Inductive piece : Type :=
| Lit (s : string)
| Flt (q : Q).

Definition text : Type := list piece.

(** [int(x)] of a float: truncation toward zero. *)
Definition py_int (q : Q) : Z := Z.quot (Qnum q) (Z.pos (Qden q)).

(** [d.get(k)] on a table of strings. *)
Fixpoint table_get (k : string) (d : list (string * string)) : option string :=
  match d with
  | [] => None
  | (k', v) :: d' => if String.eqb k k' then Some v else table_get k d'
  end.

(** The object: the capability dict filled by the constructor. *)
Record t : Type := mk { available_filters : gmap string bool }.

(** [self.available_filters.get(name, dflt)]. *)
Definition available (self : t) (name : string) (dflt : bool) : bool :=
  default dflt (available_filters self !! name).

Definition filters_to_check : list string :=
  ["zoompan"; "scale"; "rotate"; "fade"; "xfade";
   "crop"; "overlay"; "colorchannelmixer"; "curves";
   "eq"; "vignette"; "noise"; "gblur"; "minterpolate";
   "split"; "blend"; "setpts"; "fps"; "format"].

Definition get_easing_expression (easing_type t duration : string) : string :=
  let x := t +:+ "/" +:+ duration in
  let easing_map :=
    [("linear", x);
     ("ease", "(3*pow(" +:+ x +:+ ",2) - 2*pow(" +:+ x +:+ ",3))");
     ("ease-in", "pow(" +:+ x +:+ ",2)");
     ("ease-out", "(1 - pow(1-" +:+ x +:+ ",2))");
     ("ease-in-out", "if(lt(" +:+ t +:+ "," +:+ duration +:+ "/2), 2*pow(" +:+ x
                     +:+ ",2), 1-2*pow(1-" +:+ x +:+ ",2))");
     ("bounce", "if(lt(" +:+ t +:+ "," +:+ duration +:+ "/2), 2*pow(" +:+ x
                +:+ ",2), 1-2*pow(1-" +:+ x +:+ ",2))*abs(sin(10*" +:+ x +:+ "))");
     ("elastic", "1-cos(20*" +:+ x +:+ ")*exp(-5*" +:+ x +:+ ")");
     ("back", "pow(" +:+ x +:+ ",2)*(2.70158*(" +:+ x +:+ ")-1.70158)")] in
  match table_get easing_type easing_map with
  | Some e => e
  | None => "(3*pow(" +:+ x +:+ ",2) - 2*pow(" +:+ x +:+ ",3))"
  end.

(** Whether [2 ** x] leaves the float range, where Python raises
    [OverflowError]: the largest float is below [2 ** 1024]. *)
Definition pow2_overflows (x : Q) : bool := Qle_bool 1024 x.

(** [intensity / 100.0]. *)
Definition percent (intensity : Z) : Q := (inject_Z intensity / 100)%Q.

(** [total_frames = int(duration * fps)] with [fps = 60]. *)
Definition total_frames (duration : Q) : Z := py_int (duration * 60).

(** The zoom expression of the zoom-in effect:
    [f"{start_scale}-({start_scale}-{end_scale})*{easing_expr}"]. *)
Definition zoom_in_scale_expr (intensity : Z) (easing_expr : string) : text :=
  let start_scale := (1 + percent intensity * (3 # 10))%Q in
  let end_scale := 1%Q in
  [Flt start_scale; Lit "-("; Flt start_scale; Lit "-"; Flt end_scale; Lit ")*";
   Lit easing_expr].

(** The zoom expression of the zoom-out (and zoom-rotate) effect:
    [f"{start_scale}+({end_scale}-{start_scale})*{easing_expr}"]. *)
Definition zoom_out_scale_expr (intensity : Z) (easing_expr : string) : text :=
  let start_scale := 1%Q in
  let end_scale := (1 + percent intensity * (3 # 10))%Q in
  [Flt start_scale; Lit "+("; Flt end_scale; Lit "-"; Flt start_scale; Lit ")*";
   Lit easing_expr].

Section FilterGenerator.
Context `{Platform}.

(** The string an f-string evaluates to. *)
Fixpoint render (tx : text) : string :=
  match tx with
  | [] => ""
  | Lit s :: tx' => s +:+ render tx'
  | Flt q :: tx' => repr_float q +:+ render tx'
  end.

Definition _check_available_filters : M World (gmap string bool) :=
  for_each filters_to_check
    (fun available filter_name =>
       a <- FFmpegUtils.check_filter_available filter_name ;;
       ret (<[filter_name := a]> available))
    ∅.

(** [FilterGenerator()]. *)
Definition init : M World t :=
  a <- _check_available_filters ;; ret (mk a).

Definition generate_ken_burns_filter (self : t) (effect : string) (duration : Q)
    (intensity : Z) (resolution : Z * Z) (easing : string) (smooth_factor : Q)
  : string :=
  if negb (available self "zoompan" true) then ""
  else
    let '(w, h) := resolution in
    let fps := 60 in
    let total_frames := total_frames duration in
    let intensity_factor := percent intensity in
    let easing_expr := get_easing_expression easing "on" (pretty total_frames) in
    let base := "scale=" +:+ pretty (w * 2) +:+ ":" +:+ pretty (h * 2)
                +:+ ":flags=lanczos" in
    let size := "s=" +:+ pretty w +:+ "x" +:+ pretty h +:+ ":fps=" +:+ pretty fps in
    let centred z :=
      "zoompan=z='" +:+ z +:+ "':d=" +:+ pretty total_frames
      +:+ ":x='(iw-ow)/2':y='(ih-oh)/2':" +:+ size in
    if String.eqb effect "zoomIn" then
      let scale_expr := render (zoom_in_scale_expr intensity easing_expr) in
      let filter_parts := [base; centred scale_expr] in
      let filter_parts :=
        if available self "minterpolate" false
        then filter_parts ++ ["minterpolate=fps=" +:+ pretty fps
                              +:+ ":mi_mode=mci:mc_mode=aobmc:me_mode=bidir"]
        else filter_parts in
      join "," filter_parts
    else if String.eqb effect "zoomOut" then
      let scale_expr := render (zoom_out_scale_expr intensity easing_expr) in
      let filter_parts := [base; centred scale_expr] in
      let filter_parts :=
        if available self "minterpolate" false
        then filter_parts ++ ["minterpolate=fps=" +:+ pretty fps +:+ ":mi_mode=mci"]
        else filter_parts in
      join "," filter_parts
    else if String.eqb effect "panLeft" then
      let zoom := ((12 # 10) + intensity_factor * (2 # 10))%Q in
      let pan_distance := (intensity_factor * (3 # 10))%Q in
      let x_expr := "(iw-ow)*" +:+ repr_float pan_distance +:+ "*(1-" +:+ easing_expr
                    +:+ ")" in
      base +:+ "," +:+ "zoompan=z='" +:+ repr_float zoom +:+ "':d="
      +:+ pretty total_frames +:+ ":x='" +:+ x_expr +:+ "':y='(ih-oh)/2':" +:+ size
    else if String.eqb effect "panRight" then
      let zoom := ((12 # 10) + intensity_factor * (2 # 10))%Q in
      let pan_distance := (intensity_factor * (3 # 10))%Q in
      let x_expr := "(iw-ow)*" +:+ repr_float pan_distance +:+ "*" +:+ easing_expr in
      base +:+ "," +:+ "zoompan=z='" +:+ repr_float zoom +:+ "':d="
      +:+ pretty total_frames +:+ ":x='" +:+ x_expr +:+ "':y='(ih-oh)/2':" +:+ size
    else if String.eqb effect "rotate" then
      let angle := (intensity_factor * 15)%Q in
      let rotate_expr := repr_float angle +:+ "*sin(2*PI*" +:+ easing_expr +:+ ")" in
      let zoom := (13 # 10)%Q in
      if available self "rotate" true then
        base +:+ "," +:+ "rotate=" +:+ rotate_expr
        +:+ "*PI/180:c=none:ow=rotw(iw):oh=roth(ih),"
        +:+ "scale=" +:+ pretty w +:+ ":" +:+ pretty h
        +:+ ":force_original_aspect_ratio=increase:flags=lanczos,"
        +:+ "crop=" +:+ pretty w +:+ ":" +:+ pretty h
      else
        base +:+ "," +:+ "zoompan=z='" +:+ repr_float zoom +:+ "':d="
        +:+ pretty total_frames +:+ ":x='(iw-ow)/2':y='(ih-oh)/2':" +:+ size
    else if String.eqb effect "diagonal" then
      let zoom := ((13 # 10) + intensity_factor * (2 # 10))%Q in
      let pan_amount := (intensity_factor * (2 # 10))%Q in
      let x_expr := "(iw-ow)*" +:+ repr_float pan_amount +:+ "*" +:+ easing_expr in
      let y_expr := "(ih-oh)*" +:+ repr_float pan_amount +:+ "*" +:+ easing_expr in
      base +:+ "," +:+ "zoompan=z='" +:+ repr_float zoom +:+ "':d="
      +:+ pretty total_frames +:+ ":x='" +:+ x_expr +:+ "':y='" +:+ y_expr +:+ "':"
      +:+ size
    else if String.eqb effect "zoomRotate" then
      let scale_expr := render (zoom_out_scale_expr intensity easing_expr) in
      let angle := (intensity_factor * 10)%Q in
      let rotate_expr := repr_float angle +:+ "*" +:+ easing_expr in
      let filter_parts := [base; centred scale_expr] in
      let filter_parts :=
        if available self "rotate" true
        then filter_parts ++ ["rotate=" +:+ rotate_expr +:+ "*PI/180:c=none"]
        else filter_parts in
      join "," filter_parts
    else if String.eqb effect "parallax" then
      let zoom := (14 # 10)%Q in
      let x_expr := "(iw-ow)/2+sin(2*PI*" +:+ easing_expr +:+ ")*"
                    +:+ repr_float (intensity_factor * 50) in
      let y_expr := "(ih-oh)/2+cos(2*PI*" +:+ easing_expr +:+ ")*"
                    +:+ repr_float (intensity_factor * 30) in
      base +:+ "," +:+ "zoompan=z='" +:+ repr_float zoom +:+ "':d="
      +:+ pretty total_frames +:+ ":x='" +:+ x_expr +:+ "':y='" +:+ y_expr +:+ "':"
      +:+ size
    else "".

Definition generate_capcut_filter (self : t) (effect : string) (duration : Q)
    (settings : EffectSettings) (clip_index : Z) : string :=
  let scaled e :=
    "scale=w='iw*(" +:+ e +:+ ")':h='ih*(" +:+ e +:+ ")':eval=frame" in
  if String.eqb effect "zoomBurst" then
    let start_scale := percent (zoom_burst_start settings) in
    let decay_time := (percent (zoom_burst_decay settings) * duration)%Q in
    let scale_expr :=
      "if(lt(t," +:+ repr_float decay_time +:+ ")," +:+ repr_float start_scale
      +:+ "*exp(-3*t/" +:+ repr_float decay_time +:+ ")+1*(1-exp(-3*t/"
      +:+ repr_float decay_time +:+ ")),1)" in
    scaled scale_expr +:+ ":flags=lanczos"
  else if String.eqb effect "pulse" then
    let amplitude := (percent (scale_amplitude settings) * (1 # 10))%Q in
    let frequency := (25 # 10)%Q in
    let scale_expr :=
      "1+" +:+ repr_float amplitude +:+ "*sin(2*PI*t*" +:+ repr_float frequency
      +:+ "/" +:+ repr_float duration +:+ ")" in
    scaled scale_expr +:+ ":flags=lanczos"
  else if String.eqb effect "bounce" then
    let amplitude := (percent (scale_amplitude settings) * (15 # 100))%Q in
    let scale_expr :=
      "1+" +:+ repr_float amplitude +:+ "*sin(10*PI*t/" +:+ repr_float duration
      +:+ ")*exp(-5*t/" +:+ repr_float duration +:+ ")" in
    scaled scale_expr +:+ ":flags=lanczos"
  else if String.eqb effect "shake" then
    let intensity := (percent (motion_intensity settings) * 10)%Q in
    let x_shake := repr_float intensity +:+ "*sin(t*50+" +:+ pretty clip_index +:+ ")" in
    let y_shake := repr_float intensity +:+ "*cos(t*37+" +:+ pretty (clip_index * 2)
                   +:+ ")" in
    "crop=w=iw-" +:+ repr_float (intensity * 2) +:+ ":h=ih-"
    +:+ repr_float (intensity * 2) +:+ ":x='" +:+ repr_float intensity +:+ "+"
    +:+ x_shake +:+ "':y='" +:+ repr_float intensity +:+ "+" +:+ y_shake
    +:+ "':eval=frame"
  else if String.eqb effect "glitch" then
    let intensity := percent (motion_intensity settings) in
    if available self "split" true && available self "blend" true then
      "split[main][glitch];"
      +:+ "[glitch]crop=w=iw:h=ih/3:x=0:y=ih/3,setpts=PTS+"
      +:+ repr_float (intensity * (1 # 10)) +:+ "[g1];"
      +:+ "[main][g1]overlay=x=" +:+ repr_float (intensity * 5)
      +:+ "*sin(t*10):y=H/3:enable='mod(t,0.5)'"
    else
      "eq=brightness=" +:+ repr_float (1 + intensity * (1 # 10))
      +:+ "*sin(t*20):eval=frame"
  else if String.eqb effect "chromatic" then
    let intensity := (percent (motion_intensity settings) * 5)%Q in
    if available self "split" true && available self "colorchannelmixer" true then
      "split=3[r][g][b];"
      +:+ "[r]colorchannelmixer=1:0:0:0:0:0:0:0:0:0:0:0[red];"
      +:+ "[g]colorchannelmixer=0:0:0:0:1:0:0:0:0:0:0:0[green];"
      +:+ "[b]colorchannelmixer=0:0:0:0:0:0:0:0:1:0:0:0[blue];"
      +:+ "[red]setpts=PTS-" +:+ repr_float (intensity * (1 # 100)) +:+ "/TB[r1];"
      +:+ "[blue]setpts=PTS+" +:+ repr_float (intensity * (1 # 100)) +:+ "/TB[b1];"
      +:+ "[r1][green]blend=all_mode=screen[rg];"
      +:+ "[rg][b1]blend=all_mode=screen"
    else
      "eq=saturation=1+" +:+ repr_float (intensity * (1 # 10))
      +:+ "*sin(t*5):eval=frame"
  else if String.eqb effect "zoomBlur" then
    let intensity := percent (motion_intensity settings) in
    let zoom_expr := "1+0.1*sin(2*PI*t/" +:+ repr_float duration +:+ ")" in
    if available self "gblur" false then
      scaled zoom_expr +:+ ","
      +:+ "gblur=sigma=" +:+ repr_float (intensity * 5) +:+ "*abs(sin(2*PI*t/"
      +:+ repr_float duration +:+ ")):steps=1"
    else
      scaled zoom_expr
  else if String.eqb effect "wobble" then
    let amplitude := (percent (motion_intensity settings) * (5 # 100))%Q in
    let wobble_expr :=
      "1+" +:+ repr_float amplitude +:+ "*sin(4*PI*t/" +:+ repr_float duration
      +:+ ")*cos(2*PI*t/" +:+ repr_float duration +:+ ")" in
    "scale=w='iw*(" +:+ wobble_expr +:+ ")':h='ih':eval=frame"
  else if String.eqb effect "spin" then
    if available self "rotate" true then
      let speed := (percent (motion_intensity settings) * 360)%Q in
      "rotate=a=" +:+ repr_float speed +:+ "*t*PI/180:c=none:ow=rotw(iw):oh=roth(ih)"
    else ""
  else "".

(** The dict [generate_transition_filter] returns. *)
Record Transition : Type := mkTransition {
  t_name : string;
  t_duration : Q;
  t_filter : string
}.

(** [generate_transition_filter]; [fade] is what its calls of itself with
    "fade" return. *)
Definition generate_transition_filter (self : t) (transition_type : string) (duration : Q)
  : Transition :=
  let fade :=
    {| t_name := "fade"; t_duration := duration;
       t_filter := "fade=t=out:st=0:d=" +:+ repr_float duration +:+ ":alpha=1" |} in
  let xfade transition :=
    {| t_name := "xfade"; t_duration := duration;
       t_filter := "xfade=transition=" +:+ transition +:+ ":duration="
                   +:+ repr_float duration +:+ ":offset=0" |} in
  if String.eqb transition_type "fade" then fade
  else if String.eqb transition_type "dissolve" then
    if available self "xfade" false then xfade "dissolve" else fade
  else if String.eqb transition_type "wipe" then
    if available self "xfade" false then xfade "wipeleft" else fade
  else if String.eqb transition_type "slide" then
    if available self "xfade" false then xfade "slideright" else fade
  else if String.eqb transition_type "zoom" then
    if available self "xfade" false then xfade "zoomin" else fade
  else if String.eqb transition_type "blur" then
    if available self "xfade" false then xfade "fadeblack" else fade
  else
    {| t_name := "fade"; t_duration := duration;
       t_filter := "fade=t=out:st=0:d=" +:+ repr_float duration |}.

Definition generate_color_correction_filter (self : t) (settings : EffectSettings)
  : string :=
  let color_filters :=
    [("warm", "colorbalance=rs=0.3:gs=0.1:bs=-0.2");
     ("cold", "colorbalance=rs=-0.2:gs=-0.1:bs=0.3");
     ("vintage", "curves=preset=vintage,colorbalance=rs=0.3:gs=-0.1:bs=-0.2");
     ("blackwhite", "hue=s=0");
     ("sepia", "colorchannelmixer=.393:.769:.189:0:.349:.686:.168:0:.272:.534:.131");
     ("cinematic", "curves=preset=darker,colorbalance=rs=0.2:bs=-0.1");
     ("vibrant", "eq=saturation=1.5:contrast=1.2");
     ("faded", "eq=saturation=0.7:contrast=0.9");
     ("instagram", "curves=preset=lighter,eq=saturation=1.2");
     ("film", "curves=preset=vintage")] in
  let filters :=
    match table_get (color_filter settings) color_filters with
    | Some filter_cmd =>
        let filter_cmd :=
          if FFmpegUtils.contains "colorbalance" filter_cmd
             && negb (available self "colorbalance" true)
          then if String.eqb (color_filter settings) "warm"
               then "eq=saturation=1.2:gamma_r=1.1:gamma_b=0.9"
               else if String.eqb (color_filter settings) "cold"
               then "eq=saturation=0.9:gamma_r=0.9:gamma_b=1.1"
               else filter_cmd
          else filter_cmd in
        let filter_cmd :=
          if FFmpegUtils.contains "curves" filter_cmd
             && negb (available self "curves" true)
          then if String.eqb (color_filter settings) "vintage"
               then "eq=saturation=0.8:contrast=0.9:brightness=0.05"
               else if String.eqb (color_filter settings) "cinematic"
               then "eq=contrast=1.1:brightness=-0.05"
               else filter_cmd
          else filter_cmd in
        [filter_cmd]
    | None => []
    end in
  let filters :=
    if vignette settings && available self "vignette" true then
      filters ++ ["vignette=angle=PI/4*"
                  +:+ repr_float (percent (vignette_intensity settings))
                  +:+ ":mode=backward"]
    else if vignette settings then
      filters ++ ["boxblur=20:20,format=gray,geq='lum(X,Y)*(1-hypot(2*(X/W-0.5),2*(Y/H-0.5)))'"]
    else filters in
  let filters :=
    if grain settings && available self "noise" true then
      filters ++ ["noise=alls=" +:+ pretty (grain_intensity settings) +:+ ":allf=t"]
    else filters in
  let filters :=
    if blur_edges settings && available self "gblur" true then
      filters ++ ["gblur=sigma=" +:+ repr_float (percent (blur_intensity settings) * 20)
                  +:+ ":steps=1"]
    else filters in
  match filters with
  | [] => ""
  | _ => join "," filters
  end.

Definition generate_overlay_filter (self : t) (overlay_settings : OverlaySettings)
    (duration : Q) : string :=
  if negb (enabled overlay_settings)
     || match files overlay_settings with [] => true | _ => false end
  then ""
  else
    let position_map :=
      [("center", "x=(W-w)/2:y=(H-h)/2");
       ("top-left", "x=0:y=0");
       ("top-right", "x=W-w:y=0");
       ("bottom-left", "x=0:y=H-h");
       ("bottom-right", "x=W-w:y=H-h")] in
    let position :=
      default "x=(W-w)/2:y=(H-h)/2" (table_get (position overlay_settings) position_map) in
    let blend_modes :=
      [("normal", "");
       ("screen", ":blend=screen");
       ("overlay", ":blend=overlay");
       ("multiply", ":blend=multiply");
       ("add", ":blend=addition");
       ("lighten", ":blend=lighten");
       ("darken", ":blend=darken")] in
    let blend := default "" (table_get (blend_mode overlay_settings) blend_modes) in
    let filters :=
      if negb (scale overlay_settings =? 100) then
        let scale := percent (scale overlay_settings) in
        ["scale=iw*" +:+ repr_float scale +:+ ":ih*" +:+ repr_float scale]
      else [] in
    let filters :=
      if negb (rotation overlay_settings =? 0) && available self "rotate" true then
        filters ++ ["rotate=" +:+ pretty (rotation overlay_settings) +:+ "*PI/180:c=none"]
      else filters in
    let opacity := percent (opacity overlay_settings) in
    let filters :=
      if available self "format" true then
        filters ++ ["format=rgba,colorchannelmixer=aa=" +:+ repr_float opacity]
      else filters in
    let '(filters, position) :=
      if animate overlay_settings then
        if String.eqb (animation_type overlay_settings) "fade" then
          (filters ++ ["fade=in:st=0:d=1:alpha=1"], position)
        else if String.eqb (animation_type overlay_settings) "slide" then
          (filters, position +:+ ":x='if(lt(t,2),W-w*t/2,x)':eval=frame")
        else if String.eqb (animation_type overlay_settings) "zoom" then
          (filters ++ ["scale=w='iw*(1+0.1*sin(t))':h='ih*(1+0.1*sin(t))':eval=frame"],
           position)
        else (filters, position)
      else (filters, position) in
    let overlay_filter := match filters with [] => "null" | _ => join "," filters end in
    overlay_filter +:+ "[ov];[ov]overlay=" +:+ position +:+ blend.

(** A number that is an [int] or a [float], and its [str]. *)
Inductive pynum : Type :=
| PyInt (z : Z)
| PyFloat (q : Q).

Definition str_num (n : pynum) : string :=
  match n with
  | PyInt z => pretty z
  | PyFloat q => repr_float q
  end.

Definition generate_fade_filter (fade_type : string) (duration : Q) (start_time : pynum)
  : string :=
  if String.eqb fade_type "in" then
    "fade=t=in:st=" +:+ str_num start_time +:+ ":d=" +:+ repr_float duration
  else if String.eqb fade_type "out" then
    "fade=t=out:st=" +:+ str_num start_time +:+ ":d=" +:+ repr_float duration
  else "".

(** [generate_audio_filter].  The [try] around the pitch stage catches
    [ValueError] only: the [OverflowError] of [2 ** (semitones / 12)]
    leaves the function. *)
Definition generate_audio_filter (self : t) (settings : EffectSettings) : M World string :=
  filters <-
    (if negb (String.eqb (audio_pitch settings) "0") then
       match float_of_string (audio_pitch settings) with
       | Some semitones =>
           rubberband <- FFmpegUtils.check_filter_available "rubberband" ;;
           if rubberband : bool
           then ret ["rubberband=pitch=" +:+ repr_float semitones]
           else if pow2_overflows (semitones / 12) then raise "OverflowError"
           else ret ["asetrate=44100*" +:+ repr_pow2_12 semitones +:+ ",aresample=44100"]
       | None => ret []
       end
     else ret []) ;;
  let effect_filters :=
    [("bass", "bass=g=10:f=100");
     ("reverb", "aecho=0.8:0.9:40:0.4");
     ("echo", "aecho=0.8:0.7:60:0.5");
     ("chorus", "chorus=0.5:0.9:50|60|40:0.4|0.32|0.3:0.25|0.4|0.3:2|2.3|1.3");
     ("telephone", "highpass=f=300,lowpass=f=3000");
     ("underwater", "lowpass=f=500,aecho=0.8:0.9:1000:0.3");
     ("radio", "highpass=f=300,lowpass=f=3000,aecho=0.8:0.7:40:0.25");
     ("vintage", "lowpass=f=8000,aecho=0.6:0.8:60:0.35");
     ("distortion", "acompressor=threshold=0.5:ratio=5:attack=10");
     ("robot", "afftfilt=real='re * (1-clip((b/nb)*b,0,1))':imag='im * (1-clip((b/nb)*b,0,1))'")] in
  filters <-
    match table_get (audio_effect settings) effect_filters with
    | Some effect_filter =>
        effect_filter <-
          (if FFmpegUtils.contains "afftfilt" effect_filter then
             a <- FFmpegUtils.check_filter_available "afftfilt" ;;
             if a : bool then ret effect_filter
             else ret "aecho=0.8:0.8:5:0.7,aecho=0.8:0.8:11:0.5"
           else ret effect_filter) ;;
        ret (filters ++ [effect_filter])
    | None => ret filters
    end ;;
  filters <-
    (if audio_stereo_enhance settings then
       a <- FFmpegUtils.check_filter_available "stereotools" ;;
       if a : bool then ret (filters ++ ["stereotools=slev=1.5:sbal=0"]) else ret filters
     else ret filters) ;;
  let filters :=
    if audio_compressor settings
    then filters ++ ["acompressor=threshold=0.1:ratio=4:attack=5:release=50"]
    else filters in
  let filters :=
    if audio_limiter settings
    then filters ++ ["alimiter=limit=0.95:attack=5:release=50"]
    else filters in
  filters <-
    (if audio_normalize settings then
       a <- FFmpegUtils.check_filter_available "loudnorm" ;;
       if a : bool then ret (filters ++ ["loudnorm=I=-16:TP=-1.5:LRA=11"])
       else ret (filters ++ ["volume=0.9"])
     else ret filters) ;;
  match filters with
  | [] => ret "anull"
  | _ => ret (join "," filters)
  end.

Definition get_codec_params (self : t) (export_settings : ExportSettings)
    (gpu_support : gmap string bool) (include_audio : bool) : list string :=
  let q := quality export_settings in
  let cpu := ["-c:v"; "libx264"; "-preset"; preset q; "-crf"; pretty (crf q)] in
  let params :=
    if use_gpu export_settings && String.eqb (gpu_type export_settings) "auto" then
      if default false (gpu_support !! "nvidia") then
        ["-c:v"; "h264_nvenc"; "-preset"; "p4"; "-tune"; "hq";
         "-rc"; "vbr"; "-cq"; pretty (crf q)]
      else if default false (gpu_support !! "amd") then
        ["-c:v"; "h264_amf"; "-quality"; "balanced";
         "-rc"; "cqp"; "-qp_i"; pretty (crf q)]
      else if default false (gpu_support !! "intel") then
        ["-c:v"; "h264_qsv"; "-preset"; "medium"; "-global_quality"; pretty (crf q)]
      else cpu
    else cpu in
  let params :=
    params ++ ["-b:v"; pretty (bitrate export_settings) +:+ "M";
               "-maxrate"; pretty (bitrate export_settings + 2) +:+ "M";
               "-bufsize"; pretty (bitrate export_settings * 2) +:+ "M"] in
  let params :=
    if String.eqb (codec export_settings) "h264"
       && negb (FFmpegUtils.contains "nvenc" (join " " params))
    then params ++ ["-profile:v"; profile q; "-level"; level q]
    else params in
  let params := params ++ ["-pix_fmt"; pixel_format q] in
  let params :=
    if negb (String.eqb (color_space q) "")
    then params ++ ["-colorspace"; color_space q] else params in
  let params :=
    if negb (String.eqb (color_range q) "")
    then params ++ ["-color_range"; color_range q] else params in
  if include_audio then
    params ++ ["-c:a"; audio_codec export_settings;
               "-b:a"; pretty (audio_bitrate export_settings) +:+ "k"]
  else params.

End FilterGenerator.
End FilterGenerator.

(** ** The expression language of the transcoder

    The zoom of a [zoompan] stage is an arithmetic expression that the
    transcoder parses and evaluates on every output frame, with [on] bound to
    the frame number.  This is the fragment of that language the compiled
    expressions use: decimal numbers, names, [+ - * /] with the usual
    precedence (both left associative), unary sign, parentheses and function
    calls; blanks are skipped.  Values are real numbers; a division by zero
    has no value. *)

Module AvExpr.
Import FilterGenerator.

Inductive token : Type :=
| TNum (q : Q)
| TId (x : string)
| TPlus | TMinus | TStar | TSlash | TLPar | TRPar | TComma.

(** What the lexer is in the middle of. *)
Inductive lex_state : Type :=
| Idle
| InInt (n : Z)
| InFrac (n : Z) (den : positive)
| InId (acc : string).

Definition flush (st : lex_state) : list token :=
  match st with
  | Idle => []
  | InInt n => [TNum (inject_Z n)]
  | InFrac n den => [TNum (n # den)]
  | InId acc => [TId acc]
  end.

Definition is_letter (c : ascii) : bool :=
  let n := Z.of_nat (nat_of_ascii c) in
  ((65 <=? n) && (n <=? 90)) || ((97 <=? n) && (n <=? 122)) || (n =? 95).

Definition symbol (c : ascii) : option token :=
  if Ascii.eqb c "+" then Some TPlus
  else if Ascii.eqb c "-" then Some TMinus
  else if Ascii.eqb c "*" then Some TStar
  else if Ascii.eqb c "/" then Some TSlash
  else if Ascii.eqb c "(" then Some TLPar
  else if Ascii.eqb c ")" then Some TRPar
  else if Ascii.eqb c "," then Some TComma
  else None.

Definition snoc_char (acc : string) (c : ascii) : string :=
  acc +:+ String c EmptyString.

Fixpoint lex_from (st : lex_state) (s : string) : option (list token) :=
  match s with
  | EmptyString => Some (flush st)
  | String c s' =>
      match FFmpegUtils.digit c with
      | Some d =>
          match st with
          | Idle => lex_from (InInt d) s'
          | InInt n => lex_from (InInt (10 * n + d)) s'
          | InFrac n den => lex_from (InFrac (10 * n + d) (10 * den)) s'
          | InId acc => lex_from (InId (snoc_char acc c)) s'
          end
      | None =>
          if Ascii.eqb c "." then
            match st with
            | InInt n => lex_from (InFrac n 1) s'
            | _ => None
            end
          else if is_letter c then
            match st with
            | Idle => lex_from (InId (String c EmptyString)) s'
            | InId acc => lex_from (InId (snoc_char acc c)) s'
            | _ => None
            end
          else if Ascii.eqb c " " then
            match lex_from Idle s' with
            | Some ts => Some (flush st ++ ts)
            | None => None
            end
          else
            match symbol c, lex_from Idle s' with
            | Some tk, Some ts => Some (flush st ++ tk :: ts)
            | _, _ => None
            end
      end
  end.

(** The tokens of an f-string: the literal parts are read character by
    character, a float hole is one number (with its sign). *)
Fixpoint lex_text (tx : text) : option (list token) :=
  match tx with
  | [] => Some []
  | p :: tx' =>
      match (match p with
             | Lit s => lex_from Idle s
             | Flt q => Some (if Qle_bool 0 q then [TNum q] else [TMinus; TNum (- q)])
             end), lex_text tx' with
      | Some ts, Some ts' => Some (ts ++ ts')
      | _, _ => None
      end
  end.

Inductive expr : Type :=
| ENum (q : Q)
| EVar (x : string)
| ENeg (e : expr)
| EAdd (a b : expr)
| ESub (a b : expr)
| EMul (a b : expr)
| EDiv (a b : expr)
| ECall1 (f : string) (a : expr)
| ECall2 (f : string) (a b : expr)
| ECall3 (f : string) (a b c : expr).

(** Recursive descent, [n] bounding the depth of the calls. *)
Fixpoint parse_sum (n : nat) (ts : list token) : option (expr * list token) :=
  match n with
  | O => None
  | S n =>
      match parse_product n ts with
      | Some (a, ts') => parse_sum_rest n a ts'
      | None => None
      end
  end
with parse_sum_rest (n : nat) (a : expr) (ts : list token) : option (expr * list token) :=
  match n with
  | O => None
  | S n =>
      match ts with
      | TPlus :: ts' =>
          match parse_product n ts' with
          | Some (b, ts'') => parse_sum_rest n (EAdd a b) ts''
          | None => None
          end
      | TMinus :: ts' =>
          match parse_product n ts' with
          | Some (b, ts'') => parse_sum_rest n (ESub a b) ts''
          | None => None
          end
      | _ => Some (a, ts)
      end
  end
with parse_product (n : nat) (ts : list token) : option (expr * list token) :=
  match n with
  | O => None
  | S n =>
      match parse_factor n ts with
      | Some (a, ts') => parse_product_rest n a ts'
      | None => None
      end
  end
with parse_product_rest (n : nat) (a : expr) (ts : list token) : option (expr * list token) :=
  match n with
  | O => None
  | S n =>
      match ts with
      | TStar :: ts' =>
          match parse_factor n ts' with
          | Some (b, ts'') => parse_product_rest n (EMul a b) ts''
          | None => None
          end
      | TSlash :: ts' =>
          match parse_factor n ts' with
          | Some (b, ts'') => parse_product_rest n (EDiv a b) ts''
          | None => None
          end
      | _ => Some (a, ts)
      end
  end
with parse_factor (n : nat) (ts : list token) : option (expr * list token) :=
  match n with
  | O => None
  | S n =>
      match ts with
      | TMinus :: ts' =>
          match parse_factor n ts' with
          | Some (a, ts'') => Some (ENeg a, ts'')
          | None => None
          end
      | TPlus :: ts' => parse_factor n ts'
      | TNum q :: ts' => Some (ENum q, ts')
      | TId f :: TLPar :: ts' =>
          match parse_sum n ts' with
          | Some (a, TRPar :: r) => Some (ECall1 f a, r)
          | Some (a, TComma :: r) =>
              match parse_sum n r with
              | Some (b, TRPar :: r') => Some (ECall2 f a b, r')
              | Some (b, TComma :: r') =>
                  match parse_sum n r' with
                  | Some (c, TRPar :: r'') => Some (ECall3 f a b c, r'')
                  | _ => None
                  end
              | _ => None
              end
          | _ => None
          end
      | TId x :: ts' => Some (EVar x, ts')
      | TLPar :: ts' =>
          match parse_sum n ts' with
          | Some (a, TRPar :: r) => Some (a, r)
          | _ => None
          end
      | _ => None
      end
  end.

(** The expression a token list denotes; all of it must be consumed. *)
Definition parse (ts : list token) : option expr :=
  match parse_sum (6 * length ts + 6) ts with
  | Some (e, []) => Some e
  | _ => None
  end.

(** The expression an f-string denotes. *)
Definition parse_text (tx : text) : option expr :=
  match lex_text tx with
  | Some ts => parse ts
  | None => None
  end.

#[local] Open Scope R_scope.

Definition lift2 (f : R -> R -> R) (a b : option R) : option R :=
  match a, b with
  | Some x, Some y => Some (f x y)
  | _, _ => None
  end.

(** [n] when [q] is the natural number [n]. *)
Definition as_nat (q : Q) : option nat :=
  match q with
  | Qmake (Z.neg _) _ => None
  | Qmake z 1%positive => Some (Z.to_nat z)
  | _ => None
  end.

(** The value of an expression when the frame number [on] is [frame]. *)
Fixpoint eval (frame : R) (e : expr) : option R :=
  match e with
  | ENum q => Some (Q2R q)
  | EVar x => if String.eqb x "on" then Some frame
              else if String.eqb x "PI" then Some PI
              else None
  | ENeg a => match eval frame a with Some x => Some (- x) | None => None end
  | EAdd a b => lift2 Rplus (eval frame a) (eval frame b)
  | ESub a b => lift2 Rminus (eval frame a) (eval frame b)
  | EMul a b => lift2 Rmult (eval frame a) (eval frame b)
  | EDiv a b =>
      match eval frame a, eval frame b with
      | Some x, Some y => if Req_dec_T y 0 then None else Some (x / y)
      | _, _ => None
      end
  | ECall1 f a =>
      match eval frame a with
      | Some x =>
          if String.eqb f "sin" then Some (sin x)
          else if String.eqb f "cos" then Some (cos x)
          else if String.eqb f "exp" then Some (exp x)
          else if String.eqb f "abs" then Some (Rabs x)
          else None
      | None => None
      end
  | ECall2 f a b =>
      if String.eqb f "pow" then
        match eval frame a, b with
        | Some x, ENum q =>
            match as_nat q with
            | Some k => Some (x ^ k)
            | None => None
            end
        | _, _ => None
        end
      else if String.eqb f "lt" then
        match eval frame a, eval frame b with
        | Some x, Some y => Some (if Rlt_dec x y then 1 else 0)
        | _, _ => None
        end
      else None
  | ECall3 f c a b =>
      if String.eqb f "if" then
        match eval frame c with
        | Some x => if Req_dec_T x 0 then eval frame b else eval frame a
        | None => None
        end
      else None
  end.

(** The value of the expression an f-string denotes, at frame [frame]. *)
Definition value_at (tx : text) (frame : R) : option R :=
  match parse_text tx with
  | Some e => eval frame e
  | None => None
  end.

End AvExpr.

(** ** utils.py: Validators *)

Module Validators.

Definition validate_resolution (resolution : string) : bool :=
  str_in resolution
    ["1920x1080"; "3840x2160"; "2560x1440"; "1280x720";
     "1080x1920"; "1080x1080"; "720x1280"; "custom"].

Definition validate_fps (fps : Z) : bool := (1 <=? fps) && (fps <=? 120).

Definition validate_bitrate (bitrate : Z) : bool := (1 <=? bitrate) && (bitrate <=? 100).

Definition validate_audio_pitch (pitch : string) : bool :=
  str_in pitch
    ["-3"; "-2.5"; "-2"; "-1.5"; "-1"; "-0.5"; "0";
     "+0.5"; "+1"; "+1.5"; "+2"; "+2.5"; "+3"].

Definition validate_audio_effect (effect : string) : bool :=
  str_in effect
    ["none"; "bass"; "reverb"; "echo"; "chorus"; "telephone";
     "underwater"; "radio"; "vintage"; "distortion"; "robot"].

Definition validate_easing_type (easing : string) : bool :=
  str_in easing
    ["linear"; "ease"; "ease-in"; "ease-out"; "ease-in-out";
     "bounce"; "elastic"; "back"].

End Validators.

(** ** utils.py: Converters *)

Module Converters.
Import FFmpegUtils.

(** The groups of [(\d{2}):(\d{2}):(\d{2})\.(\d{2})] matched at the head
    of [s] ([re.match]); digits are the ASCII digits. *)
Definition match_time (s : string) : option (Z * Z * Z * Z) :=
  '(hours, s) ← two_digits s;
  s ← strip ":" s;
  '(minutes, s) ← two_digits s;
  s ← strip ":" s;
  '(seconds, s) ← two_digits s;
  s ← strip "." s;
  '(centiseconds, _) ← two_digits s;
  Some (hours, minutes, seconds, centiseconds).

Definition time_to_seconds (time_str : string) : Q :=
  match match_time time_str with
  | Some (hours, minutes, seconds, centiseconds) =>
      (inject_Z (hours * 3600 + minutes * 60 + seconds) + inject_Z centiseconds / 100)%Q
  | None => 0%Q
  end.

(** [x // y] and [x % y] on floats, for [y > 0]. *)
Definition py_floordiv (x y : Q) : Q := inject_Z (Qfloor (x / y)).
Definition py_mod (x y : Q) : Q := (x - y * inject_Z (Qfloor (x / y)))%Q.

(** [f"{n:02d}"]. *)
Definition format_02d (n : Z) : string :=
  if (0 <=? n) && (n <? 10) then "0" +:+ pretty n else pretty n.

Definition seconds_to_time (seconds : Q) : string :=
  let hours := FilterGenerator.py_int (py_floordiv seconds 3600) in
  let minutes := FilterGenerator.py_int (py_floordiv (py_mod seconds 3600) 60) in
  let secs := FilterGenerator.py_int (py_mod seconds 60) in
  let centisecs := FilterGenerator.py_int (py_mod seconds 1 * 100) in
  format_02d hours +:+ ":" +:+ format_02d minutes +:+ ":" +:+ format_02d secs
  +:+ "." +:+ format_02d centisecs.

(** [float(n)] of an int: beyond the float range the conversion raises
    [OverflowError].  (Rounding inside the range is not modelled.) *)
Definition float_of_int (n : Z) : result Q :=
  if Z.abs n <? float_limit then Return (inject_Z n) else Raise "OverflowError".

Section Formatting.
(** [f"{x:.1f}"]. *)
Variable format_1f : Q -> string.

(** The loop of [bytes_to_human] over the units still to try. *)
Fixpoint bytes_to_human_from (units : list string) (bytes_size : Q) : string :=
  match units with
  | [] => format_1f bytes_size +:+ " PB"
  | unit :: rest =>
      if negb (Qle_bool 1024 bytes_size) then format_1f bytes_size +:+ " " +:+ unit
      else bytes_to_human_from rest (bytes_size / 1024)
  end.

(** [bytes_to_human]: the first formatting or the first division,
    whichever comes first, converts the int to a float. *)
Definition bytes_to_human (bytes_size : Z) : result string :=
  match float_of_int bytes_size with
  | Return x => Return (bytes_to_human_from ["B"; "KB"; "MB"; "GB"; "TB"] x)
  | Raise e => Raise e
  end.

End Formatting.

Definition resolution_to_string (width height : Z) : string :=
  pretty width +:+ "x" +:+ pretty height.

(** The value of the digits at the head of [s] after the value [acc] of the
    digits already read, and the rest. *)
Fixpoint digits_from (acc : Z) (s : string) : Z * string :=
  match s with
  | String c s' =>
      match digit c with
      | Some d => digits_from (10 * acc + d) s'
      | None => (acc, s)
      end
  | EmptyString => (acc, s)
  end.

(** [int(m.group(i))] for a group [(\d+)] at the head of [s], and the
    rest. *)
Definition int_prefix (s : string) : option (Z * string) :=
  match s with
  | String c s' =>
      match digit c with
      | Some d => Some (digits_from d s')
      | None => None
      end
  | EmptyString => None
  end.

Definition string_to_resolution (resolution : string) : Z * Z :=
  match ('(w, s) ← int_prefix resolution;
         s ← strip "x" s;
         '(h, _) ← int_prefix s;
         Some (w, h)) with
  | Some r => r
  | None => (1920, 1080)
  end.

End Converters.

(** ** utils.py: ProgressTracker *)

Module ProgressTracker.
Section ProgressTracker.
(** What the callbacks act on. *)
Context {S : Type}.

(** The object.  [start_time] is [None] until [start] is called. *)
Record t : Type := mk {
  total_steps : Z;
  current_step : Z;
  start_time : option Q;
  callbacks : list (Q -> string -> M S unit)
}.

(** The tracker and the state of its callbacks. *)
Definition St : Type := (t * S)%type.

(** [time.time()]. *)
Variable clock : S -> Q.

(** [ProgressTracker(total_steps)]. *)
Definition init (total_steps : Z) : t :=
  {| total_steps := total_steps; current_step := 0; start_time := None; callbacks := [] |}.

Definition add_callback (callback : Q -> string -> M S unit) : M St unit :=
  modify (fun st : St =>
            ({| total_steps := total_steps st.1; current_step := current_step st.1;
                start_time := start_time st.1;
                callbacks := callbacks st.1 ++ [callback] |}, st.2)).

(** A callback run on the state beside the tracker. *)
Definition call (callback : Q -> string -> M S unit) (percent : Q) (message : string)
  : M St unit :=
  fun st => let '(r, s') := callback percent message st.2 in (r, (st.1, s')).

Definition _notify (percent : Q) (message : string) : M St unit :=
  cbs <- gets (fun st : St => callbacks st.1) ;;
  for_each cbs
    (fun _ callback =>
       try_except_Exception (call callback percent message) (fun _ => ret tt))
    tt.

Definition start : M St unit :=
  modify (fun st : St =>
            ({| total_steps := total_steps st.1; current_step := 0;
                start_time := Some (clock st.2);
                callbacks := callbacks st.1 |}, st.2)) ;;;
  _notify 0 "Начало операции".

(** [update].  (A product beyond the float range is an infinity in Python,
    which [Q] has not; the properties of [update] keep the percentage
    inside the range.) *)
Definition update (step : Z) (message : string) : M St unit :=
  modify (fun st : St =>
            ({| total_steps := total_steps st.1;
                current_step := Z.min step (total_steps st.1);
                start_time := start_time st.1;
                callbacks := callbacks st.1 |}, st.2)) ;;;
  self <- gets (fun st : St => st.1) ;;
  ratio <- int_truediv (current_step self) (total_steps self) ;;
  let percent := (ratio * 100)%Q in
  _notify percent message.

Definition increment (message : string) : M St unit :=
  self <- gets (fun st : St => st.1) ;;
  update (current_step self + 1) message.

(** [finish]; the elapsed time is only logged. *)
Definition finish (message : string) : M St unit :=
  self <- gets (fun st : St => st.1) ;;
  update (total_steps self) message.

End ProgressTracker.
End ProgressTracker.

(** ** engine.py: MontageEngine *)

Module MontageEngine.
Import FFmpegUtils.

(** [VideoClip]. *)
Record VideoClip : Type := mkVideoClip {
  video_path : string;
  audio_path : string;
  duration : Q;
  is_first : bool;
  is_last : bool;
  effects_applied : EffectsManager.ClipEffects
}.

(** The object.  The progress tracker only notifies callbacks and is left
    out; directories are not tracked on the modelled disk. *)
Record t : Type := mk {
  project_folder : string;
  audio_variants_folder : string;
  renders_folder : string;
  temp_folder : string;
  media_pairs : list MediaPair;
  gpu_support : gmap string bool;
  filter_generator : FilterGenerator.t
}.

(** [s.replace(c, by)] for a one-character [c]. *)
Fixpoint replace_char (c : ascii) (by_ : string) (s : string) : string :=
  match s with
  | EmptyString => EmptyString
  | String x s' =>
      if Ascii.eqb x c then by_ +:+ replace_char c by_ s'
      else String x (replace_char c by_ s')
  end.

(** The position of the last [c] in [s], counted from 0. *)
Fixpoint last_index (c : ascii) (s : string) (i : nat) (found : option nat) : option nat :=
  match s with
  | EmptyString => found
  | String x s' => last_index c s' (S i) (if Ascii.eqb x c then Some i else found)
  end.

(** [str(Path(p).with_suffix(suffix))]. *)
Definition with_suffix (p suffix : string) : string :=
  let start := match last_index "/" p 0 None with Some i => S i | None => 0%nat end in
  let dir := String.substring 0 start p in
  let name := String.substring start (String.length p - start) p in
  match last_index "." name 0 None with
  | Some i =>
      if (0 <? i)%nat && (i <? String.length name - 1)%nat
      then dir +:+ String.substring 0 i name +:+ suffix
      else p +:+ suffix
  | None => p +:+ suffix
  end.

(** Truth of [d.get(key)] for an optional string. *)
Definition chosen (o : option string) : option string :=
  match o with
  | Some e => if String.eqb e "" then None else Some e
  | None => None
  end.

Section MontageEngine.
Context `{Platform}.

(** [MontageEngine(project_folder)]. *)
Definition init (project_folder : string) : M World t :=
  now <- gets time_time ;;
  let temp_folder :=
    path_join (path_join tempdir "automontage") ("session_" +:+ pretty now) in
  gpu <- check_gpu_support ;;
  fg <- FilterGenerator.init ;;
  installed <- check_ffmpeg_installed ;;
  if installed : bool then
    ret {| project_folder := project_folder;
           audio_variants_folder := path_join project_folder "audio_variants";
           renders_folder := path_join project_folder "renders";
           temp_folder := temp_folder;
           media_pairs := [];
           gpu_support := gpu;
           filter_generator := fg |}
  else raise "RuntimeError".

Definition _get_audio_variant_name (number pitch effect : string) : string :=
  let variant_name :=
    number +:+ "_pitch_" +:+ replace_char "." "_" (replace_char "+" "plus" pitch) in
  let variant_name :=
    if negb (String.eqb effect "none") then variant_name +:+ "_" +:+ effect
    else variant_name in
  variant_name +:+ ".mp3".

Definition _get_audio_variant (self : t) (pair : MediaPair) (effects : EffectSettings)
  : M World string :=
  let pitch := audio_pitch effects in
  let effect := audio_effect effects in
  if String.eqb pitch "0" && String.eqb effect "none" then ret (audio_file pair)
  else
    let variant_path :=
      path_join (audio_variants_folder self)
                (_get_audio_variant_name (number pair) pitch effect) in
    ex <- path_exists variant_path ;;
    if ex : bool then ret variant_path else ret (audio_file pair).

Definition _process_audio (self : t) (input_path output_path pitch effect : string)
  : M World bool :=
  ffmpeg <- get_ffmpeg_path ;;
  let temp_settings :=
    {| ken_burns := []; ken_burns_intensity := 30; rotation_angle := 5;
       kb_randomize := false; kb_smooth_factor := 7 # 10;
       transitions := ["fade"]; transition_duration := 1; trans_overlap := 1 # 2;
       fade_in_from_black := false; fade_in_duration := 1;
       fade_out_to_black := false; fade_out_duration := 1;
       add_black_frame := true;
       color_correction := false; color_filter := "none";
       vignette := false; vignette_intensity := 40;
       grain := false; grain_intensity := 20;
       blur_edges := false; blur_intensity := 30;
       audio_pitch := pitch; audio_effect := effect;
       audio_stereo_enhance := false; audio_normalize := true;
       audio_compressor := false; audio_limiter := false;
       easing_type := "ease"; motion_blur := false; motion_blur_amount := 20;
       capcut_effects := []; scale_amplitude := 15;
       zoom_burst_start := 150; zoom_burst_decay := 80;
       motion_effects := []; motion_intensity := 30;
       effect_frequency := "all"; effect_percent := 50; effect_every := 3;
       capcut_timing := "start" |} in
  audio_filter <- FilterGenerator.generate_audio_filter (filter_generator self) temp_settings ;;
  let cmd := [ffmpeg; "-i"; input_path; "-af"; audio_filter; "-b:a"; "192k";
              "-y"; output_path] in
  try_except
    (result <- subprocess_run cmd ;; ret (returncode result =? 0))
    (fun _ => ret false).

(** The (pitch, effect) settings of the channels, each once. *)
Fixpoint audio_configs (channels : list Channel) : list (string * string) :=
  match channels with
  | [] => []
  | c :: rest =>
      let cfg := (audio_pitch (effects c), audio_effect (effects c)) in
      let others := audio_configs rest in
      if bool_decide (cfg ∈ others) then others else cfg :: others
  end.

(** The loops of [prepare_audio_variants]: [false] as soon as one variant
    cannot be made. *)
Fixpoint prepare_variants (self : t) (todo : list (MediaPair * (string * string)))
  : M World bool :=
  match todo with
  | [] => ret true
  | item :: rest =>
      let pair := item.1 in
      let pitch := item.2.1 in
      let effect := item.2.2 in
      let variant_path :=
        path_join (audio_variants_folder self)
                  (_get_audio_variant_name (number pair) pitch effect) in
      ex <- path_exists variant_path ;;
      ok <- (if ex : bool then ret true
             else _process_audio self (audio_file pair) variant_path pitch effect) ;;
      if ok : bool then prepare_variants self rest else ret false
  end.

Definition prepare_audio_variants (self : t) (channels : list Channel) : M World bool :=
  let configs := audio_configs channels in
  prepare_variants self
    (flat_map (fun pair => map (fun cfg => (pair, cfg)) configs) (media_pairs self)).

(** The filter chain of one clip. *)
Definition clip_filters (self : t) (pair : MediaPair) (duration : Q)
    (resolution : Z * Z) (channel : Channel) (clip_effects : EffectsManager.ClipEffects)
    (clip_index total_clips : Z) : list string :=
  let effects := effects channel in
  let export := export channel in
  let fg := filter_generator self in
  let output_fps := match ken_burns effects with [] => fps export | _ => 60 end in
  let '(w, h) := resolution in
  let filters :=
    if String.eqb (media_type pair) "image" then
      let filters :=
        ["scale=" +:+ pretty (w * 2) +:+ ":" +:+ pretty (h * 2)
         +:+ ":force_original_aspect_ratio=increase:flags=lanczos"] in
      let filters :=
        match chosen (EffectsManager.capcut_start clip_effects) with
        | Some e =>
            let capcut_filter :=
              FilterGenerator.generate_capcut_filter fg e (duration * (3 # 10))
                effects clip_index in
            if String.eqb capcut_filter "" then filters else filters ++ [capcut_filter]
        | None => filters
        end in
      let filters :=
        match chosen (EffectsManager.ce_ken_burns clip_effects) with
        | Some e =>
            let kb_filter :=
              FilterGenerator.generate_ken_burns_filter fg e duration
                (ken_burns_intensity effects) resolution (easing_type effects)
                (kb_smooth_factor effects) in
            if String.eqb kb_filter "" then filters else filters ++ [kb_filter]
        | None =>
            filters ++ ["scale=" +:+ pretty w +:+ ":" +:+ pretty h
                        +:+ ":force_original_aspect_ratio=increase";
                        "crop=" +:+ pretty w +:+ ":" +:+ pretty h]
        end in
      match chosen (EffectsManager.capcut_end clip_effects) with
      | Some e =>
          let end_start := (duration * (7 # 10))%Q in
          let capcut_filter :=
            FilterGenerator.generate_capcut_filter fg e (duration * (3 # 10))
              effects clip_index in
          if String.eqb capcut_filter "" then filters
          else filters ++ ["split[main][effect];"
                           +:+ "[effect]" +:+ capcut_filter +:+ ",setpts=PTS+"
                           +:+ repr_float end_start +:+ "/TB[effect_delayed];"
                           +:+ "[main][effect_delayed]overlay=enable='gte(t,"
                           +:+ repr_float end_start +:+ ")'"]
      | None => filters
      end
    else
      ["scale=" +:+ pretty w +:+ ":" +:+ pretty h
       +:+ ":force_original_aspect_ratio=increase:flags=lanczos";
       "crop=" +:+ pretty w +:+ ":" +:+ pretty h] in
  let filters :=
    if color_correction effects then
      let color_filter := FilterGenerator.generate_color_correction_filter fg effects in
      if String.eqb color_filter "" then filters else filters ++ [color_filter]
    else filters in
  let filters :=
    if motion_blur effects && FilterGenerator.available fg "minterpolate" false then
      let blur_amount := FilterGenerator.percent (motion_blur_amount effects) in
      filters ++ ["minterpolate=fps=" +:+ pretty output_fps
                  +:+ ":mi_mode=mci:mc_mode=aobmc:me_mode=bidir:mb_size="
                  +:+ pretty (FilterGenerator.py_int (8 * blur_amount))]
    else filters in
  let filters :=
    if (clip_index =? 0) && fade_in_from_black effects then
      filters ++ [FilterGenerator.generate_fade_filter "in" (fade_in_duration effects)
                    (FilterGenerator.PyInt 0)]
    else filters in
  let filters :=
    if (clip_index =? total_clips - 1) && fade_out_to_black effects then
      let d := (duration - fade_out_duration effects)%Q in
      let fade_start :=
        if Qle_bool d 0 then FilterGenerator.PyInt 0 else FilterGenerator.PyFloat d in
      filters ++ [FilterGenerator.generate_fade_filter "out" (fade_out_duration effects)
                    fade_start]
    else filters in
  filters ++ ["fps=" +:+ pretty output_fps].

(** Where the clip of [pair] is rendered. *)
Definition clip_output_path (self : t) (pair : MediaPair) (clip_index : Z) : string :=
  path_join (temp_folder self)
            ("clip_" +:+ number pair +:+ "_" +:+ pretty clip_index +:+ ".mp4").

(** The encoder invocation of one clip. *)
Definition clip_cmd (self : t) (ffmpeg : string) (pair : MediaPair) (duration : Q)
    (resolution : Z * Z) (channel : Channel) (clip_effects : EffectsManager.ClipEffects)
    (clip_index total_clips : Z) : list string :=
  let effects := effects channel in
  let export := export channel in
  let output_fps := match ken_burns effects with [] => fps export | _ => 60 end in
  let filters :=
    clip_filters self pair duration resolution channel clip_effects clip_index total_clips in
  let codec_params :=
    FilterGenerator.get_codec_params (filter_generator self) export (gpu_support self)
      false in
  let cmd :=
    if String.eqb (media_type pair) "image" then
      [ffmpeg; "-loop"; "1"; "-framerate"; pretty output_fps;
       "-i"; media_file pair; "-t"; repr_float duration]
    else
      [ffmpeg; "-stream_loop"; "-1"; "-i"; media_file pair; "-t"; repr_float duration] in
  let cmd :=
    match filters with
    | [] => cmd
    | _ => cmd ++ ["-vf"; join "," filters]
    end in
  cmd ++ codec_params
      ++ ["-movflags"; "+faststart"; "-an"; "-y"; clip_output_path self pair clip_index].

Definition _create_video_clip (self : t) (pair : MediaPair) (duration : Q)
    (resolution : Z * Z) (channel : Channel) (clip_effects : EffectsManager.ClipEffects)
    (clip_index total_clips : Z) : M World (option string) :=
  try_except
    (ffmpeg <- get_ffmpeg_path ;;
     let input_path := media_file pair in
     let output_path := clip_output_path self pair clip_index in
     ex <- path_exists input_path ;;
     if negb ex then ret None
     else
       let cmd := clip_cmd self ffmpeg pair duration resolution channel clip_effects
                    clip_index total_clips in
       result <- subprocess_run cmd ;;
       made <- and_then (returncode result =? 0) (path_exists output_path) ;;
       if made : bool then ret (Some output_path) else ret None)
    (fun _ => ret None).

(** The lines of a concat list file: one per file that exists. *)
Fixpoint list_file_lines (paths : list string) : M World string :=
  match paths with
  | [] => ret ""
  | p :: rest =>
      ex <- path_exists p ;;
      tl <- list_file_lines rest ;;
      if ex : bool then
        let normalized_path := resolve_posix p in
        let nl := String (ascii_of_nat 10) EmptyString in
        if is_absolute p && String.eqb os_name "nt"
        then ret ("file 'file:" +:+ normalized_path +:+ "'" +:+ nl +:+ tl)
        else ret ("file '" +:+ normalized_path +:+ "'" +:+ nl +:+ tl)
      else ret tl
  end.

Definition _create_audio_list_file (self : t) (audio_files : list string)
    (output_dir : string) : M World string :=
  let list_file := path_join output_dir "audio_list.txt" in
  lines <- list_file_lines audio_files ;;
  write_file list_file lines ;;;
  ret list_file.

Definition _create_video_list_file (self : t) (video_files : list string)
    (output_dir : string) : M World string :=
  let list_file := path_join output_dir "concat_list.txt" in
  lines <- list_file_lines video_files ;;
  write_file list_file lines ;;;
  ret list_file.

Definition _merge_audio_alternative (self : t) (audio_files : list string)
    (output_dir : string) : M World (option string) :=
  match audio_files with
  | [] => ret None
  | [a] => ret (Some a)
  | _ =>
      ffmpeg <- get_ffmpeg_path ;;
      let temp_audio := path_join output_dir "combined_audio_alt.mp3" in
      try_except
        (let inputs := flat_map (fun a => ["-i"; a]) audio_files in
         let n := length audio_files in
         let filter_inputs :=
           join "" (map (fun i => "[" +:+ pretty i +:+ ":a]") (seq 0 n)) in
         let filter_complex :=
           filter_inputs +:+ "concat=n=" +:+ pretty n +:+ ":v=0:a=1[out]" in
         let cmd := [ffmpeg] ++ inputs
                    ++ ["-filter_complex"; filter_complex; "-map"; "[out]";
                        "-y"; temp_audio] in
         result <- subprocess_run cmd ;;
         made <- and_then (returncode result =? 0) (path_exists temp_audio) ;;
         if made : bool then ret (Some temp_audio) else ret None)
        (fun _ => ret None)
  end.

(** [sum(c.duration for c in clips)]. *)
Definition total_duration (clips : list VideoClip) : Q :=
  foldl (fun acc c => (acc + duration c)%Q) 0%Q clips.

Definition _apply_transitions (self : t) (video_path audio_path output_path : string)
    (clips : list VideoClip) (channel : Channel) : M World bool :=
  ffmpeg <- get_ffmpeg_path ;;
  try_except
    (let fade_duration := transition_duration (effects channel) in
     let filter_complex :=
       map (fun i =>
              let clip_end := total_duration (take (S i) clips) in
              let fade_start := (clip_end - fade_duration / 2)%Q in
              "fade=t=out:st=" +:+ repr_float fade_start +:+ ":d="
              +:+ repr_float (fade_duration / 2) +:+ ":alpha=1")
           (seq 0 (length clips - 1)) in
     let codec_params :=
       FilterGenerator.get_codec_params (filter_generator self) (export channel)
         (gpu_support self) true in
     let cmd := [ffmpeg; "-i"; video_path; "-i"; audio_path] in
     let cmd := match filter_complex with
                | [] => cmd
                | _ => cmd ++ ["-vf"; join "," filter_complex]
                end in
     let cmd := cmd ++ codec_params
                    ++ ["-movflags"; "+faststart"; "-shortest"; "-y"; output_path] in
     result <- subprocess_run cmd ;;
     ret (returncode result =? 0))
    (fun _ => ret false).

(** The invocation that composites the overlay. *)
Definition overlay_cmd (ffmpeg video_path overlay_path overlay_filter temp_output : string)
  : list string :=
  [ffmpeg; "-i"; video_path; "-i"; overlay_path;
   "-filter_complex"; "[1:v]" +:+ overlay_filter;
   "-map"; "0:a"; "-c:a"; "copy"; "-y"; temp_output].

Definition _apply_overlays (self : t) (video_path : string)
    (overlay_settings : OverlaySettings) : M World bool :=
  match files overlay_settings with
  | [] => ret true
  | first :: _ =>
      overlay_file <- (if randomize overlay_settings
                       then random_choice (files overlay_settings)
                       else ret first) ;;
      let overlay_path := path_join (folder overlay_settings) overlay_file in
      ex <- path_exists overlay_path ;;
      if negb ex then ret true
      else
        ffmpeg <- get_ffmpeg_path ;;
        let temp_output := with_suffix video_path ".overlay.mp4" in
        try_except
          (duration <- get_duration video_path ;;
           let overlay_filter :=
             FilterGenerator.generate_overlay_filter (filter_generator self)
               overlay_settings duration in
           result <- subprocess_run
                       (overlay_cmd ffmpeg video_path overlay_path overlay_filter
                          temp_output) ;;
           if returncode result =? 0 then
             unlink video_path ;;;
             rename temp_output video_path ;;;
             ret true
           else ret false)
          (fun _ => ret false)
  end.

(** The invocation that appends the black frame. *)
Definition black_frame_cmd (ffmpeg video_path temp_output : string) (resolution : Z * Z)
  : list string :=
  [ffmpeg; "-i"; video_path;
   "-f"; "lavfi"; "-i";
   "color=black:s=" +:+ pretty resolution.1 +:+ "x" +:+ pretty resolution.2 +:+ ":d=1";
   "-filter_complex"; "[0:v][1:v]concat=n=2:v=1[v]";
   "-map"; "[v]"; "-map"; "0:a";
   "-c:v"; "libx264"; "-c:a"; "copy";
   "-y"; temp_output].

Definition _add_black_frame (self : t) (video_path : string)
    (export_settings : ExportSettings) : M World unit :=
  ffmpeg <- get_ffmpeg_path ;;
  let temp_output := with_suffix video_path ".black.mp4" in
  let resolution := get_resolution export_settings in
  try_except
    (result <- subprocess_run (black_frame_cmd ffmpeg video_path temp_output resolution) ;;
     if returncode result =? 0 then
       unlink video_path ;;;
       rename temp_output video_path
     else ret tt)
    (fun _ => ret tt).

(** The two post-steps of [_combine_clips], after the assembly gave
    [success]: the black frame, then the overlays. *)
Definition finish_steps (self : t) (output_path : string) (channel : Channel)
    (success : bool) : M World bool :=
  (if success && add_black_frame (effects channel) && fade_out_to_black (effects channel)
   then _add_black_frame self output_path (export channel)
   else ret tt) ;;;
  if success && enabled (overlays channel)
     && match files (overlays channel) with [] => false | _ => true end
  then _apply_overlays self output_path (overlays channel)
  else ret success.

Definition _combine_clips (self : t) (clips : list VideoClip) (output_path : string)
    (channel : Channel) : M World bool :=
  ffmpeg <- get_ffmpeg_path ;;
  match clips with
  | [clip] =>
      let cmd := [ffmpeg; "-i"; video_path clip; "-i"; audio_path clip;
                  "-c:v"; "copy";
                  "-c:a"; audio_codec (export channel);
                  "-b:a"; pretty (audio_bitrate (export channel)) +:+ "k";
                  "-shortest"; "-y"; output_path] in
      try_except
        (result <- subprocess_run cmd ;; ret (returncode result =? 0))
        (fun _ => ret false)
  | _ =>
      try_except
        (let video_files := map video_path clips in
         let audio_files := map audio_path clips in
         concat_list <- _create_video_list_file self video_files (temp_folder self) ;;
         audio_list <- _create_audio_list_file self audio_files (temp_folder self) ;;
         ex <- path_exists concat_list ;;
         empty_v <- (if ex : bool then sz <- st_size concat_list ;; ret (sz =? 0)
                     else ret true) ;;
         if empty_v : bool then ret false
         else
           ex <- path_exists audio_list ;;
           empty_a <- (if ex : bool then sz <- st_size audio_list ;; ret (sz =? 0)
                       else ret true) ;;
           if empty_a : bool then ret false
           else
             let temp_video := path_join (temp_folder self) "combined_video.mp4" in
             result <- subprocess_run [ffmpeg; "-f"; "concat"; "-safe"; "0";
                                       "-i"; concat_list; "-c"; "copy";
                                       "-y"; temp_video] ;;
             if negb (returncode result =? 0) then ret false
             else
               let temp_audio := path_join (temp_folder self) "combined_audio.mp3" in
               result <- subprocess_run [ffmpeg; "-f"; "concat"; "-safe"; "0";
                                         "-i"; audio_list; "-c"; "copy";
                                         "-y"; temp_audio] ;;
               merged <- (if negb (returncode result =? 0)
                          then _merge_audio_alternative self audio_files (temp_folder self)
                          else ret (Some temp_audio)) ;;
               match merged with
               | None => ret false
               | Some temp_audio =>
                   success <-
                     (if match transitions (effects channel) with
                         | [] => false | _ => true end
                         && negb (Qle_bool (transition_duration (effects channel)) 0)
                      then _apply_transitions self temp_video temp_audio output_path
                             clips channel
                      else
                        let codec_params :=
                          FilterGenerator.get_codec_params (filter_generator self)
                            (export channel) (gpu_support self) true in
                        let cmd_final :=
                          [ffmpeg; "-i"; temp_video; "-i"; temp_audio] ++ codec_params
                          ++ ["-movflags"; "+faststart"; "-shortest"; "-y"; output_path] in
                        result <- subprocess_run cmd_final ;;
                        ret (returncode result =? 0)) ;;
                   finish_steps self output_path channel success
               end)
        (fun _ => ret false)
  end.

Definition _cleanup_temp_files (self : t) (clips : list VideoClip) : M World unit :=
  for_each clips
    (fun _ clip => try_except (unlink_missing_ok (video_path clip)) (fun _ => ret tt))
    tt.

(** The body of the per-clip loop of [generate_channel_montage]: the clip
    list and the effects manager before and after one pair.  (The audio file
    is a path, which is always true, so the loop never skips a pair for it;
    the duration the loop stores in the pair is not read again.) *)
Definition render_pair (self : t) (channel : Channel) (resolution : Z * Z)
    (total_clips : Z) (st : list VideoClip * EffectsManager.t) (ip : Z * MediaPair)
  : M World (list VideoClip * EffectsManager.t) :=
  let '(video_clips, effects_manager) := st in
  let i := ip.1 in
  let pair := ip.2 in
  audio_file <- _get_audio_variant self pair (effects channel) ;;
  audio_duration <- get_duration audio_file ;;
  r <- EffectsManager.get_effects_for_clip effects_manager i total_clips ;;
  let '(clip_effects, effects_manager) := r in
  video_clip_path <- _create_video_clip self pair audio_duration resolution channel
                       clip_effects i total_clips ;;
  match chosen video_clip_path with
  | Some p =>
      ex <- path_exists p ;;
      if ex : bool then
        ret (video_clips ++ [{| video_path := p;
                                audio_path := audio_file;
                                duration := audio_duration;
                                is_first := (i =? 0);
                                is_last := (i =? total_clips - 1);
                                effects_applied := clip_effects |}],
             effects_manager)
      else ret (video_clips, effects_manager)
  | None => ret (video_clips, effects_manager)
  end.

(** The per-clip loop over [pairs_to_use]. *)
Definition render_clips (self : t) (channel : Channel) (pairs_to_use : list MediaPair)
  : M World (list VideoClip * EffectsManager.t) :=
  for_each (enumerate pairs_to_use)
    (render_pair self channel (get_resolution (export channel))
       (Z.of_nat (length pairs_to_use)))
    ([], EffectsManager.init (effects channel)).

(** Where the montage of [channel] is written. *)
Definition montage_path (self : t) (channel : Channel) (timestamp : Z) : string :=
  path_join (renders_folder self)
            (safe_filename (name channel) +:+ "_" +:+ pretty timestamp +:+ "."
             +:+ container (export channel)).

Definition generate_channel_montage (self : t) (channel : Channel) (test_mode : bool)
  : M World (option string) :=
  let channel := validate_channel channel in
  let pairs_to_use := if test_mode then take 1 (media_pairs self) else media_pairs self in
  match pairs_to_use with
  | [] => ret None
  | _ =>
      st <- render_clips self channel pairs_to_use ;;
      match st.1 with
      | [] => ret None
      | video_clips =>
          timestamp <- gets time_time ;;
          let output_path := montage_path self channel timestamp in
          success <- _combine_clips self video_clips output_path channel ;;
          _cleanup_temp_files self video_clips ;;;
          if success : bool then ret (Some output_path) else ret None
      end
  end.

End MontageEngine.
End MontageEngine.

(* ===================================================================== *)
(** * Part II: the properties                                             *)
(* ===================================================================== *)

(** A platform on which every process fails to start and the random source
    is the stream [rnd]; used to run the selector on concrete inputs. *)
Definition quiet_platform (rnd : nat -> nat) : Platform :=
  {| process := fun _ _ => None;
     entropy := rnd;
     time_time := fun _ => 0;
     which := fun _ => false;
     os_name := "posix";
     module_dir := "/app";
     tempdir := "/tmp";
     resolve_posix := fun p => p;
     is_absolute := fun _ => true;
     repr_float := fun _ => "0.0";
     repr_pow2_12 := fun _ => "1.0";
     float_of_string := fun _ => None;
     json_loads := fun _ => None;
     safe_filename := fun s => s |}.

Definition empty_world : World := mkWorld ∅ [] 0.

(** Settings that differ from the defaults in the selection fields only. *)
Definition selection_settings (kb : list string) (randomize : bool)
    (fx motion : list string) (frequency : string) (every : Z) (timing : string)
  : EffectSettings :=
  {| ken_burns := kb; ken_burns_intensity := 30; rotation_angle := 5;
     kb_randomize := randomize; kb_smooth_factor := 7 # 10;
     transitions := ["fade"]; transition_duration := 1; trans_overlap := 1 # 2;
     fade_in_from_black := false; fade_in_duration := 1;
     fade_out_to_black := false; fade_out_duration := 1;
     add_black_frame := true;
     color_correction := false; color_filter := "none";
     vignette := false; vignette_intensity := 40;
     grain := false; grain_intensity := 20;
     blur_edges := false; blur_intensity := 30;
     audio_pitch := "0"; audio_effect := "none";
     audio_stereo_enhance := false; audio_normalize := true;
     audio_compressor := false; audio_limiter := false;
     easing_type := "ease"; motion_blur := false; motion_blur_amount := 20;
     capcut_effects := fx; scale_amplitude := 15;
     zoom_burst_start := 150; zoom_burst_decay := 80;
     motion_effects := motion; motion_intensity := 30;
     effect_frequency := frequency; effect_percent := 50; effect_every := every;
     capcut_timing := timing |}.

(** ** The monad: how runs decompose *)

Section Monad_facts.
Context {S : Type}.

Lemma bind_return {A B} (m : M S A) (k : A -> M S B) s a s' :
  m s = (Return a, s') -> bind m k s = k a s'.
Proof. intros E. unfold bind. rewrite E. reflexivity. Qed.

Lemma bind_raise {A B} (m : M S A) (k : A -> M S B) s e s' :
  m s = (Raise e, s') -> bind m k s = (Raise e, s').
Proof. intros E. unfold bind. rewrite E. reflexivity. Qed.

(** A run of [bind] that returns went through a returning run of its
    first part. *)
Lemma bind_returns {A B} (m : M S A) (k : A -> M S B) s b s2 :
  bind m k s = (Return b, s2) ->
  exists a s1, m s = (Return a, s1) /\ k a s1 = (Return b, s2).
Proof.
  unfold bind. destruct (m s) as [[a|e] s1]; intros E.
  - exists a, s1. split; [reflexivity | exact E].
  - discriminate E.
Qed.

End Monad_facts.

(** ** EffectSelector *)

Module Selector.
Import EffectsManager.
Section Selector.
Context `{Platform}.

(** The world after one draw. *)
Definition after_draw (w : World) : World :=
  mkWorld (disk w) (spawned w) (Datatypes.S (drawn w)).

Lemma random_choice_member {A} (l : list A) (w : World) :
  l <> [] ->
  exists x, random_choice l w = (Return x, after_draw w) /\ x ∈ l.
Proof.
  intros Hne. destruct l as [|a l]; [congruence|].
  unfold random_choice, bind, draw.
  set (r := (entropy (drawn w) mod length (a :: l))%nat).
  assert (Hlt : (r < length (a :: l))%nat).
  { apply Nat.mod_upper_bound. simpl. lia. }
  destruct (lookup_lt_is_Some_2 (a :: l) r Hlt) as [x Hx].
  exists x. rewrite Hx. split; [reflexivity|].
  eapply list_elem_of_lookup_2; eassumption.
Qed.



(** Exactly one of the two slots is filled. *)
Definition exactly_one_slot (e : ClipEffects) : Prop :=
  (is_Some (capcut_start e) /\ capcut_end e = None)
  \/ (capcut_start e = None /\ is_Some (capcut_end e)).

Lemma pick_capcut_random (self : t) (i : Z) (w w1 : World) :
  capcut_timing (settings self) = "random" ->
  capcut_effects (settings self) <> [] ->
  _should_apply_capcut self i w = (Return true, w1) ->
  exists a b,
    pick_capcut self i w = (Return (Some a, Some b), after_draw (after_draw w1))
    /\ a ∈ capcut_effects (settings self) ++ motion_effects (settings self)
    /\ b ∈ capcut_effects (settings self) ++ motion_effects (settings self).
Proof.
  intros Ht Hne Happ. unfold pick_capcut.
  destruct (capcut_effects (settings self)) as [|c cs] eqn:Hc; [congruence|].
  rewrite <- Hc. rewrite (bind_return _ _ _ _ _ Happ). rewrite Ht. simpl.
  set (all := capcut_effects (settings self) ++ motion_effects (settings self)).
  assert (Hall : all <> []).
  { unfold all. rewrite Hc. discriminate. }
  destruct (random_choice_member all w1 Hall) as [a [Ea Ha]].
  destruct (random_choice_member all (after_draw w1) Hall) as [b [Eb Hb]].
  exists a, b. split; [| split; assumption].
  unfold bind at 1. unfold bind at 1. rewrite Ea. simpl.
  unfold bind at 1. unfold bind at 1. rewrite Eb. reflexivity.
Qed.


Lemma pick_ken_burns_settings (self : t) (i : Z) (w w' : World) kb :
  pick_ken_burns self i w = (Return kb, w') -> settings kb.2 = settings self.
Proof.
  unfold pick_ken_burns.
  destruct (ken_burns (settings self)) as [|k ks] eqn:Hkb.
  - intros [= <- _]. reflexivity.
  - destruct (kb_randomize (settings self)).
    + intros E. apply bind_returns in E as (e & s1 & _ & E).
      injection E as <- _. reflexivity.
    + destruct (_ !! _); intros E; [| discriminate E].
      injection E as <- _. reflexivity.
Qed.

(** C5, as the code has it. Under the timing policy 'random', a clip to
    which a transient effect is applied (the effect lists are not empty and
    the frequency predicate holds) gets BOTH slots filled, each with an
    effect drawn on its own from the configured scale and motion lists. *)
Theorem random_timing_fills_both_slots
    (self : t) (i n : Z) (w w0 w1 : World) (kb : option string * t) :
  capcut_timing (settings self) = "random" ->
  capcut_effects (settings self) <> [] ->
  pick_ken_burns self i w = (Return kb, w0) ->
  _should_apply_capcut kb.2 i w0 = (Return true, w1) ->
  exists a b,
    get_effects_for_clip self i n w
    = (Return ({| ce_ken_burns := kb.1;
                  capcut_start := Some a; capcut_end := Some b |}, kb.2),
       after_draw (after_draw w1))
    /\ a ∈ capcut_effects (settings self) ++ motion_effects (settings self)
    /\ b ∈ capcut_effects (settings self) ++ motion_effects (settings self).
Proof.
  intros Ht Hne Hkb Happ.
  pose proof (pick_ken_burns_settings _ _ _ _ _ Hkb) as Hs.
  destruct (pick_capcut_random kb.2 i w0 w1) as (a & b & E & Ha & Hb);
    rewrite ?Hs; try assumption.
  exists a, b. rewrite <- Hs. split; [| split; assumption].
  unfold get_effects_for_clip.
  rewrite (bind_return _ _ _ _ _ Hkb), (bind_return _ _ _ _ _ E).
  reflexivity.
Qed.

(** *** Randomized Ken Burns selection *)

(** Every entry differs from the two entries before it. *)
Definition no_recent_repeat (l : list string) : Prop :=
  forall (i j : nat) (a b : string),
    l !! i = Some a -> l !! j = Some b -> (i < j <= i + 2)%nat -> a <> b.

(** The candidates of one randomized pick. *)
Definition candidates (self : t) : list string :=
  List.filter (fun e => negb (str_in e (last_n 2 (used_effects self))))
              (ken_burns (settings self)).

Lemma candidates_spec (self : t) (e : string) :
  e ∈ candidates self <->
  e ∈ ken_burns (settings self) /\ e ∉ last_n 2 (used_effects self).
Proof.
  unfold candidates. rewrite !list_elem_of_In, filter_In.
  unfold str_in. rewrite negb_true_iff, bool_decide_eq_false, list_elem_of_In.
  reflexivity.
Qed.

Lemma last_n_length {A} (n : nat) (l : list A) : (length (last_n n l) <= n)%nat.
Proof. unfold last_n. rewrite length_drop. lia. Qed.

Lemma last_n_lookup {A} (n i : nat) (l : list A) (a : A) :
  l !! i = Some a -> (length l <= i + n)%nat -> a ∈ last_n n l.
Proof.
  intros Hi Hn. pose proof (lookup_lt_Some _ _ _ Hi) as Hlt.
  unfold last_n. apply list_elem_of_lookup. exists (i - (length l - n))%nat.
  rewrite lookup_drop. rewrite <- Hi. f_equal. lia.
Qed.

(** Of three distinct strings, one is outside any list of at most two. *)
Lemma one_of_three_outside (a b c : string) (l : list string) :
  a <> b -> a <> c -> b <> c -> (length l <= 2)%nat ->
  a ∉ l \/ b ∉ l \/ c ∉ l.
Proof.
  intros Hab Hac Hbc Hlen.
  destruct l as [|x [|y [|z l]]]; simpl in Hlen; try lia.
  - left. apply not_elem_of_nil.
  - destruct (decide (a = x)) as [->|Hax].
    + right. left. rewrite list_elem_of_singleton. congruence.
    + left. rewrite list_elem_of_singleton. congruence.
  - destruct (decide (a ∈ [x; y])) as [Ha|Ha]; [| left; exact Ha].
    destruct (decide (b ∈ [x; y])) as [Hb|Hb]; [| right; left; exact Hb].
    right. right. intros Hc.
    rewrite !elem_of_cons, elem_of_nil in Ha, Hb, Hc.
    destruct Ha as [->|[->|[]]], Hb as [->|[->|[]]], Hc as [->|[->|[]]]; congruence.
Qed.

(** The list has at least three distinct members. *)
Definition three_distinct (l : list string) : Prop :=
  exists a b c, a ∈ l /\ b ∈ l /\ c ∈ l /\ a <> b /\ a <> c /\ b <> c.

Lemma candidates_nonempty (self : t) :
  three_distinct (ken_burns (settings self)) -> candidates self <> [].
Proof.
  intros (a & b & c & Ha & Hb & Hc & Hab & Hac & Hbc).
  destruct (one_of_three_outside a b c (last_n 2 (used_effects self))
              Hab Hac Hbc (last_n_length 2 _)) as [Hx|[Hx|Hx]];
    intros Hnil;
    [ assert (Hin : a ∈ candidates self) by (apply candidates_spec; auto)
    | assert (Hin : b ∈ candidates self) by (apply candidates_spec; auto)
    | assert (Hin : c ∈ candidates self) by (apply candidates_spec; auto) ];
    rewrite Hnil in Hin; exact (not_elem_of_nil _ Hin).
Qed.

(** One randomized pick: what is chosen and what the manager remembers. *)
Lemma pick_ken_burns_randomized (self : t) (i : Z) (w : World) :
  kb_randomize (settings self) = true ->
  ken_burns (settings self) <> [] ->
  exists e,
    pick_ken_burns self i w
    = (Return (Some e, {| settings := settings self;
                          used_effects := used_effects self ++ [e] |}),
       after_draw w)
    /\ e ∈ (match candidates self with
            | [] => ken_burns (settings self)
            | _ => candidates self
            end).
Proof.
  intros Hr Hne. unfold pick_ken_burns. fold (candidates self).
  destruct (ken_burns (settings self)) as [|k ks] eqn:Hkb; [congruence|].
  rewrite Hr. rewrite <- Hkb.
  set (avail := match candidates self with
                | [] => ken_burns (settings self) | _ => candidates self end).
  assert (Hav : avail <> []).
  { unfold avail. destruct (candidates self); [rewrite Hkb|]; discriminate. }
  destruct (random_choice_member avail w Hav) as [e [Ee He]].
  exists e. split; [| exact He].
  rewrite (bind_return _ _ _ _ _ Ee). reflexivity.
Qed.

Lemma no_recent_repeat_snoc (l : list string) (e : string) :
  no_recent_repeat l -> e ∉ last_n 2 l -> no_recent_repeat (l ++ [e]).
Proof.
  intros Hl He i j a b Hi Hj Hij.
  pose proof (lookup_lt_Some _ _ _ Hj) as Hjlt. rewrite length_app in Hjlt.
  simpl in Hjlt.
  destruct (decide (j < length l)%nat) as [Hjl|Hjl].
  - rewrite lookup_app_l in Hi, Hj by lia. eapply Hl; eassumption.
  - assert (j = length l) as -> by lia.
    rewrite lookup_app_l in Hi by lia.
    rewrite list_lookup_middle in Hj by reflexivity. injection Hj as <-.
    intros ->. apply He. eapply last_n_lookup; [eassumption | lia].
Qed.

Lemma should_apply_total (self : t) (i : Z) (w : World) :
  effect_every (settings self) <> 0 ->
  exists b w', _should_apply_capcut self i w = (Return b, w').
Proof.
  intros Hk. unfold _should_apply_capcut.
  destruct (String.eqb _ "all"); [eexists _, _; reflexivity|].
  destruct (String.eqb _ "percent"); [eexists _, _; reflexivity|].
  destruct (String.eqb _ "every").
  { destruct (Z.eqb_spec (effect_every (settings self)) 0); [contradiction|].
    eexists _, _; reflexivity. }
  destruct (String.eqb _ "random"); [| eexists _, _; reflexivity].
  destruct (random_choice_member [true; false] w) as [b [E _]]; [discriminate|].
  exists b, (after_draw w). exact E.
Qed.

Lemma pick_capcut_total (self : t) (i : Z) (w : World) :
  effect_every (settings self) <> 0 ->
  exists r w', pick_capcut self i w = (Return r, w').
Proof.
  intros Hk. unfold pick_capcut.
  destruct (capcut_effects (settings self)) as [|c cs] eqn:Hc;
    [eexists _, _; reflexivity|].
  destruct (should_apply_total self i w Hk) as (b & w1 & Eb).
  rewrite (bind_return _ _ _ _ _ Eb).
  destruct b; [| eexists _, _; reflexivity].
  set (all := (c :: cs) ++ motion_effects (settings self)).
  assert (Hall : all <> []) by discriminate.
  assert (Hopt : forall (g : bool) v,
    exists r v', (if g then e <- random_choice all ;; ret (Some e)
                  else ret (None : option string)) v = (Return r, v')).
  { intros [] v; [| eexists _, _; reflexivity].
    destruct (random_choice_member all v Hall) as [x [E _]].
    rewrite (bind_return _ _ _ _ _ E). eexists _, _; reflexivity. }
  destruct (Hopt (str_in (capcut_timing (settings self)) ["start"; "random"]) w1)
    as (r1 & w2 & E1).
  rewrite (bind_return _ _ _ _ _ E1).
  destruct (Hopt (str_in (capcut_timing (settings self)) ["end"; "random"]) w2)
    as (r2 & w3 & E2).
  rewrite (bind_return _ _ _ _ _ E2).
  destruct (String.eqb (capcut_timing (settings self)) "middle").
  - destruct (random_choice_member all w3 Hall) as [x [E _]].
    unfold bind at 1. rewrite (bind_return _ _ _ _ _ E). eexists _, _; reflexivity.
  - eexists _, _; reflexivity.
Qed.

Lemma get_effects_for_clip_run (self : t) (i n : Z) (w w0 w1 : World)
    (kb : option string * t) (cc : option string * option string) :
  pick_ken_burns self i w = (Return kb, w0) ->
  pick_capcut kb.2 i w0 = (Return cc, w1) ->
  get_effects_for_clip self i n w
  = (Return ({| ce_ken_burns := kb.1; capcut_start := cc.1; capcut_end := cc.2 |},
             kb.2), w1).
Proof.
  intros Ek Ec. unfold get_effects_for_clip.
  rewrite (bind_return _ _ _ _ _ Ek), (bind_return _ _ _ _ _ Ec). reflexivity.
Qed.

(** The Ken Burns picks of a list of selections. *)
Definition picks (es : list ClipEffects) : list string := omap ce_ken_burns es.

Lemma select_from_randomized (s : EffectSettings) (n : Z) :
  kb_randomize s = true ->
  three_distinct (ken_burns s) ->
  effect_every s <> 0 ->
  forall (todo : nat) (self : t) (i : Z) (w : World),
    settings self = s ->
    exists es self' w',
      select_from self i todo n w = (Return (es, self'), w')
      /\ length es = todo
      /\ settings self' = s
      /\ used_effects self' = used_effects self ++ picks es
      /\ length (picks es) = todo
      /\ (no_recent_repeat (used_effects self) -> no_recent_repeat (used_effects self')).
Proof.
  intros Hr H3 Hk. induction todo as [|todo IH]; intros self i w Hs.
  - exists [], self, w. cbn. rewrite app_nil_r. repeat split; auto.
  - assert (Hne : ken_burns (settings self) <> []).
    { rewrite Hs. destruct H3 as (a & _ & _ & Ha & _).
      intros E. rewrite E in Ha. exact (not_elem_of_nil _ Ha). }
    destruct (pick_ken_burns_randomized self i w) as (e & Ee & He);
      [rewrite Hs; assumption | assumption |].
    assert (Hc : candidates self <> []) by (apply candidates_nonempty; rewrite Hs; exact H3).
    destruct (candidates self) as [|c0 cs0] eqn:Hcand; [congruence|].
    rewrite <- Hcand in He. apply candidates_spec in He as [_ Hfresh].
    set (self1 := {| settings := settings self;
                     used_effects := used_effects self ++ [e] |}) in *.
    destruct (pick_capcut_total self1 i (after_draw w)) as (cc & w1 & Ec);
      [simpl; rewrite Hs; assumption|].
    destruct (IH self1 (i + 1) w1 Hs) as (es & self' & w' & Erest & Hlen & Hs' & Hused & Hpl & Hinv).
    exists ({| ce_ken_burns := Some e; capcut_start := cc.1; capcut_end := cc.2 |} :: es),
      self', w'.
    split.
    { cbn [select_from].
      rewrite (bind_return _ _ _ _ _
                 (get_effects_for_clip_run self i n w _ w1 (Some e, self1) cc Ee Ec)).
      rewrite (bind_return _ _ _ _ _ Erest). reflexivity. }
    split; [simpl; lia|]. split; [exact Hs'|].
    split; [rewrite Hused; simpl; rewrite <- app_assoc; reflexivity|].
    split; [unfold picks in *; simpl; f_equal; exact Hpl|].
    intros Hold. apply Hinv. simpl. apply no_recent_repeat_snoc; assumption.
Qed.

Lemma pick_ken_burns_total (self : t) (i : Z) (w : World) :
  exists kb w', pick_ken_burns self i w = (Return kb, w').
Proof.
  destruct (ken_burns (settings self)) as [|k ks] eqn:Hkb.
  - unfold pick_ken_burns. rewrite Hkb. eexists _, _; reflexivity.
  - destruct (kb_randomize (settings self)) eqn:Hr.
    + destruct (pick_ken_burns_randomized self i w Hr) as (e & E & _);
        [rewrite Hkb; discriminate|].
      eexists _, _; exact E.
    + unfold pick_ken_burns. rewrite Hkb, Hr. rewrite <- Hkb.
      set (len := Z.of_nat (length (ken_burns (settings self)))).
      assert (Hlen : 0 < len) by (unfold len; rewrite Hkb; simpl; lia).
      pose proof (Z.mod_pos_bound i len Hlen) as Hb.
      destruct (lookup_lt_is_Some_2 (ken_burns (settings self)) (Z.to_nat (i mod len)))
        as [e He]; [unfold len in *; lia|].
      rewrite He. eexists _, _; reflexivity.
Qed.

(** With a non-zero [effect_every], choosing the effects of a clip never
    raises, and the manager keeps its settings. *)
Lemma get_effects_for_clip_total (self : t) (i n : Z) (w : World) :
  effect_every (settings self) <> 0 ->
  exists ce self' w',
    get_effects_for_clip self i n w = (Return (ce, self'), w')
    /\ settings self' = settings self.
Proof.
  intros Hk.
  destruct (pick_ken_burns_total self i w) as (kb & w0 & Ek).
  pose proof (pick_ken_burns_settings _ _ _ _ _ Ek) as Hs.
  destruct (pick_capcut_total kb.2 i w0) as (cc & w1 & Ec); [rewrite Hs; exact Hk|].
  eexists _, _, _. split; [exact (get_effects_for_clip_run _ _ n _ _ _ _ _ Ek Ec)|].
  exact Hs.
Qed.

Lemma validated_every_nonzero (s0 : EffectSettings) :
  effect_every (validate_effects s0) <> 0.
Proof. simpl. unfold clampZ. lia. Qed.

(** C8, as the code has it. For every clip sequence rendered with validated
    settings, randomized Ken Burns selection returns one effect per clip
    and never one equal to either of the previous two picks when the
    configured list has at least three DISTINCT members; and whenever
    excluding the last two picks leaves no candidate, the pick is drawn
    from the full configured list. *)
Theorem ken_burns_avoids_last_two (s0 : EffectSettings) :
  kb_randomize s0 = true ->
  (three_distinct (ken_burns (validate_effects s0)) ->
   forall (n : nat) (w : World),
   exists es self' w',
     select_all (init (validate_effects s0)) n w = (Return (es, self'), w')
     /\ length (picks es) = n
     /\ no_recent_repeat (picks es))
  /\ (forall (self : t) (i : Z) (w : World),
        settings self = validate_effects s0 ->
        ken_burns (settings self) <> [] ->
        candidates self = [] ->
        pick_ken_burns self i w
        = (e <- random_choice (ken_burns (settings self)) ;;
           ret (Some e, {| settings := settings self;
                           used_effects := used_effects self ++ [e] |})) w).
Proof.
  intros Hr. split.
  - intros H3 n w.
    destruct (select_from_randomized (validate_effects s0) (Z.of_nat n)
                Hr H3 (validated_every_nonzero s0) n
                (init (validate_effects s0)) 0 w eq_refl)
      as (es & self' & w' & E & _ & _ & Hused & Hpl & Hinv).
    exists es, self', w'. split; [exact E|]. split; [exact Hpl|].
    simpl in Hused. rewrite <- Hused. apply Hinv.
    intros i j a b Hi. unfold init in Hi. cbn [used_effects] in Hi.
    rewrite lookup_nil in Hi. discriminate.
  - intros self i w Hs Hne Hc. unfold pick_ken_burns. fold (candidates self).
    destruct (ken_burns (settings self)) as [|k ks] eqn:Hkb; [congruence|].
    rewrite Hs. cbn [validate_effects kb_randomize]. rewrite Hr, Hc. reflexivity.
Qed.

End Selector.

(** **** Concrete runs *)

(** Random stream that always answers 0. *)
Definition zeros : nat -> nat := fun _ => 0%nat.



Definition random_timing : t :=
  init (selection_settings [] false ["pulse"] ["shake"] "all" 3 "random").

(** C5 fails on the code: with the timing policy 'random' and the effect
    applied, both slots are filled, not exactly one. *)
Lemma random_timing_one_slot_counterexample :
  capcut_timing (settings random_timing) = "random"
  /\ @get_effects_for_clip (quiet_platform zeros) random_timing 0 1 empty_world
     = (Return ({| ce_ken_burns := None;
                   capcut_start := Some "pulse"; capcut_end := Some "pulse" |},
                random_timing),
        mkWorld ∅ [] 2)
  /\ ~ exactly_one_slot {| ce_ken_burns := None;
                           capcut_start := Some "pulse"; capcut_end := Some "pulse" |}.
Proof.
  split; [reflexivity|]. split; [vm_compute; reflexivity|].
  intros [[_ E]|[E _]]; discriminate E.
Qed.

Lemma random_timing_fills_both_slots_witness :
  exists a b,
    @get_effects_for_clip (quiet_platform zeros) random_timing 0 1 empty_world
    = (Return ({| ce_ken_burns := None;
                  capcut_start := Some a; capcut_end := Some b |}, random_timing),
       after_draw (after_draw empty_world))
    /\ a ∈ ["pulse"] ++ ["shake"] /\ b ∈ ["pulse"] ++ ["shake"].
Proof.
  apply (@random_timing_fills_both_slots (quiet_platform zeros)
           random_timing 0 1 empty_world empty_world empty_world (None, random_timing));
    [reflexivity | discriminate | reflexivity | reflexivity].
Defined.

(** A configured list with three members, two of them equal. *)
Definition duplicated_list : EffectSettings :=
  selection_settings ["zoomIn"; "zoomIn"; "zoomOut"] true [] [] "all" 3 "start".

(** The Ken Burns picks of the first [n] clips, on the random stream
    [zeros], from a fresh manager. *)
Definition picks_of (s : EffectSettings) (n : nat) : list string :=
  match (@select_all (quiet_platform zeros) (init (validate_effects s)) n empty_world).1 with
  | Return (es, _) => picks es
  | Raise _ => []
  end.

(** C8 fails on the code as stated: the list has three members, and the
    third pick repeats the first. *)
Lemma three_members_counterexample :
  length (ken_burns (validate_effects duplicated_list)) = 3%nat
  /\ kb_randomize (validate_effects duplicated_list) = true
  /\ picks_of duplicated_list 3 = ["zoomIn"; "zoomOut"; "zoomIn"]
  /\ ~ no_recent_repeat (picks_of duplicated_list 3).
Proof.
  split; [reflexivity|]. split; [reflexivity|].
  assert (E : picks_of duplicated_list 3 = ["zoomIn"; "zoomOut"; "zoomIn"])
    by (vm_compute; reflexivity).
  split; [exact E|]. rewrite E. intros Hno.
  exact (Hno 0%nat 2%nat "zoomIn" "zoomIn" eq_refl eq_refl ltac:(lia) eq_refl).
Qed.

Definition three_effects : EffectSettings :=
  selection_settings ["zoomIn"; "zoomOut"; "panLeft"] true [] [] "all" 3 "start".

Definition two_effects : EffectSettings :=
  selection_settings ["zoomIn"; "zoomOut"] true [] [] "all" 3 "start".

Lemma ken_burns_avoids_last_two_witness :
  (exists es self' w',
      @select_all (quiet_platform zeros) (init (validate_effects three_effects)) 4 empty_world
      = (Return (es, self'), w')
      /\ length (picks es) = 4%nat
      /\ no_recent_repeat (picks es))
  /\ @pick_ken_burns (quiet_platform zeros)
       {| settings := validate_effects two_effects;
          used_effects := ["zoomIn"; "zoomOut"] |} 2 empty_world
     = (e <- @random_choice (quiet_platform zeros) _ ["zoomIn"; "zoomOut"] ;;
        ret (Some e, {| settings := validate_effects two_effects;
                        used_effects := ["zoomIn"; "zoomOut"] ++ [e] |})) empty_world.
Proof.
  split.
  - apply (proj1 (@ken_burns_avoids_last_two (quiet_platform zeros) three_effects eq_refl)).
    exists "zoomIn", "zoomOut", "panLeft".
    change (ken_burns (validate_effects three_effects))
      with ["zoomIn"; "zoomOut"; "panLeft"].
    rewrite !elem_of_cons.
    repeat split; auto; discriminate.
  - apply (proj2 (@ken_burns_avoids_last_two (quiet_platform zeros) two_effects eq_refl)
             {| settings := validate_effects two_effects;
                used_effects := ["zoomIn"; "zoomOut"] |} 2 empty_world);
      [reflexivity | discriminate | reflexivity].
Defined.

End Selector.

(** ** Duration probing *)

Module Duration.
Import FFmpegUtils.
Section Duration.
Context `{Platform}.

(** *** What the probe's answer says, in the words of the specification *)

(** The duration a JSON value denotes, when [float] accepts it. *)
Definition parsed (v : json) : option Q :=
  match v with
  | JNum q => Some q
  | JBool b => Some (if b then 1 else 0)%Q
  | JStr s => float_of_string s
  | _ => None
  end.

(** The parsable ['duration'] entry of a JSON object. *)
Definition entry_duration (d : list (string * json)) : option Q :=
  match assoc "duration" d with
  | Some v => parsed v
  | None => None
  end.

(** The first parsable duration among the streams. *)
Fixpoint first_stream_duration (l : list json) : option Q :=
  match l with
  | [] => None
  | JDict d :: rest =>
      match entry_duration d with
      | Some q => Some q
      | None => first_stream_duration rest
      end
  | _ :: rest => first_stream_duration rest
  end.

(** The duration in the media-info metadata: the format's, else the first
    stream's. *)
Definition metadata_duration (info : json) : option Q :=
  match info with
  | JDict d =>
      match match assoc "format" d with
            | Some (JDict f) => entry_duration f
            | _ => None
            end with
      | Some q => Some q
      | None => match assoc "streams" d with
                | Some (JList l) => first_stream_duration l
                | _ => None
                end
      end
  | _ => None
  end.

(** The groups of the 'Duration:' pattern on the diagnostic output of the
    transcoder run on [file_path] in world [w]; [None] when the run cannot
    be started or prints no match. *)
Definition diagnostic_duration (file_path : string) (w : World) : option (Z * Z * Z * Z) :=
  match get_ffmpeg_path w with
  | (Return ffmpeg, _) =>
      match process w [ffmpeg; "-i"; file_path; "-f"; "null"; "-"] with
      | Some (c, _) => search_duration (stderr c)
      | None => None
      end
  | _ => None
  end.

(** The shape of the media-info document: an object whose ['format'] is an
    object and whose ['streams'] is a list of objects. *)
Definition is_dict (v : json) : Prop := exists d, v = JDict d.

Definition probe_shaped (info : json) : Prop :=
  exists d, info = JDict d
    /\ (forall v, assoc "format" d = Some v -> is_dict v)
    /\ (forall v, assoc "streams" d = Some v -> exists l, v = JList l /\ Forall is_dict l).

(** The media-info document of every probe that completes has that
    shape. *)
Definition probe_answers_shaped : Prop :=
  forall w argv c written j,
    process w argv = Some (c, written) ->
    json_loads (stdout c) = Some j ->
    probe_shaped j.

(** *** The code against it *)

Lemma get_ffmpeg_path_pure (w : World) :
  exists p, get_ffmpeg_path w = (Return p, w).
Proof.
  unfold get_ffmpeg_path.
  destruct (which "ffmpeg"); [eexists; reflexivity|].
  destruct (which "ffmpeg.exe"); [eexists; reflexivity|].
  unfold bind, path_exists, gets.
  destruct (bool_decide _); eexists; reflexivity.
Qed.

Lemma get_ffprobe_path_pure (w : World) :
  exists p, get_ffprobe_path w = (Return p, w).
Proof.
  unfold get_ffprobe_path.
  destruct (which "ffprobe"); [eexists; reflexivity|].
  destruct (which "ffprobe.exe"); [eexists; reflexivity|].
  unfold bind, path_exists, gets.
  destruct (bool_decide _); eexists; reflexivity.
Qed.

(** [get_media_info] never raises. *)
Lemma get_media_info_total (file_path : string) (w : World) :
  exists info w', get_media_info file_path w = (Return info, w').
Proof.
  unfold get_media_info.
  destruct (get_ffprobe_path_pure w) as [p Ep].
  rewrite (bind_return _ _ _ _ _ Ep).
  unfold bind, try_except, subprocess_run.
  destruct (process w _) as [[c written]|].
  - destruct (returncode c =? 0).
    + destruct (json_loads (stdout c)); eexists _, _; reflexivity.
    + eexists _, _; reflexivity.
  - eexists _, _; reflexivity.
Qed.

Lemma try_float_duration_dict (f : list (string * json)) (w : World) :
  try_float_duration (JDict f) w = (Return (entry_duration f), w).
Proof.
  unfold try_float_duration, try_except, bind, py_getitem, entry_duration.
  destruct (assoc "duration" f) as [v|]; [| reflexivity].
  destruct v as [| b | q | s | l | d]; simpl; try reflexivity.
  destruct (float_of_string s); reflexivity.
Qed.

Lemma scan_streams_dicts (l : list json) (w : World) :
  Forall is_dict l ->
  scan_streams l w = (Return (first_stream_duration l), w).
Proof.
  induction 1 as [| v l [d ->] _ IH]; [reflexivity|].
  cbn [scan_streams first_stream_duration].
  unfold bind at 1. cbn [py_in ret].
  unfold entry_duration at 1.
  destruct (assoc "duration" d) as [x|] eqn:Ex.
  - rewrite bool_decide_eq_true_2 by eauto.
    unfold bind. rewrite try_float_duration_dict.
    unfold entry_duration. rewrite Ex.
    destruct (parsed x); [reflexivity | exact IH].
  - rewrite bool_decide_eq_false_2 by (intros [? ?]; discriminate).
    exact IH.
Qed.

(** The value the specification expects from [get_duration]. *)
Definition expected_duration (info : json) (file_path : string) (w : World) : Q :=
  match metadata_duration info with
  | Some q => q
  | None =>
      match diagnostic_duration file_path w with
      | Some (hours, minutes, seconds, centiseconds) =>
          (inject_Z (hours * 3600 + minutes * 60 + seconds)
           + inject_Z centiseconds / 100)%Q
      | None => 10%Q
      end
  end.

(** The first two stages on a well-shaped document: no exception, no
    effect, and the metadata duration as the outcome. *)
Lemma format_stage (d : list (string * json)) (w : World) :
  (forall v, assoc "format" d = Some v -> is_dict v) ->
  exists c1 : bool,
    and_then (truthy (JDict d))
      (has <- py_in "format" (JDict d) ;;
       and_then has (fmt <- py_getitem (JDict d) "format" ;; py_in "duration" fmt)) w
    = (Return c1, w)
    /\ (if c1 then fmt <- py_getitem (JDict d) "format" ;; try_float_duration fmt
        else ret None) w
       = (Return (match assoc "format" d with
                  | Some (JDict f) => entry_duration f
                  | _ => None
                  end), w).
Proof.
  intros Hshape. destruct d as [|kv d'] eqn:Hd; [exists false; split; reflexivity|].
  rewrite <- Hd in *. assert (Ht : truthy (JDict d) = true) by (rewrite Hd; reflexivity).
  rewrite Ht. cbn [and_then py_in py_getitem]. unfold bind at 1. cbn [ret].
  destruct (assoc "format" d) as [v|] eqn:Ef.
  - destruct (Hshape v eq_refl) as [f ->].
    rewrite bool_decide_eq_true_2 by eauto. cbn [and_then].
    unfold bind at 1. cbn [ret py_in].
    destruct (assoc "duration" f) as [x|] eqn:Ex.
    + exists true. rewrite bool_decide_eq_true_2 by eauto. split; [reflexivity|].
      unfold bind. cbn [ret]. apply try_float_duration_dict.
    + exists false. rewrite bool_decide_eq_false_2 by (intros [? ?]; discriminate).
      split; [reflexivity|]. unfold entry_duration. rewrite Ex. reflexivity.
  - exists false. rewrite bool_decide_eq_false_2 by (intros [? ?]; discriminate).
    split; reflexivity.
Qed.

Lemma streams_stage (d : list (string * json)) (w : World) :
  (forall v, assoc "streams" d = Some v -> exists l, v = JList l /\ Forall is_dict l) ->
  exists c2 : bool,
    and_then (truthy (JDict d)) (py_in "streams" (JDict d)) w = (Return c2, w)
    /\ (if c2 then
          streams <- py_getitem (JDict d) "streams" ;;
          items <- py_iter streams ;;
          scan_streams items
        else ret None) w
       = (Return (match assoc "streams" d with
                  | Some (JList l) => first_stream_duration l
                  | _ => None
                  end), w).
Proof.
  intros Hshape. destruct d as [|kv d'] eqn:Hd; [exists false; split; reflexivity|].
  rewrite <- Hd in *. assert (Ht : truthy (JDict d) = true) by (rewrite Hd; reflexivity).
  rewrite Ht. cbn [and_then py_in py_getitem].
  destruct (assoc "streams" d) as [v|] eqn:Es.
  - destruct (Hshape v eq_refl) as (l & -> & Hl).
    exists true. rewrite bool_decide_eq_true_2 by eauto. split; [reflexivity|].
    unfold bind. cbn [ret py_iter]. apply scan_streams_dicts. exact Hl.
  - exists false. rewrite bool_decide_eq_false_2 by (intros [? ?]; discriminate).
    split; reflexivity.
Qed.

(** The last stage: the transcoder's diagnostic output, else the default. *)
Lemma diagnostic_stage (file_path : string) (w : World) :
  exists w',
    (ffmpeg <- get_ffmpeg_path ;;
     r3 <- try_except
             (result <- subprocess_run [ffmpeg; "-i"; file_path; "-f"; "null"; "-"] ;;
              match search_duration (stderr result) with
              | Some (hours, minutes, seconds, centiseconds) =>
                  ret (Some (inject_Z (hours * 3600 + minutes * 60 + seconds)
                             + inject_Z centiseconds / 100)%Q)
              | None => ret None
              end)
             (fun _ => ret None) ;;
     match r3 with
     | Some q => ret q
     | None => ret 10%Q
     end) w
    = (Return (match diagnostic_duration file_path w with
               | Some (hours, minutes, seconds, centiseconds) =>
                   (inject_Z (hours * 3600 + minutes * 60 + seconds)
                    + inject_Z centiseconds / 100)%Q
               | None => 10%Q
               end), w').
Proof.
  unfold diagnostic_duration.
  destruct (get_ffmpeg_path_pure w) as [p Ep]. rewrite Ep.
  rewrite (bind_return _ _ _ _ _ Ep).
  unfold bind, try_except, subprocess_run.
  destruct (process w _) as [[c written]|]; [| eexists; reflexivity].
  destruct (search_duration (stderr c)) as [[[[hh mm] ss] cs]|];
    eexists; reflexivity.
Qed.

(** On a well-shaped media-info document [get_duration] returns the
    metadata duration if one parses, else the duration in the transcoder's
    diagnostic output if the pattern matches, else the default. *)
Lemma get_duration_on_shaped (file_path : string) (w w1 : World) (info : json) :
  get_media_info file_path w = (Return info, w1) ->
  probe_shaped info ->
  exists (d : Q) (w' : World),
    get_duration file_path w = (Return d, w')
    /\ d = expected_duration info file_path w1
    /\ (metadata_duration info = None ->
        diagnostic_duration file_path w1 = None -> d = 10%Q).
Proof.
  intros E (dd & -> & Hf & Hs).
  destruct (format_stage dd w1 Hf) as (c1 & E1 & E1').
  destruct (streams_stage dd w1 Hs) as (c2 & E2 & E2').
  destruct (diagnostic_stage file_path w1) as (w' & E3).
  unfold get_duration.
  rewrite (bind_return _ _ _ _ _ E), (bind_return _ _ _ _ _ E1),
    (bind_return _ _ _ _ _ E1').
  unfold expected_duration, metadata_duration.
  destruct (match assoc "format" dd with
            | Some (JDict f) => entry_duration f | _ => None end) as [q|].
  - exists q, w1. split; [reflexivity|]. split; [reflexivity|]. discriminate.
  - rewrite (bind_return _ _ _ _ _ E2), (bind_return _ _ _ _ _ E2').
    destruct (match assoc "streams" dd with
              | Some (JList l) => first_stream_duration l | _ => None end) as [q|].
    + exists q, w1. split; [reflexivity|]. split; [reflexivity|]. discriminate.
    + eexists _, w'. split; [exact E3|]. split; [reflexivity|].
      intros _ ->. reflexivity.
Qed.

(** *** On any document *)

Lemma try_float_duration_pure (v : json) (w : World) :
  exists r, try_float_duration v w = (Return r, w).
Proof.
  unfold try_float_duration, try_except, bind, py_getitem.
  destruct v as [| b | q | s | l | d]; try (eexists; reflexivity).
  destruct (assoc "duration" d) as [x|]; [| eexists; reflexivity].
  destruct x as [| b | q | s | l | d']; cbn; try (eexists; reflexivity).
  destruct (float_of_string s); eexists; reflexivity.
Qed.

Lemma py_in_outcome (k : string) (v : json) (w : World) :
  (exists b, py_in k v w = (Return b, w)) \/ py_in k v w = (Raise "TypeError", w).
Proof. destruct v; cbn; eauto. Qed.

Lemma scan_streams_outcome (l : list json) (w : World) :
  (exists r, scan_streams l w = (Return r, w))
  \/ scan_streams l w = (Raise "TypeError", w).
Proof.
  induction l as [|v l IH]; [left; eexists; reflexivity|].
  cbn [scan_streams].
  destruct (py_in_outcome "duration" v w) as [[b E]|E].
  - rewrite (bind_return _ _ _ _ _ E). destruct b; [| exact IH].
    destruct (try_float_duration_pure v w) as [r Er].
    rewrite (bind_return _ _ _ _ _ Er). destruct r; [left; eexists; reflexivity | exact IH].
  - right. apply bind_raise. exact E.
Qed.

(** The first stage on any document. *)
Lemma format_stage_outcome (info : json) (w : World) :
  (exists r1,
     (c1 <- and_then (truthy info)
              (has <- py_in "format" info ;;
               and_then has (fmt <- py_getitem info "format" ;; py_in "duration" fmt)) ;;
      if c1 : bool then fmt <- py_getitem info "format" ;; try_float_duration fmt
      else ret None) w = (Return r1, w))
  \/ (c1 <- and_then (truthy info)
              (has <- py_in "format" info ;;
               and_then has (fmt <- py_getitem info "format" ;; py_in "duration" fmt)) ;;
      if c1 : bool then fmt <- py_getitem info "format" ;; try_float_duration fmt
      else ret None) w = (Raise "TypeError", w).
Proof.
  destruct (truthy info) eqn:Ht; cbn [and_then]; [| left; eexists; reflexivity].
  destruct info as [| b | q | s | l | d]; try (right; reflexivity).
  - (* a string *) unfold bind at 1. unfold bind at 1. cbn [py_in ret].
    destruct (contains "format" s); cbn [and_then]; [right; reflexivity|].
    left. eexists. reflexivity.
  - (* a list *) unfold bind at 1. unfold bind at 1. cbn [py_in ret].
    destruct (existsb _ l); cbn [and_then]; [right; reflexivity|].
    left. eexists. reflexivity.
  - (* an object *) cbn [py_in py_getitem].
    destruct (assoc "format" d) as [fmt|] eqn:Ef.
    2: { rewrite bool_decide_eq_false_2 by (intros [? ?]; discriminate).
         left. eexists. reflexivity. }
    rewrite bool_decide_eq_true_2 by eauto.
    unfold bind, ret. cbn [and_then].
    destruct (py_in_outcome "duration" fmt w) as [[b E]|E]; rewrite E; [| right; reflexivity].
    destruct b; [| left; eexists; reflexivity].
    destruct (try_float_duration_pure fmt w) as [r Er]. rewrite Er.
    left. eexists. reflexivity.
Qed.

Lemma streams_stage_outcome (info : json) (w : World) :
  (exists r2,
     (c2 <- and_then (truthy info) (py_in "streams" info) ;;
      if c2 : bool then
        streams <- py_getitem info "streams" ;;
        items <- py_iter streams ;;
        scan_streams items
      else ret None) w = (Return r2, w))
  \/ (c2 <- and_then (truthy info) (py_in "streams" info) ;;
      if c2 : bool then
        streams <- py_getitem info "streams" ;;
        items <- py_iter streams ;;
        scan_streams items
      else ret None) w = (Raise "TypeError", w).
Proof.
  destruct (truthy info) eqn:Ht; cbn [and_then]; [| left; eexists; reflexivity].
  destruct info as [| b | q | s | l | d]; try (right; reflexivity).
  - unfold bind at 1. cbn [py_in ret].
    destruct (contains "streams" s); [right; reflexivity | left; eexists; reflexivity].
  - unfold bind at 1. cbn [py_in ret].
    destruct (existsb _ l); [right; reflexivity | left; eexists; reflexivity].
  - cbn [py_in py_getitem].
    destruct (assoc "streams" d) as [streams|] eqn:Es.
    2: { rewrite bool_decide_eq_false_2 by (intros [? ?]; discriminate).
         left. eexists. reflexivity. }
    rewrite bool_decide_eq_true_2 by eauto.
    unfold bind, ret.
    destruct streams as [| b | q | s | l | d']; cbn [py_iter]; unfold ret;
      try (right; reflexivity).
    + destruct (scan_streams_outcome (chars s) w) as [[r E]|E];
        rewrite E; [left; eexists; reflexivity | right; reflexivity].
    + destruct (scan_streams_outcome l w) as [[r E]|E];
        rewrite E; [left; eexists; reflexivity | right; reflexivity].
    + destruct (scan_streams_outcome (map (fun kv => JStr kv.1) d') w) as [[r E]|E];
        rewrite E; [left; eexists; reflexivity | right; reflexivity].
Qed.

Lemma bind_assoc {S A B C} (m : M S A) (k : A -> M S B) (h : B -> M S C) (s : S) :
  bind m (fun a => bind (k a) h) s = bind (bind m k) h s.
Proof. unfold bind. destruct (m s) as [[a|e] s']; reflexivity. Qed.

(** [get_duration] returns, or raises the [TypeError] of a membership
    test, a subscript or an iteration on a document of another shape. *)
Lemma get_duration_outcome (file_path : string) (w : World) :
  exists r w',
    get_duration file_path w = (r, w')
    /\ (r = Raise "TypeError" \/ exists d, r = Return d).
Proof.
  destruct (get_media_info_total file_path w) as (info & w1 & E).
  unfold get_duration. rewrite (bind_return _ _ _ _ _ E).
  rewrite bind_assoc.
  destruct (format_stage_outcome info w1) as [[r1 E1]|E1].
  2: { rewrite (bind_raise _ _ _ _ _ E1). eauto. }
  rewrite (bind_return _ _ _ _ _ E1).
  destruct r1 as [q|]; [eexists _, _; split; [reflexivity | eauto]|].
  rewrite bind_assoc.
  destruct (streams_stage_outcome info w1) as [[r2 E2]|E2].
  2: { rewrite (bind_raise _ _ _ _ _ E2). eauto. }
  rewrite (bind_return _ _ _ _ _ E2).
  destruct r2 as [q|]; [eexists _, _; split; [reflexivity | eauto]|].
  destruct (diagnostic_stage file_path w1) as (w' & E3).
  eexists _, w'. split; [exact E3 | eauto].
Qed.

End Duration.

(** **** A concrete probe *)

(** A machine on which the probe answers a document whose durations do
    not parse and the transcoder prints no duration. *)
Definition unprobeable : Platform :=
  {| process := fun _ argv =>
       match argv with
       | "ffprobe" :: _ => Some (mkCompleted 0 "probe-output" "", [])
       | _ => Some (mkCompleted 1 "" "0001.mp3: Invalid data found", [])
       end;
     entropy := fun _ => 0%nat;
     time_time := fun _ => 0;
     which := fun _ => true;
     os_name := "posix";
     module_dir := "/app";
     tempdir := "/tmp";
     resolve_posix := fun p => p;
     is_absolute := fun _ => true;
     repr_float := fun _ => "0.0";
     repr_pow2_12 := fun _ => "1.0";
     float_of_string := fun _ => None;
     json_loads := fun _ =>
       Some (JDict [("streams", JList [JDict [("codec_type", JStr "audio");
                                              ("duration", JStr "N/A")]]);
                    ("format", JDict [("filename", JStr "0001.mp3");
                                      ("duration", JStr "N/A")])]);
     safe_filename := fun s => s |}.

Lemma unprobeable_shaped : @probe_answers_shaped unprobeable.
Proof.
  intros w argv c written j _ [= <-].
  eexists. split; [reflexivity|]. split.
  - intros v [= <-]. eexists; reflexivity.
  - intros v [= <-]. eexists. split; [reflexivity|].
    constructor; [eexists; reflexivity | constructor].
Qed.

(** The probe of that machine, evaluated: the default comes back. *)
Example get_duration_default_run :
  (@get_duration unprobeable "0001.mp3" empty_world).1 = Return 10%Q.
Proof. vm_compute. reflexivity. Qed.

End Duration.

(** ** Ken Burns scale bounds *)

Module ZoomBounds.
Import FilterGenerator AvExpr.
#[local] Open Scope R_scope.

(** The zoom expressions as [generate_ken_burns_filter] compiles them for a
    clip of [duration] seconds. *)
Definition compiled_zoom_in (intensity : Z) (easing : string) (duration : Q) : text :=
  zoom_in_scale_expr intensity
    (get_easing_expression easing "on" (pretty (total_frames duration))).

Definition compiled_zoom_out (intensity : Z) (easing : string) (duration : Q) : text :=
  zoom_out_scale_expr intensity
    (get_easing_expression easing "on" (pretty (total_frames duration))).

(** The documented bounds: between the scales 1.0 and 1.0 + 0.3*intensity/100. *)
Definition within_scale_bounds (intensity : Z) (v : R) : Prop :=
  1 <= v <= 1 + 3 / 10 * IZR intensity / 100.

(** Decides the guard of a division by a non-zero constant. *)
Ltac nonzero_divisor :=
  match goal with
  | |- context [Req_dec_T (Q2R ?q) 0] =>
      destruct (Req_dec_T (Q2R q) 0) as [Hzero|_];
      [exfalso; unfold Q2R in Hzero; simpl in Hzero; lra|]
  end.

(** C7 fails on the code for the easing 'elastic': its expression
    [1-cos(..)*exp(..)] is spliced after [*] without parentheses, so at the
    first frame the compiled zoom-in expression of intensity 30 over a
    10-second clip evaluates to 0 and the zoom-out expression to 0.09, both
    outside the bounds [1, 1.09]. *)
Theorem elastic_zoom_leaves_bounds :
  value_at (compiled_zoom_in 30 "elastic" 10) 0 = Some 0
  /\ ~ within_scale_bounds 30 0
  /\ value_at (compiled_zoom_out 30 "elastic" 10) 0 = Some (9 / 100)
  /\ ~ within_scale_bounds 30 (9 / 100).
Proof.
  assert (Hcos : forall a b : R, b <> 0 -> cos (a * 0 / b) = 1).
  { intros a b Hb. replace (a * 0 / b) with 0 by (field; exact Hb). apply cos_0. }
  assert (Hexp : forall a b : R, b <> 0 -> exp (a * 0 / b) = 1).
  { intros a b Hb. replace (a * 0 / b) with 0 by (field; exact Hb). apply exp_0. }
  assert (H600 : Q2R 600 <> 0) by (unfold Q2R; simpl; lra).
  split; [| split; [| split]].
  - unfold value_at, compiled_zoom_in.
    set (p := parse_text _). vm_compute in p. subst p.
    cbn [eval lift2 as_nat]. simpl String.eqb. cbn iota.
    repeat nonzero_divisor. cbn [lift2].
    rewrite Hcos, Hexp by exact H600. f_equal. unfold Q2R. simpl. lra.
  - unfold within_scale_bounds. lra.
  - unfold value_at, compiled_zoom_out.
    set (p := parse_text _). vm_compute in p. subst p.
    cbn [eval lift2 as_nat]. simpl String.eqb. cbn iota.
    repeat nonzero_divisor. cbn [lift2].
    rewrite Hcos, Hexp by exact H600. f_equal. unfold Q2R. simpl. lra.
  - unfold within_scale_bounds. lra.
Qed.


(** Decides the comparisons an evaluation runs into, on constants. *)
Ltac decide_reals :=
  repeat match goal with
  | |- context [Rlt_dec ?x ?y] =>
      let Hc := fresh "Hc" in
      destruct (Rlt_dec x y) as [Hc|Hc];
      [try (exfalso; unfold Q2R in Hc; simpl in Hc; lra)
      |try (exfalso; apply Hc; unfold Q2R; simpl; lra)]
  | |- context [Req_dec_T ?x 0] =>
      let Hc := fresh "Hc" in
      destruct (Req_dec_T x 0) as [Hc|Hc];
      [try (exfalso; unfold Q2R in Hc; simpl in Hc; lra)
      |try (exfalso; apply Hc; unfold Q2R; simpl; lra)]
  end.

(** Evaluates a compiled zoom expression at a constant frame and leaves
    the bounds of its value to prove. *)
Ltac eval_zoom :=
  unfold value_at, compiled_zoom_in, compiled_zoom_out;
  match goal with
  | |- context [parse_text ?tx] =>
      let p := fresh "p" in set (p := parse_text tx); vm_compute in p; subst p
  end;
  cbn [eval lift2 as_nat]; simpl String.eqb; cbn iota;
  decide_reals; cbn [lift2 eval as_nat]; decide_reals; cbn [lift2];
  eexists; (split; [reflexivity|]);
  unfold within_scale_bounds, Q2R; simpl.

Lemma abs_sin_unit (x : R) : 0 <= Rabs (sin x) <= 1.
Proof.
  split; [apply Rabs_pos|]. apply Rabs_le. pose proof (SIN_bound x). lra.
Qed.

(** The other seven easings keep the bounds at both ends: with intensity 30
    over a 10-second clip, the compiled zoom-in and zoom-out expressions
    evaluate at the first frame and at frame 600 within [1, 1.09]. *)
Lemma other_easings_within_bounds (easing : string) (frame : R) :
  easing ∈ ["linear"; "ease"; "ease-in"; "ease-out"; "ease-in-out"; "bounce"; "back"] ->
  frame = 0 \/ frame = 600 ->
  (exists v, value_at (compiled_zoom_in 30 easing 10) frame = Some v
             /\ within_scale_bounds 30 v)
  /\ (exists v, value_at (compiled_zoom_out 30 easing 10) frame = Some v
               /\ within_scale_bounds 30 v).
Proof.
  intros Hin Hframe.
  repeat (apply elem_of_cons in Hin as [Hin|Hin]; [subst easing|]);
    try (apply elem_of_nil in Hin; contradiction);
    destruct Hframe as [-> | ->]; split; eval_zoom;
    try lra;
    match goal with
    | |- context [Rabs (sin ?x)] =>
        pose proof (abs_sin_unit x); generalize dependent (Rabs (sin x)); intros; lra
    end.
Qed.

End ZoomBounds.

(** ** Capability fallbacks of the filter compiler *)

Module Fallbacks.
Import FilterGenerator.






Section Fallbacks.
Context `{Platform}.


End Fallbacks.




End Fallbacks.

(** The world a computation leaves behind. *)
Definition world_after {A} (m : M World A) (w : World) : World := (m w).2.

(** ** Capability probing *)

Module Probes.
Import FFmpegUtils FilterGenerator.

(** A launch of the transcoder that lists its filter registry. *)
Definition is_probe (argv : list string) : bool :=
  match argv with
  | [_; flag] => String.eqb flag "-filters"
  | _ => false
  end.

(** The number of registry probes launched so far. *)
Definition probes (w : World) : nat := length (List.filter is_probe (spawned w)).

(** The probes one call of [generate_audio_filter] launches. *)
Definition audio_probes `{Platform} (settings : EffectSettings) : nat :=
  ((if negb (String.eqb (audio_pitch settings) "0")
    then match float_of_string (audio_pitch settings) with Some _ => 1 | None => 0 end
    else 0)
   + (if String.eqb (audio_effect settings) "robot" then 1 else 0)
   + (if audio_stereo_enhance settings then 1 else 0)
   + (if audio_normalize settings then 1 else 0))%nat.

(** Whether [pitch] is one [generate_audio_filter] cannot lower without
    rubberband: it parses, and [2 ** (semitones / 12)] is out of range. *)
Definition pitch_overflows `{Platform} (pitch : string) : bool :=
  negb (String.eqb pitch "0")
  && match float_of_string pitch with
     | Some semitones => pow2_overflows (semitones / 12)
     | None => false
     end.

Section Probes.
Context `{Platform}.

(** Every capability check launches the transcoder once more. *)
Lemma check_filter_available_probes (filter_name : string) (w : World) :
  exists b w',
    check_filter_available filter_name w = (Return b, w')
    /\ probes w' = S (probes w).
Proof.
  unfold check_filter_available.
  destruct (Duration.get_ffmpeg_path_pure w) as [p Ep].
  rewrite (bind_return _ _ _ _ _ Ep).
  unfold try_except, bind, subprocess_run.
  destruct (process w [p; "-filters"]) as [[c written]|];
    eexists _, _; (split; [reflexivity|]); reflexivity.
Qed.

Lemma check_available_filters_probes (names : list string) (acc : gmap string bool)
    (w : World) :
  exists a w',
    for_each names
      (fun available filter_name =>
         a <- check_filter_available filter_name ;;
         ret (<[filter_name := a]> available)) acc w = (Return a, w')
    /\ probes w' = (probes w + length names)%nat.
Proof.
  revert acc w. induction names as [|n names IH]; intros acc w.
  - exists acc, w. split; [reflexivity|]. simpl. lia.
  - destruct (check_filter_available_probes n w) as (b & w1 & E & Hp).
    destruct (IH (<[n := b]> acc) w1) as (a & w' & E' & Hp').
    exists a, w'. split.
    + cbn [for_each]. unfold bind at 1. unfold bind at 1. rewrite E. exact E'.
    + rewrite Hp', Hp. simpl. lia.
Qed.

(** One optional capability check inside [generate_audio_filter]. *)
Lemma guarded_check_probes {A} (g : bool) (name : string) (yes no skip : A) (w : World) :
  exists r w',
    (if g then a <- check_filter_available name ;; if a : bool then ret yes else ret no
     else ret skip) w = (Return r, w')
    /\ probes w' = (probes w + if g then 1 else 0)%nat.
Proof.
  destruct g.
  - destruct (check_filter_available_probes name w) as (b & w1 & E & Hp).
    rewrite (bind_return _ _ _ _ _ E). destruct b; eexists _, _;
      (split; [reflexivity|]); rewrite Hp; lia.
  - eexists _, _. split; [reflexivity|]. lia.
Qed.

(** The pitch stage of [generate_audio_filter]: it returns its filters
    after at most one probe, or, with a pitch out of range and no
    rubberband, raises [OverflowError] after that probe. *)
Lemma pitch_stage (settings : EffectSettings) (w : World) :
  (exists f1 w1,
     (if negb (String.eqb (audio_pitch settings) "0") then
        match float_of_string (audio_pitch settings) with
        | Some semitones =>
            rubberband <- check_filter_available "rubberband" ;;
            if rubberband : bool
            then ret ["rubberband=pitch=" +:+ repr_float semitones]
            else if pow2_overflows (semitones / 12) then raise "OverflowError"
            else ret ["asetrate=44100*" +:+ repr_pow2_12 semitones +:+ ",aresample=44100"]
        | None => ret []
        end
      else ret []) w = (Return f1, w1)
     /\ probes w1 = (probes w
          + (if negb (String.eqb (audio_pitch settings) "0")
             then match float_of_string (audio_pitch settings) with
                  | Some _ => 1 | None => 0 end
             else 0))%nat
     /\ Forall (fun f => f <> "") f1
     /\ (audio_pitch settings = "0" -> f1 = []))
  \/ (exists w1,
        (if negb (String.eqb (audio_pitch settings) "0") then
           match float_of_string (audio_pitch settings) with
           | Some semitones =>
               rubberband <- check_filter_available "rubberband" ;;
               if rubberband : bool
               then ret ["rubberband=pitch=" +:+ repr_float semitones]
               else if pow2_overflows (semitones / 12) then raise "OverflowError"
               else ret ["asetrate=44100*" +:+ repr_pow2_12 semitones
                         +:+ ",aresample=44100"]
           | None => ret []
           end
         else ret []) w = (Raise "OverflowError", w1)
        /\ pitch_overflows (audio_pitch settings) = true
        /\ check_filter_available "rubberband" w = (Return false, w1)
        /\ probes w1 = S (probes w)).
Proof.
  unfold pitch_overflows.
  destruct (String.eqb_spec (audio_pitch settings) "0") as [E0|E0]; cbn [negb andb].
  { left. eexists _, _. split; [reflexivity|]. split; [lia|]. split; [constructor | auto]. }
  destruct (float_of_string _) as [q|].
  2: { left. eexists _, _. split; [reflexivity|]. split; [lia|].
       split; [constructor | auto]. }
  destruct (check_filter_available_probes "rubberband" w) as (b & w1 & E & Hp).
  rewrite (bind_return _ _ _ _ _ E). destruct b.
  - left. eexists _, _. split; [reflexivity|]. split; [rewrite Hp; lia|].
    split; [constructor; [discriminate | constructor] | contradiction].
  - destruct (pow2_overflows (q / 12)).
    + right. exists w1. split; [reflexivity|]. split; [reflexivity|].
      split; [exact E | exact Hp].
    + left. eexists _, _. split; [reflexivity|]. split; [rewrite Hp; lia|].
      split; [constructor; [discriminate | constructor] | contradiction].
Qed.

(** The outcome of [generate_audio_filter] and the probes it costs. *)
Lemma generate_audio_filter_probes (self : FilterGenerator.t) (settings : EffectSettings)
    (w : World) :
  exists r w',
    generate_audio_filter self settings w = (r, w')
    /\ match r with
       | Return _ => probes w' = (probes w + audio_probes settings)%nat
       | Raise e =>
           e = "OverflowError"
           /\ pitch_overflows (audio_pitch settings) = true
           /\ check_filter_available "rubberband" w = (Return false, w')
           /\ probes w' = S (probes w)
       end
    /\ (pitch_overflows (audio_pitch settings) = false -> exists tx, r = Return tx).
Proof.
  unfold generate_audio_filter, audio_probes.
  destruct (pitch_stage settings w) as [(f1 & w1 & E1 & Hp1 & _)|(w1 & E1 & Ho & Er & Hp1)].
  2: { exists (Raise "OverflowError"), w1. unfold bind at 1. rewrite E1.
       split; [reflexivity|]. split; [auto|]. rewrite Ho. discriminate. }
  rewrite (bind_return _ _ _ _ _ E1).
  (* named effect *)
  assert (H2 : exists f2 w2,
    match table_get (audio_effect settings)
            [("bass", "bass=g=10:f=100");
             ("reverb", "aecho=0.8:0.9:40:0.4");
             ("echo", "aecho=0.8:0.7:60:0.5");
             ("chorus", "chorus=0.5:0.9:50|60|40:0.4|0.32|0.3:0.25|0.4|0.3:2|2.3|1.3");
             ("telephone", "highpass=f=300,lowpass=f=3000");
             ("underwater", "lowpass=f=500,aecho=0.8:0.9:1000:0.3");
             ("radio", "highpass=f=300,lowpass=f=3000,aecho=0.8:0.7:40:0.25");
             ("vintage", "lowpass=f=8000,aecho=0.6:0.8:60:0.35");
             ("distortion", "acompressor=threshold=0.5:ratio=5:attack=10");
             ("robot", "afftfilt=real='re * (1-clip((b/nb)*b,0,1))':imag='im * (1-clip((b/nb)*b,0,1))'")]
    with
    | Some effect_filter =>
        effect_filter <-
          (if contains "afftfilt" effect_filter then
             a <- check_filter_available "afftfilt" ;;
             if a : bool then ret effect_filter
             else ret "aecho=0.8:0.8:5:0.7,aecho=0.8:0.8:11:0.5"
           else ret effect_filter) ;;
        ret (f1 ++ [effect_filter])
    | None => ret f1
    end w1 = (Return f2, w2)
    /\ probes w2 = (probes w1
         + if String.eqb (audio_effect settings) "robot" then 1 else 0)%nat).
  { cbn [table_get].
    repeat match goal with
           | |- context [String.eqb (audio_effect settings) ?k] =>
               lazymatch k with
               | "robot" => fail
               | _ => destruct (String.eqb_spec (audio_effect settings) k) as [->|_];
                      [eexists _, _; split; [reflexivity | simpl; lia] |]
               end
           end.
    destruct (String.eqb (audio_effect settings) "robot").
    - change (contains "afftfilt" _) with true. cbn iota.
      destruct (guarded_check_probes true "afftfilt"
                  "afftfilt=real='re * (1-clip((b/nb)*b,0,1))':imag='im * (1-clip((b/nb)*b,0,1))'"
                  "aecho=0.8:0.8:5:0.7,aecho=0.8:0.8:11:0.5" "" w1)
        as (r & w2 & E & Hp).
      rewrite (bind_return _ _ _ _ _ E).
      eexists _, _. split; [reflexivity | exact Hp].
    - eexists _, _. split; [reflexivity | lia]. }
  destruct H2 as (f2 & w2 & E2 & Hp2).
  rewrite (bind_return _ _ _ _ _ E2).
  destruct (guarded_check_probes (audio_stereo_enhance settings) "stereotools"
              (f2 ++ ["stereotools=slev=1.5:sbal=0"]) f2 f2 w2) as (f3 & w3 & E3 & Hp3).
  rewrite (bind_return _ _ _ _ _ E3).
  match goal with
  | |- context [bind (if audio_normalize settings then _ else ret ?f) _] =>
      destruct (guarded_check_probes (audio_normalize settings) "loudnorm"
                  (f ++ ["loudnorm=I=-16:TP=-1.5:LRA=11"]) (f ++ ["volume=0.9"]) f w3)
        as (f4 & w4 & E4 & Hp4)
  end.
  rewrite (bind_return _ _ _ _ _ E4).
  destruct f4; eexists _, _; (split; [reflexivity|]); (split; [lia | eauto]).
Qed.

(** C4, as the code has it. Building the filter generator launches the
    transcoder once per probed filter name (19 launches), and the dict it
    fills is what the video filters read; every call of
    [generate_audio_filter] launches the transcoder again: when it returns,
    once for each of rubberband (a pitch other than "0" that parses),
    afftfilt (the robot effect), stereotools (stereo enhancement) and
    loudnorm (normalization) it asks about; the one way it does not return
    is the [OverflowError] of a pitch whose [2 ** (semitones / 12)] is out
    of range, raised after the probe that found no rubberband.  Either way
    each audio variant processed costs at least one new probe. *)
Theorem probes_are_repeated :
  (forall w, exists fg w',
      FilterGenerator.init w = (Return fg, w')
      /\ probes w' = (probes w + 19)%nat)
  /\ (forall self settings w, exists r w',
        generate_audio_filter self settings w = (r, w')
        /\ match r with
           | Return _ => probes w' = (probes w + audio_probes settings)%nat
           | Raise e =>
               e = "OverflowError"
               /\ pitch_overflows (audio_pitch settings) = true
               /\ check_filter_available "rubberband" w = (Return false, w')
               /\ probes w' = S (probes w)
           end
        /\ (pitch_overflows (audio_pitch settings) = false -> exists tx, r = Return tx))
  /\ (forall self input_path output_path pitch effect w, exists r w',
        MontageEngine._process_audio self input_path output_path pitch effect w = (r, w')
        /\ (probes w < probes w')%nat
        /\ match r with
           | Return _ => True
           | Raise e => e = "OverflowError" /\ pitch_overflows pitch = true
           end
        /\ (pitch_overflows pitch = false -> exists ok, r = Return ok)).
Proof.
  split; [| split].
  - intros w. unfold FilterGenerator.init, _check_available_filters.
    destruct (check_available_filters_probes filters_to_check ∅ w) as (a & w' & E & Hp).
    rewrite (bind_return _ _ _ _ _ E). eexists _, _. split; [reflexivity | exact Hp].
  - apply generate_audio_filter_probes.
  - intros self input_path output_path pitch effect w.
    unfold MontageEngine._process_audio.
    destruct (Duration.get_ffmpeg_path_pure w) as [p Ep].
    rewrite (bind_return _ _ _ _ _ Ep).
    match goal with
    | |- context [generate_audio_filter ?fg ?st] =>
        destruct (generate_audio_filter_probes fg st w) as (r & w1 & E & Hp & Hret)
    end.
    cbn [audio_pitch] in Hp, Hret.
    destruct r as [tx|e].
    + rewrite (bind_return _ _ _ _ _ E).
      unfold audio_probes in Hp. cbn [audio_normalize] in Hp.
      unfold try_except, bind, subprocess_run.
      destruct (process w1 _) as [[c written]|]; eexists _, _;
        (split; [reflexivity|]);
        (split; [unfold probes in *; cbn [spawned List.filter is_probe]; lia | eauto]).
    + destruct Hp as (-> & Ho & _ & Hp).
      exists (Raise "OverflowError"), w1. unfold bind at 1. rewrite E.
      split; [reflexivity|]. split; [lia|]. split; [auto|].
      rewrite Ho. discriminate.
Qed.

End Probes.

(** C4 fails on the code as stated: after the generator is built (19
    launches), each of two calls of [generate_audio_filter] with the default
    settings launches the transcoder again. *)
Lemma audio_filter_reprobes_counterexample :
  probes (world_after (@FilterGenerator.init (quiet_platform (fun _ => 0%nat)))
            empty_world) = 19%nat
  /\ probes (world_after
               (fg <- @FilterGenerator.init (quiet_platform (fun _ => 0%nat)) ;;
                @generate_audio_filter (quiet_platform (fun _ => 0%nat)) fg default_effects)
               empty_world) = 20%nat
  /\ probes (world_after
               (fg <- @FilterGenerator.init (quiet_platform (fun _ => 0%nat)) ;;
                @generate_audio_filter (quiet_platform (fun _ => 0%nat)) fg default_effects ;;;
                @generate_audio_filter (quiet_platform (fun _ => 0%nat)) fg default_effects)
               empty_world) = 21%nat.
Proof. repeat split; vm_compute; reflexivity. Qed.

End Probes.

(** ** The clip loop and the channel result *)

Module Rendering.
Import FFmpegUtils MontageEngine.

Section Rendering.
Context `{Platform}.

(** A [try] whose handler returns a value always returns. *)
Lemma try_except_total {A} (m : M World A) (x : A) (w : World) :
  exists a w', try_except m (fun _ => ret x) w = (Return a, w').
Proof.
  unfold try_except. destruct (m w) as [[a|e] w']; eexists _, _; reflexivity.
Qed.

Lemma get_media_info_shaped (file_path : string) (w w1 : World) (info : json) :
  Duration.probe_answers_shaped ->
  get_media_info file_path w = (Return info, w1) ->
  Duration.probe_shaped info.
Proof.
  intros Hshape. unfold get_media_info.
  destruct (Duration.get_ffprobe_path_pure w) as [p Ep].
  rewrite (bind_return _ _ _ _ _ Ep).
  assert (Hempty : Duration.probe_shaped (JDict [])).
  { exists []. split; [reflexivity|]. split; intros v Hv; discriminate Hv. }
  unfold bind, try_except, subprocess_run.
  destruct (process w _) as [[c written]|] eqn:Ep'.
  - destruct (returncode c =? 0).
    + destruct (json_loads (stdout c)) as [j|] eqn:Ej.
      * intros [= <- _]. eapply Hshape; eassumption.
      * intros [= <- _]. exact Hempty.
    + intros [= <- _]. exact Hempty.
  - intros [= <- _]. exact Hempty.
Qed.

(** Probing a duration always returns. *)
Lemma get_duration_returns (file_path : string) (w : World) :
  Duration.probe_answers_shaped ->
  exists d w', get_duration file_path w = (Return d, w').
Proof.
  intros Hshape.
  destruct (Duration.get_media_info_total file_path w) as (info & w1 & E).
  destruct (Duration.get_duration_on_shaped file_path w w1 info E
              (get_media_info_shaped _ _ _ _ Hshape E)) as (d & w' & Ed & _).
  exists d, w'. exact Ed.
Qed.

Lemma get_audio_variant_pure (self : t) (pair : MediaPair) (fx : EffectSettings)
    (w : World) :
  exists a, _get_audio_variant self pair fx w = (Return a, w).
Proof.
  unfold _get_audio_variant.
  destruct (_ && _); [eexists; reflexivity|].
  unfold bind, path_exists, gets. destruct (bool_decide _); eexists; reflexivity.
Qed.

(** The clip contract: a path comes back only from an encoder run that
    exited with code 0 and left the output file on disk. *)
Lemma create_video_clip_contract (self : t) (pair : MediaPair) (duration : Q)
    (resolution : Z * Z) (channel : Channel) (clip_effects : EffectsManager.ClipEffects)
    (clip_index total_clips : Z) (w : World) :
  exists r w',
    _create_video_clip self pair duration resolution channel clip_effects
      clip_index total_clips w = (Return r, w')
    /\ (forall p, r = Some p ->
          p = clip_output_path self pair clip_index
          /\ is_Some (disk w' !! p)
          /\ exists ffmpeg c written,
               process w (clip_cmd self ffmpeg pair duration resolution channel
                            clip_effects clip_index total_clips) = Some (c, written)
               /\ returncode c = 0).
Proof.
  unfold _create_video_clip.
  destruct (Duration.get_ffmpeg_path_pure w) as [ffmpeg Ep].
  unfold try_except. rewrite (bind_return _ _ _ _ _ Ep).
  unfold bind at 1. unfold path_exists at 1. unfold gets at 1.
  destruct (bool_decide (is_Some (disk w !! media_file pair))); cbn [negb].
  2: { eexists _, _. split; [reflexivity|]. intros p Hp. discriminate Hp. }
  unfold bind, subprocess_run.
  destruct (process w _) as [[c written]|] eqn:Eproc.
  2: { eexists _, _. split; [reflexivity|]. intros p Hp. discriminate Hp. }
  unfold and_then, path_exists, gets, ret.
  destruct (Z.eqb_spec (returncode c) 0) as [Hrc|Hrc].
  2: { eexists _, _. split; [reflexivity|]. intros p Hp. discriminate Hp. }
  cbn [disk].
  destruct (bool_decide_reflect (is_Some
    (foldr (fun kv d => <[kv.1:=kv.2]> d) (disk w) written
       !! clip_output_path self pair clip_index))) as [Hex|Hex].
  2: { eexists _, _. split; [reflexivity|]. intros p Hp. discriminate Hp. }
  eexists _, _. split; [reflexivity|]. intros p [= <-].
  split; [reflexivity|]. split; [exact Hex|].
  exists ffmpeg, c, written. split; [exact Eproc | exact Hrc].
Qed.

(** One turn of the per-clip loop, in full: the audio that is probed, the
    duration the probe gives, and what becomes of the clip list. *)
Lemma render_pair_run (self : t) (channel : Channel) (resolution : Z * Z)
    (total_clips : Z) (clips : list VideoClip) (mgr : EffectsManager.t)
    (i : Z) (pair : MediaPair) (w : World) :
  Duration.probe_answers_shaped ->
  effect_every (EffectsManager.settings mgr) <> 0 ->
  exists a d w1 clips' mgr' w',
    _get_audio_variant self pair (effects channel) w = (Return a, w)
    /\ get_duration a w = (Return d, w1)
    /\ render_pair self channel resolution total_clips (clips, mgr) (i, pair) w
       = (Return (clips', mgr'), w')
    /\ EffectsManager.settings mgr' = EffectsManager.settings mgr
    /\ (clips' = clips
        \/ exists clip w0,
             clips' = clips ++ [clip]
             /\ audio_path clip = a
             /\ duration clip = d
             /\ is_Some (disk w' !! video_path clip)
             /\ _create_video_clip self pair d resolution channel
                  (effects_applied clip) i total_clips w0
                = (Return (Some (video_path clip)), w')).
Proof.
  intros Hshape Hk. unfold render_pair. cbn [fst snd].
  destruct (get_audio_variant_pure self pair (effects channel) w) as [a Ea].
  rewrite (bind_return _ _ _ _ _ Ea).
  destruct (get_duration_returns a w Hshape) as (d & w1 & Ed).
  rewrite (bind_return _ _ _ _ _ Ed).
  destruct (Selector.get_effects_for_clip_total mgr i total_clips w1 Hk)
    as (ce & mgr' & w2 & Ee & Hs).
  rewrite (bind_return _ _ _ _ _ Ee).
  destruct (create_video_clip_contract self pair d resolution channel ce i total_clips w2)
    as (r & w3 & Ec & Hc).
  rewrite (bind_return _ _ _ _ _ Ec).
  exists a, d, w1.
  destruct (chosen r) as [p|] eqn:Hch.
  2: { eexists _, _, _. split; [exact Ea|]. split; [exact Ed|].
       split; [reflexivity|]. split; [exact Hs | left; reflexivity]. }
  assert (Hr : r = Some p).
  { destruct r as [q|]; [| discriminate Hch]. simpl in Hch.
    destruct (String.eqb q ""); [discriminate Hch | congruence]. }
  subst r.
  unfold bind, path_exists, gets.
  destruct (bool_decide_reflect (is_Some (disk w3 !! p))) as [Hex|Hex].
  - eexists _, _, _. split; [exact Ea|]. split; [exact Ed|].
    split; [reflexivity|]. split; [exact Hs|]. right.
    eexists _, w2. repeat (split; [reflexivity|]). split; [exact Hex | exact Ec].
  - eexists _, _, _. split; [exact Ea|]. split; [exact Ed|].
    split; [reflexivity|]. split; [exact Hs | left; reflexivity].
Qed.

(** One turn of the per-clip loop: whatever the clip render gives, the
    body returns, with the clip list unchanged or longer by the one clip
    whose render returned its path and whose file is on disk. *)
Lemma render_pair_step (self : t) (channel : Channel) (resolution : Z * Z)
    (total_clips : Z) (clips : list VideoClip) (mgr : EffectsManager.t)
    (i : Z) (pair : MediaPair) (w : World) :
  Duration.probe_answers_shaped ->
  effect_every (EffectsManager.settings mgr) <> 0 ->
  exists clips' mgr' w',
    render_pair self channel resolution total_clips (clips, mgr) (i, pair) w
    = (Return (clips', mgr'), w')
    /\ EffectsManager.settings mgr' = EffectsManager.settings mgr
    /\ (clips' = clips
        \/ exists clip w0,
             clips' = clips ++ [clip]
             /\ is_Some (disk w' !! video_path clip)
             /\ _create_video_clip self pair (duration clip) resolution channel
                  (effects_applied clip) i total_clips w0
                = (Return (Some (video_path clip)), w')).
Proof.
  intros Hshape Hk.
  destruct (render_pair_run self channel resolution total_clips clips mgr i pair w
              Hshape Hk) as (a & d & w1 & clips' & mgr' & w' & _ & _ & E & Hs & Hc).
  exists clips', mgr', w'. split; [exact E|]. split; [exact Hs|].
  destruct Hc as [->|(clip & w0 & -> & _ & Hd & Hex & Ec)]; [left; reflexivity|].
  right. exists clip, w0. rewrite Hd. auto.
Qed.

(** The loop runs through every pair. *)
Lemma render_loop_total (self : t) (channel : Channel) (resolution : Z * Z)
    (total_clips : Z) (todo : list (Z * MediaPair)) :
  Duration.probe_answers_shaped ->
  forall (clips : list VideoClip) (mgr : EffectsManager.t) (w : World),
    effect_every (EffectsManager.settings mgr) <> 0 ->
    exists clips' mgr' w',
      for_each todo (render_pair self channel resolution total_clips) (clips, mgr) w
      = (Return (clips', mgr'), w').
Proof.
  intros Hshape. induction todo as [|[i pair] todo IH]; intros clips mgr w Hk.
  - eexists _, _, _; reflexivity.
  - destruct (render_pair_step self channel resolution total_clips clips mgr i pair w
                Hshape Hk) as (clips1 & mgr1 & w1 & E & Hs & _).
    destruct (IH clips1 mgr1 w1) as (clips' & mgr' & w' & E'); [rewrite Hs; exact Hk|].
    exists clips', mgr', w'. cbn [for_each]. rewrite (bind_return _ _ _ _ _ E). exact E'.
Qed.

Lemma combine_clips_total (self : t) (clips : list VideoClip) (output_path : string)
    (channel : Channel) (w : World) :
  exists ok w', _combine_clips self clips output_path channel w = (Return ok, w').
Proof.
  unfold _combine_clips.
  destruct (Duration.get_ffmpeg_path_pure w) as [ffmpeg Ep].
  rewrite (bind_return _ _ _ _ _ Ep).
  destruct clips as [|c [|c' cs]]; apply try_except_total.
Qed.

Lemma cleanup_total (self : t) (clips : list VideoClip) (w : World) :
  exists w', _cleanup_temp_files self clips w = (Return tt, w').
Proof.
  unfold _cleanup_temp_files. revert w.
  induction clips as [|c clips IH]; intros w; [eexists; reflexivity|].
  cbn [for_each]. unfold bind at 1, try_except, unlink_missing_ok, modify.
  apply IH.
Qed.

(** The clip the loop appends for a render that gave [path]. *)
Definition after_render (clips : list VideoClip) (path : option string) (a : string)
    (d : Q) (i n : Z) (ce : EffectsManager.ClipEffects) (w' : World) : list VideoClip :=
  match chosen path with
  | Some p =>
      if bool_decide (is_Some (disk w' !! p))
      then clips ++ [{| video_path := p; audio_path := a; duration := d;
                        is_first := (i =? 0); is_last := (i =? n - 1);
                        effects_applied := ce |}]
      else clips
  | None => clips
  end.

(** The encoder is given the clip's duration as its [-t] argument. *)
Lemma clip_cmd_duration (self : t) (ffmpeg : string) (pair : MediaPair) (d : Q)
    (resolution : Z * Z) (channel : Channel) (ce : EffectsManager.ClipEffects)
    (i n : Z) :
  exists pre post,
    clip_cmd self ffmpeg pair d resolution channel ce i n
    = pre ++ ["-t"; repr_float d] ++ post.
Proof.
  unfold clip_cmd. cbv zeta.
  destruct (String.eqb (media_type pair) "image").
  - destruct (clip_filters _ _ _ _ _ _ _ _).
    + exists [ffmpeg; "-loop"; "1"; "-framerate";
              pretty (match ken_burns (effects channel) with
                      | [] => fps (export channel) | _ => 60 end);
              "-i"; media_file pair]. eexists. reflexivity.
    + exists [ffmpeg; "-loop"; "1"; "-framerate";
              pretty (match ken_burns (effects channel) with
                      | [] => fps (export channel) | _ => 60 end);
              "-i"; media_file pair]. eexists. rewrite <- !app_assoc. reflexivity.
  - destruct (clip_filters _ _ _ _ _ _ _ _).
    + exists [ffmpeg; "-stream_loop"; "-1"; "-i"; media_file pair]. eexists. reflexivity.
    + exists [ffmpeg; "-stream_loop"; "-1"; "-i"; media_file pair]. eexists.
      rewrite <- !app_assoc. reflexivity.
Qed.

(** One turn of the per-clip loop, whatever the probe answers: the audio
    is probed; if the probe raises, the turn raises with it; otherwise the
    effects are chosen, the clip is rendered with the probed duration, and
    the clip is appended exactly when the render gave a path that exists. *)
Lemma render_pair_outcome (self : t) (channel : Channel) (resolution : Z * Z)
    (total_clips : Z) (clips : list VideoClip) (mgr : EffectsManager.t)
    (i : Z) (pair : MediaPair) (w : World) :
  effect_every (EffectsManager.settings mgr) <> 0 ->
  exists a r w1,
    _get_audio_variant self pair (effects channel) w = (Return a, w)
    /\ get_duration a w = (r, w1)
    /\ (r = Raise "TypeError" \/ exists d, r = Return d)
    /\ match r with
       | Raise e =>
           render_pair self channel resolution total_clips (clips, mgr) (i, pair) w
           = (Raise e, w1)
       | Return d =>
           exists ce mgr' w2 path w',
             EffectsManager.get_effects_for_clip mgr i total_clips w1
             = (Return (ce, mgr'), w2)
             /\ EffectsManager.settings mgr' = EffectsManager.settings mgr
             /\ _create_video_clip self pair d resolution channel ce i total_clips w2
                = (Return path, w')
             /\ render_pair self channel resolution total_clips (clips, mgr) (i, pair) w
                = (Return (after_render clips path a d i total_clips ce w', mgr'), w')
       end.
Proof.
  intros Hk. unfold render_pair. cbn [fst snd].
  destruct (get_audio_variant_pure self pair (effects channel) w) as [a Ea].
  rewrite (bind_return _ _ _ _ _ Ea).
  destruct (Duration.get_duration_outcome a w) as (r & w1 & Ed & Hr).
  exists a, r, w1. split; [exact Ea|]. split; [exact Ed|]. split; [exact Hr|].
  destruct r as [d|e]; [| apply bind_raise; exact Ed].
  rewrite (bind_return _ _ _ _ _ Ed).
  destruct (Selector.get_effects_for_clip_total mgr i total_clips w1 Hk)
    as (ce & mgr' & w2 & Ee & Hs).
  rewrite (bind_return _ _ _ _ _ Ee).
  destruct (create_video_clip_contract self pair d resolution channel ce i
              total_clips w2) as (path & w3 & Ec & _).
  rewrite (bind_return _ _ _ _ _ Ec).
  exists ce, mgr', w2, path, w3. split; [exact Ee|]. split; [exact Hs|].
  split; [exact Ec|]. unfold after_render.
  destruct (chosen path) as [p|]; [| reflexivity].
  unfold bind, path_exists, gets. destruct (bool_decide _); reflexivity.
Qed.


(** When the media file is there the encoder is launched, with the
    invocation [clip_cmd] builds. *)
Lemma create_video_clip_launch (self : t) (pair : MediaPair) (d : Q)
    (resolution : Z * Z) (channel : Channel) (ce : EffectsManager.ClipEffects)
    (i n : Z) (w : World) (r : result (option string)) (w' : World) :
  _create_video_clip self pair d resolution channel ce i n w = (r, w') ->
  is_Some (disk w !! media_file pair) ->
  exists ffmpeg,
    spawned w' = clip_cmd self ffmpeg pair d resolution channel ce i n :: spawned w.
Proof.
  unfold _create_video_clip.
  destruct (Duration.get_ffmpeg_path_pure w) as [ffmpeg Ep].
  unfold try_except. rewrite (bind_return _ _ _ _ _ Ep).
  intros E Hex. exists ffmpeg. revert E.
  unfold bind at 1. unfold path_exists at 1. unfold gets at 1.
  rewrite bool_decide_eq_true_2 by exact Hex. cbn [negb].
  unfold bind, subprocess_run.
  destruct (process w _) as [[c written]|].
  - unfold and_then, path_exists, gets, ret.
    destruct (returncode c =? 0); [destruct (bool_decide _)|]; intros [= _ <-]; reflexivity.
  - intros [= _ <-]. reflexivity.
Qed.

(** C10, as the code has it. [get_duration] returns or raises [TypeError],
    nothing else.  On a media-info document of the shape the probe prints
    (an object whose format is an object and whose streams are objects) it
    returns: the metadata duration if one parses, else the duration in the
    transcoder's diagnostic output if the pattern matches, else the fixed
    10.0 seconds.  The per-clip loop probes the clip's audio: if the probe
    raises, the turn raises with it; otherwise the clip is rendered with the
    duration the probe returned, which is the encoder's [-t] argument, so a
    clip whose audio yields no duration is rendered with 10 seconds. *)
Theorem duration_probing_outcomes :
  (forall (file_path : string) (w : World),
      exists info w1 r w',
        get_media_info file_path w = (Return info, w1)
        /\ get_duration file_path w = (r, w')
        /\ (r = Raise "TypeError" \/ exists d, r = Return d)
        /\ (Duration.probe_shaped info ->
            r = Return (Duration.expected_duration info file_path w1)
            /\ (Duration.metadata_duration info = None ->
                Duration.diagnostic_duration file_path w1 = None -> r = Return 10%Q)))
  /\ (forall self channel resolution n clips mgr i pair (w : World),
        effect_every (EffectsManager.settings mgr) <> 0 ->
        exists a r w1,
          _get_audio_variant self pair (effects channel) w = (Return a, w)
          /\ get_duration a w = (r, w1)
          /\ match r with
             | Raise e =>
                 render_pair self channel resolution n (clips, mgr) (i, pair) w
                 = (Raise e, w1)
             | Return d =>
                 exists ce mgr' w2 path w',
                   EffectsManager.get_effects_for_clip mgr i n w1 = (Return (ce, mgr'), w2)
                   /\ _create_video_clip self pair d resolution channel ce i n w2
                      = (Return path, w')
                   /\ render_pair self channel resolution n (clips, mgr) (i, pair) w
                      = (Return (after_render clips path a d i n ce w', mgr'), w')
                   /\ (is_Some (disk w2 !! media_file pair) ->
                       exists ffmpeg,
                         spawned w'
                         = clip_cmd self ffmpeg pair d resolution channel ce i n
                           :: spawned w2)
             end)
  /\ (forall self ffmpeg pair d resolution channel ce i n,
        exists pre post,
          clip_cmd self ffmpeg pair d resolution channel ce i n
          = pre ++ ["-t"; repr_float d] ++ post).
Proof.
  split; [| split].
  - intros file_path w.
    destruct (Duration.get_media_info_total file_path w) as (info & w1 & E).
    destruct (Duration.get_duration_outcome file_path w) as (r & w' & Ed & Hr).
    exists info, w1, r, w'. split; [exact E|]. split; [exact Ed|]. split; [exact Hr|].
    intros Hshape.
    destruct (Duration.get_duration_on_shaped file_path w w1 info E Hshape)
      as (d & w2 & Ed' & Hd & H10).
    rewrite Ed in Ed'. injection Ed' as -> _. split; [rewrite Hd; reflexivity|].
    intros Hm Hdg. rewrite (H10 Hm Hdg). reflexivity.
  - intros self channel resolution n clips mgr i pair w Hk.
    destruct (render_pair_outcome self channel resolution n clips mgr i pair w Hk)
      as (a & r & w1 & Ea & Ed & _ & Hrun).
    exists a, r, w1. split; [exact Ea|]. split; [exact Ed|].
    destruct r as [d|e]; [| exact Hrun].
    destruct Hrun as (ce & mgr' & w2 & path & w' & Ee & _ & Ec & E).
    exists ce, mgr', w2, path, w'. split; [exact Ee|]. split; [exact Ec|].
    split; [exact E|]. apply (create_video_clip_launch _ _ _ _ _ _ _ _ _ _ _ Ec).
  - intros. apply clip_cmd_duration.
Qed.


End Rendering.

(** **** A concrete studio *)

Definition last_arg (argv : list string) : string := List.last argv "".

Definition ends_with (suffix s : string) : bool :=
  let n := String.length suffix in
  let m := String.length s in
  (n <=? m)%nat && String.eqb (String.substring (m - n) n s) suffix.

(** Decimal text of a rational, to six places, without trailing zeros. *)
Fixpoint drop_zeros (rev_digits : list ascii) : list ascii :=
  match rev_digits with
  | c :: rest => if Ascii.eqb c "0" then drop_zeros rest else rev_digits
  | [] => []
  end.

Definition decimal_repr (q : Q) : string :=
  let n := Qnum q in
  let d := Z.pos (Qden q) in
  let a := Z.abs n in
  let micro := list_ascii_of_string (pretty (1000000 + (a mod d) * 1000000 / d)) in
  let frac := rev (drop_zeros (rev (tail micro))) in
  (if n <? 0 then "-" else "") +:+ pretty (a / d) +:+ "."
  +:+ string_of_list_ascii (match frac with [] => ["0"%char] | _ => frac end).

(** A machine with both tools installed, on which a process whose output
    path ends with [fail_suffix] exits with code 1 and writes nothing, and
    every other process exits with code 0 and writes its output path; the
    probe prints nothing that parses. *)
Definition studio (fail_suffix : string) : Platform :=
  {| process := fun _ argv =>
       if ends_with fail_suffix (last_arg argv)
       then Some (mkCompleted 1 "" "error", [])
       else Some (mkCompleted 0 "" "", [(last_arg argv, "data")]);
     entropy := fun _ => 0%nat;
     time_time := fun _ => 1700000000;
     which := fun _ => true;
     os_name := "posix";
     module_dir := "/app";
     tempdir := "/tmp";
     resolve_posix := fun p => p;
     is_absolute := fun _ => true;
     repr_float := decimal_repr;
     repr_pow2_12 := fun _ => "1.0";
     float_of_string := fun _ => None;
     json_loads := fun _ => None;
     safe_filename := fun s => s |}.

Lemma studio_shaped (fail_suffix : string) : @Duration.probe_answers_shaped (studio fail_suffix).
Proof. intros w argv c written j _ Hj. discriminate Hj. Qed.

Definition two_pairs : list MediaPair :=
  [mkMediaPair "0001" "image" "/proj/0001_a.jpg" "/proj/0001_a.mp3";
   mkMediaPair "0002" "image" "/proj/0002_b.jpg" "/proj/0002_b.mp3"].

(** An engine over [pairs], its capability dicts empty. *)
Definition engine_over (pairs : list MediaPair) : MontageEngine.t :=
  {| project_folder := "/proj";
     audio_variants_folder := "/proj/audio_variants";
     renders_folder := "/proj/renders";
     temp_folder := "/tmp/automontage/session_1";
     media_pairs := pairs;
     gpu_support := ∅;
     filter_generator := FilterGenerator.mk ∅ |}.

Definition default_export : ExportSettings :=
  {| resolution := "1920x1080"; custom_width := 1920; custom_height := 1080;
     fps := 30; bitrate := 8; codec := "h264";
     quality := mkVideoQuality "medium" 23 "high" "4.2" "yuv420p" "bt709" "tv";
     use_gpu := true; gpu_type := "auto"; audio_bitrate := 192; audio_codec := "aac";
     container := "mp4" |}.

Definition no_overlays : OverlaySettings :=
  {| enabled := false; folder := ""; files := []; blend_mode := "screen";
     opacity := 100; randomize := false; position := "center"; scale := 100;
     rotation := 0; animate := false; animation_type := "fade" |}.

Definition logo_overlay : OverlaySettings :=
  {| enabled := true; folder := "/ov"; files := ["logo.png"]; blend_mode := "screen";
     opacity := 100; randomize := false; position := "center"; scale := 100;
     rotation := 0; animate := false; animation_type := "fade" |}.

(** A channel with the default export and effect settings. *)
Definition channel_with (ov : OverlaySettings) : Channel :=
  mkChannel "main" default_export default_effects ov.

(** The disk before the render: the media of the two pairs and the overlay
    asset. *)
Definition start : World :=
  mkWorld (list_to_map [("/proj/0001_a.jpg", "jpg"); ("/proj/0001_a.mp3", "mp3");
                        ("/proj/0002_b.jpg", "jpg"); ("/proj/0002_b.mp3", "mp3");
                        ("/ov/logo.png", "png")]) [] 0.



(** A machine like the studio whose probe prints a document that is
    not an object: a bare number. *)
Definition misshapen : Platform :=
  {| process := fun _ argv => Some (mkCompleted 0 "1" "", [(last_arg argv, "data")]);
     entropy := fun _ => 0%nat;
     time_time := fun _ => 1700000000;
     which := fun _ => true;
     os_name := "posix";
     module_dir := "/app";
     tempdir := "/tmp";
     resolve_posix := fun p => p;
     is_absolute := fun _ => true;
     repr_float := decimal_repr;
     repr_pow2_12 := fun _ => "1.0";
     float_of_string := fun _ => None;
     json_loads := fun _ => Some (JNum 1);
     safe_filename := fun s => s |}.

(** C10 fails on the code as stated: on that machine the membership test
    ['format' in info] raises, [get_duration] raises [TypeError], and the
    channel render raises with it instead of rendering 10-second clips. *)
Lemma duration_probe_raises_counterexample :
  (@get_duration misshapen "/proj/0001_a.mp3" start).1 = Raise "TypeError"
  /\ (@generate_channel_montage misshapen (engine_over two_pairs)
        (channel_with no_overlays) false start).1 = Raise "TypeError".
Proof. split; vm_compute; reflexivity. Qed.

End Rendering.

(** ** The post-steps of the assembly *)

Module Assembly.
Import FFmpegUtils MontageEngine.

(** *** Relations every step of a computation keeps *)

Section Keeps.
Context `{Platform}.
Variable R : World -> World -> Prop.
Variable ok : list string -> Prop.
Hypothesis R_refl : forall w, R w w.
Hypothesis R_trans : forall a b c, R a b -> R b c -> R a c.
Hypothesis R_launch :
  forall w argv written,
    ok argv ->
    R w (mkWorld (foldr (fun kv d => <[kv.1 := kv.2]> d) (disk w) written)
                 (argv :: spawned w) (drawn w)).

(** Whatever [m] does, returning or raising, the worlds before and after
    are related. *)
Definition keeps {A} (m : M World A) : Prop :=
  forall w r w', m w = (r, w') -> R w w'.

Lemma keeps_ret {A} (a : A) : keeps (ret a).
Proof. intros w r w' [= _ <-]. apply R_refl. Qed.

Lemma keeps_raise {A} (e : string) : keeps (@raise World A e).
Proof. intros w r w' [= _ <-]. apply R_refl. Qed.

Lemma keeps_gets {A} (f : World -> A) : keeps (gets f).
Proof. intros w r w' [= _ <-]. apply R_refl. Qed.

Lemma keeps_bind {A B} (m : M World A) (k : A -> M World B) :
  keeps m -> (forall a, keeps (k a)) -> keeps (bind m k).
Proof.
  intros Hm Hk w r w'. unfold bind.
  destruct (m w) as [[a|e] w1] eqn:E; intros E'.
  - eapply R_trans; [eapply Hm; exact E | eapply Hk; exact E'].
  - injection E' as _ <-. eapply Hm; exact E.
Qed.

Lemma keeps_try {A} (m : M World A) (h : string -> M World A) :
  keeps m -> (forall e, keeps (h e)) -> keeps (try_except m h).
Proof.
  intros Hm Hh w r w'. unfold try_except.
  destruct (m w) as [[a|e] w1] eqn:E; intros E'.
  - injection E' as _ <-. eapply Hm; exact E.
  - eapply R_trans; [eapply Hm; exact E | eapply Hh; exact E'].
Qed.

Lemma keeps_run (argv : list string) : ok argv -> keeps (subprocess_run argv).
Proof.
  intros Hok w r w'. unfold subprocess_run.
  destruct (process w argv) as [[c written]|]; intros [= _ <-].
  - apply R_launch; exact Hok.
  - apply (R_launch w argv [] Hok).
Qed.

Lemma keeps_path_exists (p : string) : keeps (path_exists p).
Proof. apply keeps_gets. Qed.

Lemma keeps_get_ffmpeg_path : keeps get_ffmpeg_path.
Proof.
  intros w r w' E. destruct (Duration.get_ffmpeg_path_pure w) as [p Ep].
  rewrite Ep in E. injection E as _ <-. apply R_refl.
Qed.

Lemma keeps_get_ffprobe_path : keeps get_ffprobe_path.
Proof.
  intros w r w' E. destruct (Duration.get_ffprobe_path_pure w) as [p Ep].
  rewrite Ep in E. injection E as _ <-. apply R_refl.
Qed.

Lemma keeps_py_in (k : string) (v : json) : keeps (py_in k v).
Proof. destruct v; first [apply keeps_ret | apply keeps_raise]. Qed.

Lemma keeps_py_getitem (v : json) (k : string) : keeps (py_getitem v k).
Proof.
  destruct v; try apply keeps_raise. simpl.
  destruct (assoc k d); [apply keeps_ret | apply keeps_raise].
Qed.

Lemma keeps_py_iter (v : json) : keeps (py_iter v).
Proof. destruct v; first [apply keeps_ret | apply keeps_raise]. Qed.

Lemma keeps_py_float (v : json) : keeps (py_float v).
Proof.
  destruct v; try first [apply keeps_ret | apply keeps_raise]. simpl.
  destruct (float_of_string s); [apply keeps_ret | apply keeps_raise].
Qed.

Lemma keeps_and_then (a : bool) (b : M World bool) : keeps b -> keeps (and_then a b).
Proof. intros Hb. destruct a; [exact Hb | apply keeps_ret]. Qed.

Lemma keeps_try_float_duration (v : json) : keeps (try_float_duration v).
Proof.
  apply keeps_try; [| intros; apply keeps_ret].
  apply keeps_bind; [apply keeps_py_getitem | intros x].
  apply keeps_bind; [apply keeps_py_float | intros q; apply keeps_ret].
Qed.

Lemma keeps_scan_streams (l : list json) : keeps (scan_streams l).
Proof.
  induction l as [|v l IH]; [apply keeps_ret|].
  cbn [scan_streams]. apply keeps_bind; [apply keeps_py_in | intros [|]; [| exact IH]].
  apply keeps_bind; [apply keeps_try_float_duration | intros [q|]];
    [apply keeps_ret | exact IH].
Qed.

Hypothesis ok_probe :
  forall p f, ok [p; "-v"; "quiet"; "-print_format"; "json";
                  "-show_format"; "-show_streams"; f].
Hypothesis ok_null : forall p f, ok [p; "-i"; f; "-f"; "null"; "-"].

Lemma keeps_get_media_info (file_path : string) : keeps (get_media_info file_path).
Proof.
  apply keeps_bind; [apply keeps_get_ffprobe_path | intros p].
  apply keeps_bind.
  - apply keeps_try; [| intros; apply keeps_ret].
    apply keeps_bind; [apply keeps_run, ok_probe | intros c].
    destruct (returncode c =? 0); [| apply keeps_ret].
    destruct (json_loads (stdout c)); [apply keeps_ret | apply keeps_raise].
  - intros [j|]; apply keeps_ret.
Qed.

Lemma keeps_get_duration (file_path : string) : keeps (get_duration file_path).
Proof.
  apply keeps_bind; [apply keeps_get_media_info | intros info].
  apply keeps_bind.
  { apply keeps_and_then. apply keeps_bind; [apply keeps_py_in | intros has].
    apply keeps_and_then. apply keeps_bind; [apply keeps_py_getitem | intros fmt].
    apply keeps_py_in. }
  intros c1. apply keeps_bind.
  { destruct c1; [| apply keeps_ret].
    apply keeps_bind; [apply keeps_py_getitem | intros fmt].
    apply keeps_try_float_duration. }
  intros [q|]; [apply keeps_ret|].
  apply keeps_bind; [apply keeps_and_then, keeps_py_in | intros c2].
  apply keeps_bind.
  { destruct c2; [| apply keeps_ret].
    apply keeps_bind; [apply keeps_py_getitem | intros streams].
    apply keeps_bind; [apply keeps_py_iter | intros items].
    apply keeps_scan_streams. }
  intros [q|]; [apply keeps_ret|].
  apply keeps_bind; [apply keeps_get_ffmpeg_path | intros ffmpeg].
  apply keeps_bind.
  - apply keeps_try; [| intros; apply keeps_ret].
    apply keeps_bind; [apply keeps_run, ok_null | intros c].
    destruct (search_duration (stderr c)) as [[[[hh mm] ss] cs]|]; apply keeps_ret.
  - intros [q|]; apply keeps_ret.
Qed.

End Keeps.

(** *** Overlay failure *)

(** No file on disk in [w] is missing in [w']. *)
Definition grows (w w' : World) : Prop :=
  forall p, is_Some (disk w !! p) -> is_Some (disk w' !! p).

(** The encoder that writes [temp_output] never exits with code 0. *)
Definition encoder_fails `{Platform} (temp_output : string) : Prop :=
  forall w argv,
    last argv = Some temp_output ->
    match process w argv with
    | Some (c, _) => returncode c <> 0
    | None => True
    end.

(** Every configured overlay asset is on disk. *)
Definition assets_on_disk (ov : OverlaySettings) (w : World) : Prop :=
  forall f, f ∈ files ov -> is_Some (disk w !! path_join (folder ov) f).




Section Post_steps.
Context `{Platform}.

Lemma grows_refl (w : World) : grows w w.
Proof. intros p Hp. exact Hp. Qed.

Lemma grows_trans (a b c : World) : grows a b -> grows b c -> grows a c.
Proof. intros Hab Hbc p Hp. apply Hbc, Hab, Hp. Qed.

Lemma grows_launch (w : World) (argv : list string) (written : list (string * string)) :
  True ->
  grows w (mkWorld (foldr (fun kv d => <[kv.1 := kv.2]> d) (disk w) written)
                   (argv :: spawned w) (drawn w)).
Proof.
  intros _ p Hp. cbn [disk]. induction written as [|kv written IH]; [exact Hp|].
  cbn [foldr]. destruct (decide (kv.1 = p)) as [->|Hne].
  - rewrite lookup_insert_eq. eauto.
  - rewrite lookup_insert_ne by exact Hne. exact IH.
Qed.

(** Probing a duration removes no file. *)
Lemma get_duration_grows (file_path : string) (w w' : World) (r : result Q) :
  get_duration file_path w = (r, w') -> grows w w'.
Proof.
  apply (keeps_get_duration grows (fun _ => True) grows_refl grows_trans grows_launch);
    intros; exact I.
Qed.

(** The overlay step when its encoder fails: it answers [false] and the
    video it was given is still on disk. *)
Lemma apply_overlays_failure (self : t) (video_path : string) (ov : OverlaySettings)
    (w : World) :
  encoder_fails (with_suffix video_path ".overlay.mp4") ->
  files ov <> [] ->
  assets_on_disk ov w ->
  is_Some (disk w !! video_path) ->
  exists w',
    _apply_overlays self video_path ov w = (Return false, w')
    /\ is_Some (disk w' !! video_path).
Proof.
  intros Hfail Hne Hassets Hvideo. unfold _apply_overlays.
  destruct (files ov) as [|first rest] eqn:Hfiles; [congruence|].
  rewrite <- Hfiles.
  (* the asset chosen *)
  assert (Hpick : exists f w1,
    (if randomize ov then random_choice (files ov) else ret first) w = (Return f, w1)
    /\ f ∈ files ov /\ disk w1 = disk w).
  { destruct (randomize ov).
    - destruct (Selector.random_choice_member (files ov) w) as (f & E & Hf);
        [rewrite Hfiles; discriminate|].
      exists f, (Selector.after_draw w). split; [exact E|]. split; [exact Hf | reflexivity].
    - exists first, w. split; [reflexivity|]. split; [| reflexivity].
      rewrite Hfiles. apply list_elem_of_here. }
  destruct Hpick as (f & w1 & Ef & Hf & Hd1).
  rewrite (bind_return _ _ _ _ _ Ef).
  unfold bind at 1. unfold path_exists at 1. unfold gets at 1.
  rewrite Hd1. rewrite bool_decide_eq_true_2 by (apply Hassets; exact Hf).
  cbn [negb].
  destruct (Duration.get_ffmpeg_path_pure w1) as [ffmpeg Ep].
  rewrite (bind_return _ _ _ _ _ Ep).
  assert (Hvideo1 : is_Some (disk w1 !! video_path)) by (rewrite Hd1; exact Hvideo).
  unfold try_except. unfold bind at 1.
  destruct (get_duration video_path w1) as [[d|e] w2] eqn:Ed;
    pose proof (get_duration_grows _ _ _ _ Ed) as Hg.
  2: { exists w2. split; [reflexivity | apply Hg, Hvideo1]. }
  unfold bind at 1. unfold subprocess_run.
  set (cmd := overlay_cmd _ _ _ _ _).
  pose proof (Hfail w2 cmd eq_refl) as Hrc.
  destruct (process w2 cmd) as [[c written]|].
  - destruct (Z.eqb_spec (returncode c) 0) as [E0|_]; [contradiction|].
    eexists. split; [reflexivity|].
    apply (grows_launch w2 cmd written I), Hg, Hvideo1.
  - eexists. split; [reflexivity|]. cbn [disk]. apply Hg, Hvideo1.
Qed.

(** The black-frame step always returns. *)
Lemma add_black_frame_total (self : t) (video_path : string) (ex : ExportSettings)
    (w : World) :
  exists ffmpeg w',
    _add_black_frame self video_path ex w = (Return tt, w')
    /\ spawned w'
       = black_frame_cmd ffmpeg video_path (with_suffix video_path ".black.mp4")
           (get_resolution ex) :: spawned w.
Proof.
  unfold _add_black_frame.
  destruct (Duration.get_ffmpeg_path_pure w) as [ffmpeg Ep].
  rewrite (bind_return _ _ _ _ _ Ep). exists ffmpeg.
  unfold try_except, bind, subprocess_run.
  destruct (process w _) as [[c written]|]; [| eexists; split; reflexivity].
  destruct (returncode c =? 0); [| eexists; split; reflexivity].
  unfold unlink. cbn [disk spawned drawn].
  destruct (_ !! video_path); [| eexists; split; reflexivity].
  unfold rename. cbn [disk spawned drawn].
  destruct (_ !! with_suffix video_path ".black.mp4"); eexists; split; reflexivity.
Qed.

(** *** The assembly with an overlay that cannot be composited *)

(** Steps that remove no file. *)
Lemma safe_ret {A} (a : A) : keeps grows (ret a).
Proof. apply keeps_ret, grows_refl. Qed.

Lemma safe_bind {A B} (m : M World A) (k : A -> M World B) :
  keeps grows m -> (forall a, keeps grows (k a)) -> keeps grows (bind m k).
Proof. apply keeps_bind, grows_trans. Qed.

Lemma safe_try {A} (m : M World A) (h : string -> M World A) :
  keeps grows m -> (forall e, keeps grows (h e)) -> keeps grows (try_except m h).
Proof. apply keeps_try, grows_trans. Qed.

Lemma safe_run (argv : list string) : keeps grows (subprocess_run argv).
Proof. apply (keeps_run grows (fun _ => True) grows_launch). exact I. Qed.

Lemma safe_path_exists (p : string) : keeps grows (path_exists p).
Proof. apply keeps_path_exists, grows_refl. Qed.

Lemma safe_get_ffmpeg_path : keeps grows get_ffmpeg_path.
Proof. apply keeps_get_ffmpeg_path, grows_refl. Qed.

Lemma safe_write_file (p text : string) : keeps grows (write_file p text).
Proof.
  intros w r w' [= _ <-] q Hq. cbn [disk].
  destruct (decide (p = q)) as [->|Hne].
  - rewrite lookup_insert_eq. eauto.
  - rewrite lookup_insert_ne by exact Hne. exact Hq.
Qed.

Lemma safe_st_size (p : string) : keeps grows (st_size p).
Proof.
  intros w r w'. unfold st_size. destruct (disk w !! p); intros [= _ <-]; apply grows_refl.
Qed.

Lemma safe_list_file_lines (paths : list string) : keeps grows (list_file_lines paths).
Proof.
  induction paths as [|p paths IH]; [apply safe_ret|].
  cbn [list_file_lines]. apply safe_bind; [apply safe_path_exists | intros ex].
  apply safe_bind; [exact IH | intros tl].
  destruct ex; [| apply safe_ret].
  destruct (is_absolute p && String.eqb os_name "nt"); apply safe_ret.
Qed.

Lemma safe_list_files (self : t) (files : list string) (output_dir : string) :
  keeps grows (_create_video_list_file self files output_dir)
  /\ keeps grows (_create_audio_list_file self files output_dir).
Proof.
  split.
  - apply safe_bind; [apply safe_list_file_lines | intros lines].
    apply safe_bind; [apply safe_write_file | intros; apply safe_ret].
  - apply safe_bind; [apply safe_list_file_lines | intros lines].
    apply safe_bind; [apply safe_write_file | intros; apply safe_ret].
Qed.

Lemma safe_merge_audio_alternative (self : t) (audio_files : list string)
    (output_dir : string) :
  keeps grows (_merge_audio_alternative self audio_files output_dir).
Proof.
  unfold _merge_audio_alternative.
  destruct audio_files as [|a [|b rest]]; try apply safe_ret.
  apply safe_bind; [apply safe_get_ffmpeg_path | intros ffmpeg].
  apply safe_try; [| intros; apply safe_ret].
  apply safe_bind; [apply safe_run | intros result].
  apply safe_bind.
  - apply keeps_and_then; [apply grows_refl | apply safe_path_exists].
  - intros [|]; apply safe_ret.
Qed.

Lemma safe_apply_transitions (self : t) (video_path audio_path output_path : string)
    (clips : list VideoClip) (channel : Channel) :
  keeps grows (_apply_transitions self video_path audio_path output_path clips channel).
Proof.
  unfold _apply_transitions.
  apply safe_bind; [apply safe_get_ffmpeg_path | intros ffmpeg].
  apply safe_try; [| intros; apply safe_ret].
  apply safe_bind; [apply safe_run | intros result; apply safe_ret].
Qed.

Lemma grows_assets (ov : OverlaySettings) (w w' : World) :
  grows w w' -> assets_on_disk ov w -> assets_on_disk ov w'.
Proof. intros Hg Ha f Hf. apply Hg, Ha, Hf. Qed.

(** A step that cannot answer [True] from a world holding the overlay
    assets. *)
Definition never_true (ov : OverlaySettings) (m : M World bool) : Prop :=
  forall w w', assets_on_disk ov w -> m w = (Return true, w') -> False.

Lemma never_true_false (ov : OverlaySettings) : never_true ov (ret false).
Proof. intros w w' _ E. discriminate E. Qed.

Lemma never_true_bind {A} (ov : OverlaySettings) (m : M World A) (k : A -> M World bool) :
  keeps grows m -> (forall a, never_true ov (k a)) -> never_true ov (bind m k).
Proof.
  intros Hm Hk w w' Ha E. apply bind_returns in E as (a & w1 & E1 & E2).
  apply (Hk a w1 w'); [| exact E2]. eapply grows_assets; [| exact Ha].
  eapply Hm. exact E1.
Qed.

(** The overlay asset is neither the video nor its black-frame
    temporary. *)
Definition assets_apart (ov : OverlaySettings) (video_path : string) : Prop :=
  forall f, f ∈ files ov ->
    path_join (folder ov) f <> video_path
    /\ path_join (folder ov) f <> with_suffix video_path ".black.mp4".

(** The black-frame step leaves the overlay assets on disk. *)
Lemma add_black_frame_assets (self : t) (video_path : string) (ex : ExportSettings)
    (ov : OverlaySettings) (w w' : World) (r : result unit) :
  assets_apart ov video_path ->
  assets_on_disk ov w ->
  _add_black_frame self video_path ex w = (r, w') ->
  assets_on_disk ov w'.
Proof.
  intros Hapart Ha. unfold _add_black_frame.
  destruct (Duration.get_ffmpeg_path_pure w) as [ffmpeg Ep].
  rewrite (bind_return _ _ _ _ _ Ep).
  unfold try_except, bind, subprocess_run.
  destruct (process w _) as [[c written]|].
  2: { intros [= _ <-]. exact Ha. }
  set (w1 := mkWorld _ _ _).
  assert (Ha1 : assets_on_disk ov w1).
  { eapply grows_assets; [| exact Ha]. apply grows_launch. exact I. }
  destruct (returncode c =? 0); [| intros [= _ <-]; exact Ha1].
  unfold unlink. destruct (disk w1 !! video_path) as [old|]; [| intros [= _ <-]; exact Ha1].
  set (w2 := mkWorld (delete video_path (disk w1)) _ _).
  assert (Ha2 : assets_on_disk ov w2).
  { intros f Hf. unfold w2. cbn [disk].
    rewrite lookup_delete_ne by (intros E; apply (proj1 (Hapart f Hf)); symmetry; exact E).
    apply Ha1, Hf. }
  unfold rename. destruct (disk w2 !! _) as [data|]; [| intros [= _ <-]; exact Ha2].
  intros [= _ <-]. intros f Hf. cbn [disk].
  rewrite lookup_insert_ne by (intros E; apply (proj1 (Hapart f Hf)); symmetry; exact E).
  rewrite lookup_delete_ne by (intros E; apply (proj2 (Hapart f Hf)); symmetry; exact E).
  apply Ha2, Hf.
Qed.

(** With its encoder failing, the overlay step answers [False] whenever
    the assets are there. *)
Lemma apply_overlays_fails (self : t) (video_path : string) (ov : OverlaySettings)
    (w : World) :
  encoder_fails (with_suffix video_path ".overlay.mp4") ->
  files ov <> [] ->
  assets_on_disk ov w ->
  exists w', _apply_overlays self video_path ov w = (Return false, w').
Proof.
  intros Hfail Hne Hassets. unfold _apply_overlays.
  destruct (files ov) as [|first rest] eqn:Hfiles; [congruence|].
  rewrite <- Hfiles.
  assert (Hpick : exists f w1,
    (if randomize ov then random_choice (files ov) else ret first) w = (Return f, w1)
    /\ f ∈ files ov /\ disk w1 = disk w).
  { destruct (randomize ov).
    - destruct (Selector.random_choice_member (files ov) w) as (f & E & Hf);
        [rewrite Hfiles; discriminate|].
      exists f, (Selector.after_draw w). split; [exact E|]. split; [exact Hf | reflexivity].
    - exists first, w. split; [reflexivity|]. split; [| reflexivity].
      rewrite Hfiles. apply list_elem_of_here. }
  destruct Hpick as (f & w1 & Ef & Hf & Hd1).
  rewrite (bind_return _ _ _ _ _ Ef).
  unfold bind at 1. unfold path_exists at 1. unfold gets at 1.
  rewrite Hd1. rewrite bool_decide_eq_true_2 by (apply Hassets; exact Hf).
  cbn [negb].
  destruct (Duration.get_ffmpeg_path_pure w1) as [ffmpeg Ep].
  rewrite (bind_return _ _ _ _ _ Ep).
  unfold try_except. unfold bind at 1.
  destruct (get_duration video_path w1) as [[d|e] w2] eqn:Ed; [| eexists; reflexivity].
  unfold bind at 1. unfold subprocess_run.
  set (cmd := overlay_cmd _ _ _ _ _).
  pose proof (Hfail w2 cmd eq_refl) as Hrc.
  destruct (process w2 cmd) as [[c written]|]; [| eexists; reflexivity].
  destruct (Z.eqb_spec (returncode c) 0) as [E0|_]; [contradiction|].
  eexists. reflexivity.
Qed.

(** The post-steps cannot answer [True] when the overlay encoder fails. *)
Lemma finish_steps_never_true (self : t) (output_path : string) (channel : Channel)
    (success : bool) :
  encoder_fails (with_suffix output_path ".overlay.mp4") ->
  enabled (overlays channel) = true ->
  files (overlays channel) <> [] ->
  assets_apart (overlays channel) output_path ->
  never_true (overlays channel) (finish_steps self output_path channel success).
Proof.
  intros Hfail Hen Hne Hapart w w' Ha. unfold finish_steps.
  destruct success; cbn [andb]; [| intros E; discriminate E].
  rewrite Hen. destruct (files (overlays channel)) as [|f fs] eqn:Hfiles; [congruence|].
  cbn [andb]. intros E. unfold bind in E.
  destruct ((if add_black_frame (effects channel) && fade_out_to_black (effects channel)
             then _add_black_frame self output_path (export channel)
             else ret tt) w) as [[[]|e] w1] eqn:Eb; [| discriminate E].
  assert (Ha1 : assets_on_disk (overlays channel) w1).
  { destruct (_ && _).
    - eapply add_black_frame_assets; eassumption.
    - injection Eb as <-. exact Ha. }
  destruct (apply_overlays_fails self output_path (overlays channel) w1 Hfail
              ltac:(rewrite Hfiles; exact Hne) Ha1) as (w2 & E2).
  rewrite E2 in E. discriminate E.
Qed.

(** With two or more clips (or none) the assembly answers [False] when
    the overlay encoder fails. *)
Lemma combine_clips_fails (self : t) (clips : list VideoClip) (output_path : string)
    (channel : Channel) (w : World) :
  encoder_fails (with_suffix output_path ".overlay.mp4") ->
  enabled (overlays channel) = true ->
  files (overlays channel) <> [] ->
  assets_apart (overlays channel) output_path ->
  length clips <> 1%nat ->
  assets_on_disk (overlays channel) w ->
  exists w', _combine_clips self clips output_path channel w = (Return false, w').
Proof.
  intros Hfail Hen Hne Hapart Hlen Ha.
  destruct (Rendering.combine_clips_total self clips output_path channel w)
    as (ok & w' & E).
  destruct ok; [exfalso | eauto]. revert E. unfold _combine_clips.
  destruct (Duration.get_ffmpeg_path_pure w) as [ffmpeg Ep].
  rewrite (bind_return _ _ _ _ _ Ep).
  remember (map video_path clips) as vs eqn:Evs.
  remember (map audio_path clips) as aus eqn:Eaus.
  destruct clips as [|c1 [|c2 clips]]; [| exfalso; apply Hlen; reflexivity |].
  all: unfold try_except.
  all: match goal with
       | |- match ?body ?w0 with _ => _ end = _ -> _ =>
           destruct (body w0) as [[b|e] w1] eqn:EB; intros [= -> ->];
           assert (Hnever : never_true (overlays channel) body);
           [| exact (Hnever _ _ Ha EB)]
       end.
  all: apply never_true_bind; [apply safe_list_files | intros concat_list].
  all: apply never_true_bind; [apply safe_list_files | intros audio_list].
  all: apply never_true_bind; [apply safe_path_exists | intros ex].
  all: apply never_true_bind;
         [destruct ex; [apply safe_bind; [apply safe_st_size | intros; apply safe_ret]
                       | apply safe_ret] | intros empty_v].
  all: destruct empty_v; [apply never_true_false|].
  all: apply never_true_bind; [apply safe_path_exists | intros ex_a].
  all: apply never_true_bind;
         [destruct ex_a; [apply safe_bind; [apply safe_st_size | intros; apply safe_ret]
                         | apply safe_ret] | intros empty_a].
  all: destruct empty_a; [apply never_true_false|].
  all: apply never_true_bind; [apply safe_run | intros result].
  all: destruct (negb (returncode result =? 0)); [apply never_true_false|].
  all: apply never_true_bind; [apply safe_run | intros result2].
  all: apply never_true_bind;
         [destruct (negb (returncode result2 =? 0));
            [apply safe_merge_audio_alternative | apply safe_ret] | intros merged].
  all: destruct merged as [temp_audio|]; [| apply never_true_false].
  all: apply never_true_bind;
         [destruct (_ && _);
            [apply safe_apply_transitions
            | apply safe_bind; [apply safe_run | intros; apply safe_ret]]
         | intros success].
  all: apply finish_steps_never_true; assumption.
Qed.

(** C3, as the code has it. When the overlay encoder fails after the final
    output file has been produced: the overlay step leaves that file on
    disk, but it answers [False]; that answer is the result of the
    post-steps of [_combine_clips]; so the assembly of two or more clips
    answers [False] whenever the overlay assets are on disk, and the channel
    render then returns no output path. *)
Theorem overlay_failure_fails_assembly
    (self : t) (output_path : string) (channel : Channel) :
  encoder_fails (with_suffix output_path ".overlay.mp4") ->
  enabled (overlays channel) = true ->
  files (overlays channel) <> [] ->
  (forall w,
      assets_on_disk (overlays channel) w ->
      is_Some (disk w !! output_path) ->
      exists w',
        _apply_overlays self output_path (overlays channel) w = (Return false, w')
        /\ is_Some (disk w' !! output_path))
  /\ (forall w, exists w1,
        (if add_black_frame (effects channel) && fade_out_to_black (effects channel)
         then _add_black_frame self output_path (export channel)
         else ret tt) w = (Return tt, w1)
        /\ finish_steps self output_path channel true w
           = _apply_overlays self output_path (overlays channel) w1)
  /\ (forall clips w,
        length clips <> 1%nat ->
        assets_apart (overlays channel) output_path ->
        assets_on_disk (overlays channel) w ->
        exists w',
          _combine_clips self clips output_path channel w = (Return false, w'))
  /\ (forall raw (test_mode : bool) w clips mgr w1,
        validate_channel raw = channel ->
        render_clips self channel
          (if test_mode then take 1 (media_pairs self) else media_pairs self) w
        = (Return (clips, mgr), w1) ->
        length clips <> 1%nat ->
        montage_path self channel (time_time w1) = output_path ->
        assets_apart (overlays channel) output_path ->
        assets_on_disk (overlays channel) w1 ->
        exists w',
          generate_channel_montage self raw test_mode w = (Return None, w')).
Proof.
  intros Hfail Hen Hne. split; [| split; [| split]].
  - intros w Hassets Hout. apply apply_overlays_failure; assumption.
  - intros w. unfold finish_steps. rewrite Hen. cbn [andb].
    destruct (files (overlays channel)) as [|f fs] eqn:Hfiles; [congruence|].
    destruct (add_black_frame (effects channel) && fade_out_to_black (effects channel)).
    + destruct (add_black_frame_total self output_path (export channel) w)
        as (ffmpeg & w1 & E & _).
      exists w1. split; [exact E|]. rewrite (bind_return _ _ _ _ _ E). reflexivity.
    + exists w. split; reflexivity.
  - intros clips w Hlen Hapart Ha. apply combine_clips_fails; assumption.
  - intros raw test_mode w clips mgr w1 Hval Er Hlen Hpath Hapart Ha.
    unfold generate_channel_montage. rewrite Hval.
    destruct (if test_mode then take 1 (media_pairs self) else media_pairs self)
      as [|p0 ps] eqn:Hpairs; [eexists; reflexivity|].
    rewrite (bind_return _ _ _ _ _ Er). cbn [fst].
    destruct clips as [|c cs] eqn:Hclips; [eexists; reflexivity|].
    rewrite <- Hclips in *.
    unfold bind at 1. unfold gets at 1. rewrite Hpath.
    destruct (combine_clips_fails self clips output_path channel w1 Hfail Hen Hne Hapart
                Hlen Ha) as (w2 & Ec).
    rewrite (bind_return _ _ _ _ _ Ec).
    destruct (Rendering.cleanup_total self clips w2) as (w3 & Ecl).
    rewrite (bind_return _ _ _ _ _ Ecl). eexists. reflexivity.
Qed.

End Post_steps.

(** C3 fails on the code as stated: the two clips are assembled, the
    overlay encoder fails, the channel render returns no output path; the
    assembled file is still on disk. *)
Lemma overlay_failure_counterexample :
  (@generate_channel_montage (Rendering.studio ".overlay.mp4")
     (Rendering.engine_over Rendering.two_pairs)
     (Rendering.channel_with Rendering.logo_overlay) false Rendering.start).1
  = Return None
  /\ is_Some (disk (world_after
                      (@generate_channel_montage (Rendering.studio ".overlay.mp4")
                         (Rendering.engine_over Rendering.two_pairs)
                         (Rendering.channel_with Rendering.logo_overlay) false)
                      Rendering.start)
              !! "/proj/renders/main_1700000000.mp4").
Proof.
  split; [vm_compute; reflexivity|].
  exists "data". vm_compute. reflexivity.
Qed.

(** The assembled montage of the concrete studio, before the overlay. *)
Definition assembled : World :=
  mkWorld (<["/proj/renders/main_1700000000.mp4" := "data"]> (disk Rendering.start)) [] 0.

Lemma last_arg_last (argv : list string) (x : string) :
  last argv = Some x -> Rendering.last_arg argv = x.
Proof.
  unfold Rendering.last_arg. induction argv as [|a [|b argv] IH]; intros E.
  - discriminate E.
  - injection E as <-. reflexivity.
  - apply IH. exact E.
Qed.

Lemma overlay_failure_fails_assembly_witness :
  exists w',
    @_apply_overlays (Rendering.studio ".overlay.mp4")
      (Rendering.engine_over Rendering.two_pairs)
      "/proj/renders/main_1700000000.mp4" Rendering.logo_overlay assembled
    = (Return false, w')
    /\ is_Some (disk w' !! "/proj/renders/main_1700000000.mp4").
Proof.
  apply (proj1 (@overlay_failure_fails_assembly (Rendering.studio ".overlay.mp4")
                  (Rendering.engine_over Rendering.two_pairs)
                  "/proj/renders/main_1700000000.mp4"
                  (Rendering.channel_with Rendering.logo_overlay)
                  ltac:(intros w argv Hlast; cbn [process Rendering.studio];
                        rewrite (last_arg_last _ _ Hlast); vm_compute; discriminate)
                  eq_refl ltac:(discriminate))).
  - intros f Hf. apply list_elem_of_singleton in Hf as ->.
    exists "png". vm_compute. reflexivity.
  - exists "data". vm_compute. reflexivity.
Defined.

(** *** The black frame *)

Section Black_frame.
Context `{Platform}.













End Black_frame.


End Assembly.

(* ===================================================================== *)
(** * Part III: further properties of the programs                        *)
(* ===================================================================== *)

(** ** Validation of the settings *)

Module Validation.

Lemma clampZ_range (lo hi x : Z) : lo <= hi -> lo <= clampZ lo hi x <= hi.
Proof. unfold clampZ. lia. Qed.

Lemma clampZ_idem (lo hi x : Z) :
  lo <= hi -> clampZ lo hi (clampZ lo hi x) = clampZ lo hi x.
Proof. unfold clampZ. lia. Qed.

Lemma clampZ_fixed (lo hi x : Z) : lo <= x <= hi -> clampZ lo hi x = x.
Proof. unfold clampZ. lia. Qed.

Lemma Qcompare_refl (x : Q) : (x ?= x)%Q = Eq.
Proof. apply Qeq_alt. reflexivity. Qed.

(** [max(lo, min(hi, x))] gives back one of its three arguments:
    [x] itself when it lies strictly inside, else a bound. *)
Lemma clampQ_cases (lo hi x : Q) :
  (lo < hi)%Q ->
  (clampQ lo hi x = x /\ (lo < x)%Q /\ (x < hi)%Q)
  \/ clampQ lo hi x = lo \/ clampQ lo hi x = hi.
Proof.
  intros Hlt. unfold clampQ, Qminmax.Qmax, Qminmax.Qmin, GenericMinMax.gmax,
    GenericMinMax.gmin.
  destruct (hi ?= x)%Q eqn:E1.
  - right. right. rewrite (proj1 (Qlt_alt lo hi) Hlt). reflexivity.
  - right. right. rewrite (proj1 (Qlt_alt lo hi) Hlt). reflexivity.
  - destruct (lo ?= x)%Q eqn:E2.
    + right. left. reflexivity.
    + left. split; [reflexivity|]. split; [apply Qlt_alt, E2 | apply Qgt_alt, E1].
    + right. left. reflexivity.
Qed.

Lemma clampQ_range (lo hi x : Q) :
  (lo < hi)%Q -> (lo <= clampQ lo hi x <= hi)%Q.
Proof.
  intros Hlt. destruct (clampQ_cases lo hi x Hlt) as [(-> & H1 & H2) | [-> | ->]].
  - split; apply Qlt_le_weak; assumption.
  - split; [apply Qle_refl | apply Qlt_le_weak, Hlt].
  - split; [apply Qlt_le_weak, Hlt | apply Qle_refl].
Qed.

Lemma clampQ_idem (lo hi x : Q) :
  (lo < hi)%Q -> clampQ lo hi (clampQ lo hi x) = clampQ lo hi x.
Proof.
  intros Hlt.
  assert (Hlo : clampQ lo hi lo = lo).
  { unfold clampQ, Qminmax.Qmax, Qminmax.Qmin, GenericMinMax.gmax, GenericMinMax.gmin.
    rewrite (proj1 (Qgt_alt hi lo) Hlt), Qcompare_refl. reflexivity. }
  assert (Hhi : clampQ lo hi hi = hi).
  { unfold clampQ, Qminmax.Qmax, Qminmax.Qmin, GenericMinMax.gmax, GenericMinMax.gmin.
    rewrite Qcompare_refl, (proj1 (Qlt_alt lo hi) Hlt). reflexivity. }
  destruct (clampQ_cases lo hi x Hlt) as [(E & H1 & H2)|[E|E]]; rewrite E.
  - unfold clampQ, Qminmax.Qmax, Qminmax.Qmin, GenericMinMax.gmax, GenericMinMax.gmin.
    rewrite (proj1 (Qgt_alt hi x) H2), (proj1 (Qlt_alt lo x) H1). reflexivity.
  - exact Hlo.
  - exact Hhi.
Qed.

Lemma keep_valid_idem (valid l : list string) :
  keep_valid valid (keep_valid valid l) = keep_valid valid l.
Proof.
  unfold keep_valid. induction l as [|x l IH]; [reflexivity|].
  cbn [List.filter]. destruct (str_in x valid) eqn:E; [| exact IH].
  cbn [List.filter]. rewrite E, IH. reflexivity.
Qed.



(** The transitions [_validate_effect_lists] leaves. *)
Definition kept_transitions (l : list string) : list string :=
  let l' := keep_valid valid_transitions l in
  match l' with [] => ["fade"] | _ => l' end.

Lemma kept_transitions_idem (l : list string) :
  kept_transitions (kept_transitions l) = kept_transitions l.
Proof.
  unfold kept_transitions. cbn zeta.
  destruct (keep_valid valid_transitions l) as [|t ts] eqn:E; [reflexivity|].
  rewrite <- E, keep_valid_idem, E. reflexivity.
Qed.

Lemma validate_effects_idem (s : EffectSettings) :
  validate_effects (validate_effects s) = validate_effects s.
Proof.
  unfold validate_effects at 1 3.
  destruct (validate_effects s) eqn:E. unfold validate_effects in E.
  injection E as <- <- <- <- <- <- <- <- <- <- <- <- <- <- <- <- <- <- <- <-
                  <- <- <- <- <- <- <- <- <- <- <- <- <- <- <- <- <- <- <- <-.
  cbn -[clampZ clampQ keep_valid valid_transitions].
  f_equal; try (apply clampZ_idem; lia); try (apply clampQ_idem; reflexivity);
    try apply keep_valid_idem.
  apply kept_transitions_idem.
Qed.

Lemma choice_idem (valid : list string) (dflt x : string) :
  str_in dflt valid = true ->
  (let y := if str_in x valid then x else dflt in
   (if str_in y valid then y else dflt) = y).
Proof.
  intros Hd. cbn zeta. destruct (str_in x valid) eqn:E; [rewrite E | rewrite Hd];
    reflexivity.
Qed.

Lemma validate_quality_idem (q : VideoQuality) :
  validate_quality (validate_quality q) = validate_quality q.
Proof.
  unfold validate_quality. cbn -[clampZ str_in].
  rewrite clampZ_idem by lia.
  rewrite (choice_idem _ "medium" (preset q)) by reflexivity.
  rewrite (choice_idem _ "high" (profile q)) by reflexivity.
  reflexivity.
Qed.

Lemma validate_export_idem (e : ExportSettings) :
  validate_export (validate_export e) = validate_export e.
Proof.
  unfold validate_export. cbn -[clampZ validate_quality].
  rewrite validate_quality_idem, !clampZ_idem by lia. reflexivity.
Qed.

Lemma validate_overlays_idem (o : OverlaySettings) :
  validate_overlays (validate_overlays o) = validate_overlays o.
Proof.
  unfold validate_overlays. cbn -[clampZ str_in].
  rewrite !clampZ_idem by lia.
  rewrite (choice_idem _ "screen" (blend_mode o)) by reflexivity.
  rewrite (choice_idem _ "center" (position o)) by reflexivity.
  reflexivity.
Qed.

(** X1. [Channel.validate] is idempotent: validating a channel that has
    already been validated changes none of its settings. *)
Theorem validate_channel_idempotent (c : Channel) :
  validate_channel (validate_channel c) = validate_channel c.
Proof.
  unfold validate_channel. cbn [name export effects overlays].
  rewrite validate_export_idem, validate_effects_idem, validate_overlays_idem.
  reflexivity.
Qed.

Lemma choice_member (valid : list string) (dflt x : string) :
  dflt ∈ valid -> (if str_in x valid then x else dflt) ∈ valid.
Proof.
  intros Hd. unfold str_in. destruct (bool_decide_reflect (x ∈ valid)); assumption.
Qed.

(** X2. After [Channel.validate] every bounded setting lies inside its
    range: the export sizes, rates and quality, the effect intensities and
    durations, the overlay geometry; and the preset, profile, blend mode
    and position are among the accepted names. *)
Theorem validated_channel_in_range (c : Channel) :
  let e := export (validate_channel c) in
  let q := quality e in
  let s := effects (validate_channel c) in
  let o := overlays (validate_channel c) in
  (320 <= custom_width e <= 7680 /\ 240 <= custom_height e <= 4320
   /\ 1 <= fps e <= 120 /\ 1 <= bitrate e <= 100 /\ 64 <= audio_bitrate e <= 320)
  /\ (0 <= crf q <= 51
      /\ preset q ∈ ["ultrafast"; "superfast"; "veryfast"; "faster"; "fast";
                     "medium"; "slow"; "slower"; "veryslow"]
      /\ profile q ∈ ["baseline"; "main"; "high"])
  /\ (0 <= ken_burns_intensity s <= 100 /\ 0 <= rotation_angle s <= 90
      /\ (0 <= kb_smooth_factor s <= 1)%Q
      /\ ((1 # 10) <= transition_duration s <= 5)%Q
      /\ (0 <= trans_overlap s <= 1)%Q
      /\ ((1 # 10) <= fade_in_duration s <= 5)%Q
      /\ ((1 # 10) <= fade_out_duration s <= 5)%Q
      /\ 0 <= vignette_intensity s <= 100 /\ 0 <= grain_intensity s <= 100
      /\ 0 <= blur_intensity s <= 100 /\ 0 <= scale_amplitude s <= 100
      /\ 100 <= zoom_burst_start s <= 300 /\ 0 <= zoom_burst_decay s <= 100
      /\ 0 <= motion_intensity s <= 100 /\ 0 <= effect_percent s <= 100
      /\ 1 <= effect_every s <= 10)
  /\ (0 <= opacity o <= 100 /\ 10 <= scale o <= 200 /\ -180 <= rotation o <= 180
      /\ blend_mode o ∈ ["normal"; "screen"; "overlay"; "multiply"; "add";
                         "lighten"; "darken"]
      /\ position o ∈ ["center"; "top-left"; "top-right"; "bottom-left";
                       "bottom-right"]).
Proof.
  cbn -[clampZ clampQ str_in keep_valid Qle Z.le].
  repeat match goal with
         | |- (_ <= clampQ _ _ _ <= _)%Q => apply clampQ_range; reflexivity
         | |- _ <= clampZ _ _ _ <= _ => apply clampZ_range; lia
         | |- _ ∈ _ => apply choice_member; set_solver
         | |- _ /\ _ => split
         end.
Qed.


(** X4. The frame size of a validated export is always between 320x240
    and 7680x4320, whatever the resolution name and the custom sizes
    were. *)
Theorem validated_resolution_in_bounds (e : ExportSettings) :
  let r := get_resolution (validate_export e) in
  320 <= r.1 <= 7680 /\ 240 <= r.2 <= 4320.
Proof.
  cbn zeta. unfold get_resolution. cbn [validate_export resolution custom_width custom_height].
  repeat match goal with
         | |- context [String.eqb ?a ?b] => destruct (String.eqb a b)
         end;
    cbn [fst snd]; unfold clampZ; lia.
Qed.

End Validation.

(** ** Decimal text *)

Module Decimal.
Import FFmpegUtils Converters.

(** Every character of [s] is an ASCII digit. *)
Fixpoint all_digits (s : string) : Prop :=
  match s with
  | EmptyString => True
  | String c s' => is_Some (digit c) /\ all_digits s'
  end.

(** [s] does not start with a digit. *)
Definition no_digit_ahead (s : string) : Prop :=
  match s with
  | EmptyString => True
  | String c _ => digit c = None
  end.

Lemma append_nil_r (s : string) : s +:+ "" = s.
Proof.
  induction s as [|c s IH]; [reflexivity|].
  change (String c (s +:+ "") = String c s). f_equal. exact IH.
Qed.

Lemma append_assoc (a b c : string) : (a +:+ b) +:+ c = a +:+ (b +:+ c).
Proof.
  induction a as [|x a IH]; [reflexivity|].
  change (String x ((a +:+ b) +:+ c) = String x (a +:+ (b +:+ c))). f_equal. exact IH.
Qed.

(** A literal is stripped from the text it starts. *)
Lemma strip_app (lit s : string) : strip lit (lit +:+ s) = Some s.
Proof.
  induction lit as [|c lit IH]; [reflexivity|].
  change (strip (String c lit) (String c (lit +:+ s)) = Some s).
  cbn [strip]. rewrite Ascii.eqb_refl. exact IH.
Qed.

Lemma digit_pretty_N_char (d : N) :
  (d < 10)%N -> digit (pretty_N_char d) = Some (Z.of_N d).
Proof.
  intros Hd.
  assert (d = 0 \/ d = 1 \/ d = 2 \/ d = 3 \/ d = 4 \/ d = 5 \/ d = 6 \/ d = 7
          \/ d = 8 \/ d = 9)%N as H by lia.
  repeat destruct H as [->|H]; try subst d; reflexivity.
Qed.

Lemma pretty_N_go_app (x : N) (s1 s2 : string) :
  pretty_N_go x s1 +:+ s2 = pretty_N_go x (s1 +:+ s2).
Proof.
  revert s1. induction (N.lt_wf_0 x) as [x _ IH]; intros s1.
  destruct (N.eq_dec x 0%N) as [->|Hx]; [rewrite !pretty_N_go_0; reflexivity|].
  rewrite (pretty_N_go_step x s1), (pretty_N_go_step x (s1 +:+ s2)) by lia.
  rewrite IH by (apply N.div_lt; lia). reflexivity.
Qed.

Lemma pretty_N_go_digits (x : N) (s : string) :
  all_digits s -> all_digits (pretty_N_go x s).
Proof.
  revert s. induction (N.lt_wf_0 x) as [x _ IH]; intros s Hs.
  destruct (N.eq_dec x 0%N) as [->|Hx]; [rewrite pretty_N_go_0; exact Hs|].
  rewrite pretty_N_go_step by lia. apply IH; [apply N.div_lt; lia|].
  split; [| exact Hs]. rewrite digit_pretty_N_char by (apply N.mod_lt; lia). eauto.
Qed.

Lemma pretty_N_go_length (x : N) (s : string) :
  (String.length s <= String.length (pretty_N_go x s))%nat
  /\ ((0 < x)%N -> (String.length s < String.length (pretty_N_go x s))%nat).
Proof.
  revert s. induction (N.lt_wf_0 x) as [x _ IH]; intros s.
  destruct (N.eq_dec x 0%N) as [->|Hx]; [rewrite pretty_N_go_0; split; lia|].
  rewrite pretty_N_go_step by lia.
  destruct (IH (x `div` 10)%N ltac:(apply N.div_lt; lia)
              (String (pretty_N_char (x `mod` 10)) s)) as [Hle _].
  cbn [String.length] in Hle. split; lia.
Qed.

(** Reading back the decimal text of a positive number. *)
Lemma int_prefix_pretty_N_go (x : N) (s : string) :
  (0 < x)%N -> int_prefix (pretty_N_go x s) = Some (digits_from (Z.of_N x) s).
Proof.
  revert s. induction (N.lt_wf_0 x) as [x _ IH]; intros s Hx.
  rewrite pretty_N_go_step by exact Hx.
  pose proof (N.div_mod x 10 ltac:(lia)) as Hdm.
  pose proof (N.mod_lt x 10 ltac:(lia)) as Hm.
  destruct (N.eq_dec (x `div` 10)%N 0%N) as [Hq|Hq].
  - rewrite Hq, pretty_N_go_0. cbn [int_prefix].
    rewrite digit_pretty_N_char by exact Hm. do 2 f_equal. lia.
  - rewrite IH by (try apply N.div_lt; lia).
    cbn [digits_from]. rewrite digit_pretty_N_char by exact Hm.
    do 2 f_equal. lia.
Qed.

Lemma digits_from_stop (acc : Z) (s : string) :
  no_digit_ahead s -> digits_from acc s = (acc, s).
Proof. destruct s as [|c s]; [reflexivity|]. cbn. intros ->. reflexivity. Qed.

(** [int] reads back what [str] printed, up to the first character that is
    not a digit. *)
Lemma int_prefix_pretty (n : Z) (s : string) :
  0 <= n -> no_digit_ahead s -> int_prefix (pretty n +:+ s) = Some (n, s).
Proof.
  intros Hn Hs. destruct n as [|p|p]; [| | lia].
  - change (int_prefix (pretty 0 +:+ s)) with (Some (digits_from 0 s)).
    rewrite digits_from_stop by exact Hs. reflexivity.
  - change (pretty (Z.pos p)) with (pretty_N_go (N.pos p) "").
    rewrite pretty_N_go_app. cbn [String.append].
    rewrite int_prefix_pretty_N_go by lia.
    rewrite digits_from_stop by exact Hs. reflexivity.
Qed.

Lemma int_prefix_negative (n : Z) (s : string) :
  n < 0 -> int_prefix (pretty n +:+ s) = None.
Proof. intros Hn. destruct n as [|p|p]; try lia. reflexivity. Qed.

(** The decimal text of a natural number: digits only, and at least
    [k + 1] of them from [10 ^ k] on. *)
Lemma pretty_all_digits (n : Z) : 0 <= n -> all_digits (pretty n).
Proof.
  intros Hn. destruct n as [|p|p]; [| | lia].
  - cbn. split; [eexists; reflexivity | exact I].
  - change (pretty (Z.pos p)) with (pretty_N_go (N.pos p) "").
    apply pretty_N_go_digits. exact I.
Qed.

Lemma pretty_three_digits (n : Z) :
  100 <= n ->
  exists a b c rest,
    pretty n = String a (String b (String c rest)) /\ is_Some (digit c).
Proof.
  intros Hn. pose proof (pretty_all_digits n ltac:(lia)) as Hd.
  destruct n as [|p|p]; try lia.
  change (pretty (Z.pos p)) with (pretty_N_go (N.pos p) "") in *.
  assert (Hlen : (3 <= String.length (pretty_N_go (N.pos p) ""))%nat).
  { rewrite pretty_N_go_step by lia.
    rewrite pretty_N_go_step by (apply N.div_str_pos; lia).
    match goal with
    | |- context [pretty_N_go ?x ?s] =>
        destruct (pretty_N_go_length x s) as [_ Hlt]
    end.
    cbn [String.length] in Hlt.
    assert (0 < (N.pos p `div` 10) `div` 10)%N.
    { apply N.div_str_pos. split; [lia|]. apply N.div_le_lower_bound; lia. }
    specialize (Hlt ltac:(assumption)). lia. }
  destruct (pretty_N_go (N.pos p) "") as [|a [|b [|c rest]]]; cbn in Hlen; try lia.
  exists a, b, c, rest. split; [reflexivity|]. apply Hd.
Qed.

End Decimal.

(** ** Converters *)

Module Conversions.
Import FFmpegUtils Converters Decimal.

(** X5. A frame size printed by [resolution_to_string] is read back by
    [string_to_resolution] when neither side is negative; with a negative
    side the text does not match and the default 1920x1080 comes back. *)
Theorem resolution_round_trip (width height : Z) :
  (0 <= width -> 0 <= height ->
   string_to_resolution (resolution_to_string width height) = (width, height))
  /\ (width < 0 \/ height < 0 ->
      string_to_resolution (resolution_to_string width height) = (1920, 1080)).
Proof.
  unfold string_to_resolution, resolution_to_string. split.
  - intros Hw Hh.
    rewrite int_prefix_pretty by (try exact Hw; reflexivity).
    cbn [mbind option_bind]. rewrite strip_app. cbn [mbind option_bind].
    rewrite <- (append_nil_r (pretty height)).
    rewrite int_prefix_pretty by (try exact Hh; exact I). reflexivity.
  - intros [Hw|Hh].
    + rewrite int_prefix_negative by exact Hw. reflexivity.
    + destruct (Z_lt_le_dec width 0) as [Hw|Hw].
      * rewrite int_prefix_negative by exact Hw. reflexivity.
      * rewrite int_prefix_pretty by (try exact Hw; reflexivity).
        cbn [mbind option_bind]. rewrite strip_app. cbn [mbind option_bind].
        rewrite <- (append_nil_r (pretty height)).
        rewrite int_prefix_negative by exact Hh. reflexivity.
Qed.

Lemma py_int_inject (k : Z) : FilterGenerator.py_int (inject_Z k) = k.
Proof. unfold FilterGenerator.py_int. cbn. apply Z.quot_1_r. Qed.

Lemma floordiv_inject (n m : Z) : py_floordiv (inject_Z n) (inject_Z m) = inject_Z (n / m).
Proof. unfold py_floordiv. rewrite <- Zdiv_Qdiv. reflexivity. Qed.

Lemma mod_inject (n m : Z) : 0 < m -> py_mod (inject_Z n) (inject_Z m) = inject_Z (n mod m).
Proof.
  intros Hm. unfold py_mod. rewrite <- Zdiv_Qdiv.
  unfold Qminus, Qplus, Qopp, Qmult, inject_Z. cbn [Qnum Qden].
  change (1 * (1 * 1))%positive with 1%positive.
  change (1 * 1)%positive with 1%positive.
  f_equal. rewrite Z.mod_eq by lia. lia.
Qed.

(** The text of whole [seconds]. *)
Lemma seconds_to_time_whole (n : Z) :
  seconds_to_time (inject_Z n)
  = format_02d (n / 3600) +:+ ":" +:+ format_02d (n mod 3600 / 60) +:+ ":"
    +:+ format_02d (n mod 60) +:+ "." +:+ format_02d 0.
Proof.
  unfold seconds_to_time.
  change 3600%Q with (inject_Z 3600). change 60%Q with (inject_Z 60).
  change 1%Q with (inject_Z 1).
  rewrite !mod_inject by lia. rewrite !floordiv_inject, !py_int_inject.
  rewrite Z.mod_1_r.
  reflexivity.
Qed.

Definition two_digit_text (k : Z) : bool :=
  match format_02d k with
  | String a (String b EmptyString) =>
      bool_decide (digit a = Some (k / 10)) && bool_decide (digit b = Some (k mod 10))
  | _ => false
  end.

Lemma format_02d_two_digits (k : Z) (rest : string) :
  0 <= k < 100 -> two_digits (format_02d k +:+ rest) = Some (k, rest).
Proof.
  intros Hk.
  assert (Hall : forallb two_digit_text (seqZ 0 100) = true) by (vm_compute; reflexivity).
  rewrite forallb_forall in Hall.
  specialize (Hall k). rewrite <- list_elem_of_In, elem_of_seqZ in Hall.
  specialize (Hall ltac:(lia)). unfold two_digit_text in Hall.
  destruct (format_02d k) as [|a [|b [|c r]]]; try discriminate Hall.
  apply andb_true_iff in Hall as [Ha Hb].
  apply bool_decide_eq_true in Ha, Hb.
  change (two_digits (String a (String b rest)) = Some (k, rest)).
  cbn [two_digits]. rewrite Ha, Hb. do 2 f_equal.
  pose proof (Z.div_mod k 10). lia.
Qed.

Lemma format_02d_wide (k : Z) (rest : string) :
  100 <= k -> ('(_, s) ← two_digits (format_02d k +:+ rest); strip ":" s) = None.
Proof.
  intros Hk. unfold format_02d.
  replace ((0 <=? k) && (k <? 10)) with false by lia.
  destruct (pretty_three_digits k Hk) as (a & b & c & r & -> & [d Hd]).
  change (String a (String b (String c r)) +:+ rest)
    with (String a (String b (String c (r +:+ rest)))).
  cbn [two_digits]. destruct (digit a); [| reflexivity].
  destruct (digit b); [| reflexivity]. cbn [mbind option_bind strip].
  destruct (Ascii.eqb_spec ":" c) as [<-|_]; [discriminate Hd | reflexivity].
Qed.

(** X6. Whole seconds below 100 hours survive the round trip through the
    HH:MM:SS.cc text; from 100 hours on the text has a three-digit hour
    field, the pattern of [time_to_seconds] does not match it, and 0.0
    comes back. *)
Theorem time_round_trip (n : Z) :
  (0 <= n < 360000 -> (time_to_seconds (seconds_to_time (inject_Z n)) == inject_Z n)%Q)
  /\ (360000 <= n -> time_to_seconds (seconds_to_time (inject_Z n)) = 0%Q).
Proof.
  rewrite seconds_to_time_whole. unfold time_to_seconds, match_time. split.
  - intros Hn.
    rewrite format_02d_two_digits by (split; [apply Z.div_pos | apply Z.div_lt_upper_bound]; lia).
    cbn [mbind option_bind]. rewrite strip_app. cbn [mbind option_bind].
    rewrite format_02d_two_digits.
    2:{ pose proof (Z.mod_pos_bound n 3600 ltac:(lia)).
        split; [apply Z.div_pos | apply Z.div_lt_upper_bound]; lia. }
    cbn [mbind option_bind]. rewrite strip_app. cbn [mbind option_bind].
    rewrite format_02d_two_digits by (pose proof (Z.mod_pos_bound n 60 ltac:(lia)); lia).
    cbn [mbind option_bind]. rewrite strip_app. cbn [mbind option_bind].
    rewrite <- (append_nil_r (format_02d 0)).
    rewrite format_02d_two_digits by lia.
    cbn [mbind option_bind].
    unfold Qeq, Qplus, Qdiv, Qmult, Qinv, inject_Z. cbn [Qnum Qden].
    change (Z.pos (1 * 100)) with 100. change (Z.pos (1 * (1 * 100))) with 100.
    Z.div_mod_to_equations. lia.
  - intros Hn.
    pose proof (format_02d_wide (n / 3600)
                  (":" +:+ format_02d (n mod 3600 / 60) +:+ ":" +:+ format_02d (n mod 60)
                   +:+ "." +:+ format_02d 0)
                  ltac:(apply Z.div_le_lower_bound; lia)) as Hw.
    destruct (two_digits _) as [[h s]|]; [| reflexivity].
    cbn [mbind option_bind] in *. rewrite Hw. reflexivity.
Qed.

Section Bytes.
Variable format_1f : Q -> string.

(** The size after [k] divisions by 1024. *)
Fixpoint scaled (k : nat) (x : Q) : Q :=
  match k with O => x | S k' => (scaled k' x / 1024)%Q end.

Lemma scaled_shift (k : nat) (x : Q) : scaled (S k) x = scaled k (x / 1024)%Q.
Proof. induction k as [|k IH]; [reflexivity|]. cbn [scaled] in *. rewrite IH. reflexivity. Qed.

Lemma scaled_value (k : nat) (n : Z) :
  (scaled k (inject_Z n) == inject_Z n / inject_Z (1024 ^ Z.of_nat k))%Q.
Proof.
  induction k as [|k IH].
  - cbn [scaled]. change (1024 ^ Z.of_nat 0) with 1. field.
  - cbn [scaled]. rewrite IH. rewrite Nat2Z.inj_succ, Z.pow_succ_r by lia.
    rewrite inject_Z_mult. field.
    unfold Qeq. cbn. pose proof (Z.pow_pos_nonneg 1024 (Z.of_nat k)). lia.
Qed.

(** Whether the size after [k] divisions is still 1024 or more. *)
Lemma scaled_test (k : nat) (n : Z) :
  Qle_bool 1024 (scaled k (inject_Z n)) = (1024 ^ (Z.of_nat k + 1) <=? n).
Proof.
  pose proof (Z.pow_pos_nonneg 1024 (Z.of_nat k) ltac:(lia) ltac:(lia)) as Hp.
  apply eq_true_iff_eq. rewrite Qle_bool_iff, Z.leb_le, scaled_value.
  rewrite Z.pow_add_r, Z.pow_1_r by lia.
  change 1024%Q with (inject_Z 1024).
  split; intros Hle.
  - apply (Qmult_le_compat_r _ _ (inject_Z (1024 ^ Z.of_nat k))) in Hle.
    2:{ unfold Qle. cbn. lia. }
    rewrite <- inject_Z_mult in Hle.
    assert (E : (inject_Z n / inject_Z (1024 ^ Z.of_nat k) * inject_Z (1024 ^ Z.of_nat k)
                 == inject_Z n)%Q).
    { field. unfold Qeq. cbn. lia. }
    rewrite E, <- Zle_Qle in Hle. lia.
  - apply Qle_shift_div_l; [unfold Qlt; cbn; lia|].
    rewrite <- inject_Z_mult, <- Zle_Qle. lia.
Qed.

(** The loop stops at the first unit whose size is below 1024. *)
Lemma bytes_to_human_from_stops (units : list string) (k : nat) (unit : string) :
  forall x,
    units !! k = Some unit ->
    (forall i, (i < k)%nat -> Qle_bool 1024 (scaled i x) = true) ->
    Qle_bool 1024 (scaled k x) = false ->
    bytes_to_human_from format_1f units x = format_1f (scaled k x) +:+ " " +:+ unit.
Proof.
  revert k. induction units as [|u units IH]; intros k x Hu Hbig Hsmall.
  - discriminate Hu.
  - cbn [bytes_to_human_from]. destruct k as [|k].
    + cbn [scaled] in Hsmall. rewrite Hsmall. injection Hu as ->. reflexivity.
    + pose proof (Hbig 0%nat ltac:(lia)) as H0. cbn [scaled] in H0. rewrite H0.
      cbn [negb].
      rewrite scaled_shift. apply IH; [exact Hu | | rewrite <- scaled_shift; exact Hsmall].
      intros i Hi. rewrite <- scaled_shift. apply Hbig. lia.
Qed.

Lemma bytes_to_human_from_runs_out (units : list string) :
  forall x,
    (forall i, (i < length units)%nat -> Qle_bool 1024 (scaled i x) = true) ->
    bytes_to_human_from format_1f units x
    = format_1f (scaled (length units) x) +:+ " PB".
Proof.
  induction units as [|u units IH]; intros x Hbig; [reflexivity|].
  cbn [bytes_to_human_from length].
  pose proof (Hbig 0%nat ltac:(simpl; lia)) as H0. cbn [scaled] in H0. rewrite H0.
  cbn [negb].
  rewrite scaled_shift. apply IH. intros i Hi. rewrite <- scaled_shift. apply Hbig.
  simpl. lia.
Qed.

(** X7. For an int inside the float range (below [2 ** 1024 - 2 ** 970]
    in absolute value), [bytes_to_human] prints the
    size in the first unit, from B to TB, in which it is below 1024, after
    dividing by 1024 once per unit passed, and in PB from 1024^5 bytes on.
    For an int beyond the float range, of either sign, it raises
    [OverflowError]. *)
Theorem bytes_to_human_unit (n : Z) :
  (Z.abs n < float_limit ->
   (forall (k : nat) (unit : string),
       ["B"; "KB"; "MB"; "GB"; "TB"] !! k = Some unit ->
       (k = 0%nat \/ 1024 ^ Z.of_nat k <= n) ->
       n < 1024 ^ (Z.of_nat k + 1) ->
       exists q,
         (q == inject_Z n / inject_Z (1024 ^ Z.of_nat k))%Q
         /\ bytes_to_human format_1f n = Return (format_1f q +:+ " " +:+ unit))
   /\ (1024 ^ 5 <= n ->
       exists q,
         (q == inject_Z n / inject_Z (1024 ^ 5))%Q
         /\ bytes_to_human format_1f n = Return (format_1f q +:+ " PB")))
  /\ (float_limit <= Z.abs n ->
      bytes_to_human format_1f n = Raise "OverflowError").
Proof.
  unfold bytes_to_human, float_of_int. split.
  - intros Hin. apply Z.ltb_lt in Hin. rewrite Hin. split.
    + intros k unit Hu Hlo Hhi.
      exists (scaled k (inject_Z n)). split; [apply scaled_value|]. f_equal.
      apply bytes_to_human_from_stops; [exact Hu | | rewrite scaled_test; lia].
      intros i Hi. rewrite scaled_test. apply Z.leb_le.
      destruct Hlo as [->|Hlo]; [lia|].
      etransitivity; [| exact Hlo]. apply Z.pow_le_mono_r; lia.
    + intros Hn. exists (scaled 5 (inject_Z n)). split; [apply scaled_value|]. f_equal.
      apply (bytes_to_human_from_runs_out ["B"; "KB"; "MB"; "GB"; "TB"]).
      intros i Hi. rewrite scaled_test. apply Z.leb_le.
      etransitivity; [| exact Hn]. cbn [length] in Hi. apply Z.pow_le_mono_r; lia.
  - intros Hout. apply Z.ltb_ge in Hout. rewrite Hout. reflexivity.
Qed.
End Bytes.

End Conversions.

(** ** ProgressTracker *)

Module Progress.
Import ProgressTracker.

Section Progress.
Context {S : Type}.

(** The state the callbacks leave when each is run in turn with
    [percent] and [message], one that raises being abandoned where it
    raised. *)
Definition notified (cbs : list (Q -> string -> M S unit)) (percent : Q)
    (message : string) (s : S) : S :=
  foldl (fun s cb => (cb percent message s).2) s cbs.

(** A callback that raises nothing but exceptions derived from
    [Exception]. *)
Definition polite (cb : Q -> string -> M S unit) : Prop :=
  forall percent message s e s',
    cb percent message s = (Raise e, s') -> e ∉ outside_Exception.

(** The tracker after [update(step, ...)] stored its step. *)
Definition moved (self : t) (step : Z) : @t S :=
  {| total_steps := total_steps self;
     current_step := Z.min step (total_steps self);
     start_time := start_time self;
     callbacks := callbacks self |}.

(** The percentage [update(step, ...)] reports. *)
Definition percent_at (self : @t S) (step : Z) : Q :=
  (inject_Z (Z.min step (total_steps self)) / inject_Z (total_steps self) * 100)%Q.

Lemma notify_loop (self : t) (percent : Q) (message : string)
    (cbs : list (Q -> string -> M S unit)) (s : S) :
  Forall polite cbs ->
  for_each cbs
    (fun _ callback =>
       try_except_Exception (call callback percent message) (fun _ => ret tt))
    tt (self, s)
  = (Return tt, (self, notified cbs percent message s)).
Proof.
  intros Hall. revert s. induction Hall as [|cb cbs Hcb _ IH]; intros s; [reflexivity|].
  cbn [for_each]. unfold bind at 1, try_except_Exception, call. cbn [fst snd].
  destruct (cb percent message s) as [[[]|e] s'] eqn:E.
  - rewrite IH. unfold notified. cbn [foldl]. rewrite E. reflexivity.
  - unfold str_in. rewrite bool_decide_eq_false_2 by (eapply Hcb; exact E).
    cbn [ret]. rewrite IH. unfold notified. cbn [foldl]. rewrite E. reflexivity.
Qed.

(** The loop stops at the first callback that raises outside
    [Exception]. *)
Lemma notify_stops (self : t) (percent : Q) (message : string)
    (pre post : list (Q -> string -> M S unit)) (cb : Q -> string -> M S unit)
    (s s' : S) (e : string) :
  Forall polite pre ->
  cb percent message (notified pre percent message s) = (Raise e, s') ->
  e ∈ outside_Exception ->
  for_each (pre ++ cb :: post)
    (fun _ callback =>
       try_except_Exception (call callback percent message) (fun _ => ret tt))
    tt (self, s)
  = (Raise e, (self, s')).
Proof.
  intros Hall. revert s. induction Hall as [|cb0 pre Hcb _ IH]; intros s Ecb He.
  - cbn [app for_each]. unfold bind at 1, try_except_Exception, call. cbn [fst snd].
    cbn [notified foldl] in Ecb. rewrite Ecb. unfold str_in.
    rewrite bool_decide_eq_true_2 by exact He. reflexivity.
  - cbn [app for_each]. unfold bind at 1, try_except_Exception, call. cbn [fst snd].
    unfold notified in Ecb. cbn [foldl] in Ecb.
    destruct (cb0 percent message s) as [[[]|e0] s0] eqn:E0; cbn [snd] in Ecb.
    + apply IH; assumption.
    + unfold str_in. rewrite bool_decide_eq_false_2 by (eapply Hcb; exact E0).
      cbn [ret]. apply IH; assumption.
Qed.

Lemma notify_run (self : t) (percent : Q) (message : string) (s : S) :
  Forall polite (callbacks self) ->
  _notify percent message (self, s)
  = (Return tt, (self, notified (callbacks self) percent message s)).
Proof. intros Hall. unfold _notify, bind, gets. cbn [fst]. apply notify_loop, Hall. Qed.

Lemma notify_interrupted (self : t) (percent : Q) (message : string)
    (pre post : list (Q -> string -> M S unit)) (cb : Q -> string -> M S unit)
    (s s' : S) (e : string) :
  callbacks self = pre ++ cb :: post ->
  Forall polite pre ->
  cb percent message (notified pre percent message s) = (Raise e, s') ->
  e ∈ outside_Exception ->
  _notify percent message (self, s) = (Raise e, (self, s')).
Proof.
  intros Hcbs Hpre Ecb He. unfold _notify, bind, gets. cbn [fst].
  rewrite Hcbs. apply notify_stops; assumption.
Qed.

(** The percentage of [update(step, ...)] is a finite float. *)
Definition reportable (self : @t S) (step : Z) : Prop :=
  Z.abs (Z.min step (total_steps self)) * 100 < float_limit * Z.abs (total_steps self).

Lemma float_limit_pos : 0 < float_limit.
Proof. reflexivity. Qed.

Lemma reportable_steps (self : t) (step : Z) :
  0 < total_steps self -> 0 <= step -> reportable self step.
Proof.
  intros Ht Hs. unfold reportable.
  assert (H100 : 100 < float_limit) by reflexivity.
  pose proof float_limit_pos. nia.
Qed.

(** The division of [update] once the step is stored. *)
Lemma update_division (self : t) (s : S) (step : Z) :
  total_steps self <> 0 ->
  reportable self step ->
  @int_truediv (@St S) (Z.min step (total_steps self)) (total_steps self) (moved self step, s)
  = (Return (inject_Z (Z.min step (total_steps self)) / inject_Z (total_steps self))%Q,
     (moved self step, s)).
Proof.
  intros Ht Hr. unfold int_truediv, reportable in *.
  destruct (Z.eqb_spec (total_steps self) 0) as [E|_]; [contradiction|].
  pose proof float_limit_pos.
  replace (float_limit * Z.abs (total_steps self) <=? Z.abs (Z.min step (total_steps self)))
    with false by (symmetry; apply Z.leb_gt; lia).
  reflexivity.
Qed.

Lemma update_run (self : t) (s : S) (step : Z) (message : string) :
  total_steps self <> 0 ->
  reportable self step ->
  Forall polite (callbacks self) ->
  update step message (self, s)
  = (Return tt, (moved self step,
                 notified (callbacks self) (percent_at self step) message s)).
Proof.
  intros Ht Hr Hall. unfold update. unfold bind at 1, modify. cbn [fst snd].
  unfold bind at 1, gets. cbn [fst total_steps current_step].
  fold (moved self step).
  rewrite (bind_return _ _ _ _ _ (update_division self s step Ht Hr)).
  apply (notify_run (moved self step)). exact Hall.
Qed.

(** X8. [update] stores the step, capped at [total_steps], and, when the
    percentage is a finite float, reports it to the registered callbacks in
    registration order.  An exception derived from [Exception] ends the
    callback that raised it and nothing else: when the callbacks raise
    nothing else, every one of them is told and [update] returns.  An
    exception outside [Exception] (SystemExit, KeyboardInterrupt, ...)
    leaves [update] at once, the later callbacks untold.  A tracker of zero
    steps makes the division raise [ZeroDivisionError], and a stored step
    whose quotient by [total_steps] is beyond the float range makes it raise
    [OverflowError], both after the step was stored and before any callback
    is told. *)
Theorem update_notifies_every_callback (self : t) (s : S) (step : Z) (message : string) :
  (total_steps self <> 0 ->
   reportable self step ->
   Forall polite (callbacks self) ->
   update step message (self, s)
   = (Return tt, (moved self step,
                  notified (callbacks self) (percent_at self step) message s)))
  /\ (total_steps self <> 0 ->
      reportable self step ->
      forall pre cb post e s',
        callbacks self = pre ++ cb :: post ->
        Forall polite pre ->
        cb (percent_at self step) message (notified pre (percent_at self step) message s)
        = (Raise e, s') ->
        e ∈ outside_Exception ->
        update step message (self, s) = (Raise e, (moved self step, s')))
  /\ (total_steps self = 0 ->
      update step message (self, s) = (Raise "ZeroDivisionError", (moved self step, s)))
  /\ (total_steps self <> 0 ->
      float_limit * Z.abs (total_steps self) <= Z.abs (Z.min step (total_steps self)) ->
      update step message (self, s) = (Raise "OverflowError", (moved self step, s))).
Proof.
  split; [apply update_run | split; [| split]].
  - intros Ht Hr pre cb post e s' Hcbs Hpre Ecb He.
    unfold update. unfold bind at 1, modify. cbn [fst snd].
    unfold bind at 1, gets. cbn [fst total_steps current_step].
    fold (moved self step).
    rewrite (bind_return _ _ _ _ _ (update_division self s step Ht Hr)).
    apply (notify_interrupted (moved self step) _ _ pre post cb); assumption.
  - intros Ht. unfold update, bind, modify, gets, int_truediv, moved.
    cbn [fst snd total_steps current_step]. rewrite Ht. reflexivity.
  - intros Ht Hbig. unfold update, bind, modify, gets, int_truediv, moved.
    cbn [fst snd total_steps current_step].
    destruct (Z.eqb_spec (total_steps self) 0) as [E|_]; [contradiction|].
    apply Z.leb_le in Hbig. rewrite Hbig. reflexivity.
Qed.

Lemma percent_at_capped (self : t) (step : Z) :
  0 < total_steps self ->
  (percent_at self step <= 100)%Q
  /\ (total_steps self <= step -> (percent_at self step == 100)%Q).
Proof.
  intros Ht. unfold percent_at. split.
  - unfold Qle, Qdiv, Qmult, Qinv, inject_Z.
    destruct (total_steps self) as [|p|p] eqn:E; try lia.
    cbn [Qnum Qden]. pose proof (Z.le_min_r step (Z.pos p)). nia.
  - intros Hs. rewrite Z.min_r by exact Hs. field.
    unfold Qeq. cbn. lia.
Qed.

(** X9. On a tracker with a positive number of steps whose callbacks raise
    nothing outside [Exception], the reported percentage never exceeds 100:
    [update] caps the step it stores at [total_steps], so for every step
    whose percentage is a finite float (every step from 0 on is one) it
    reports at most 100, and exactly 100 from the last step on; [finish]
    reports 100; and [increment] on a finished tracker leaves it finished
    and reports 100 again. *)
Theorem progress_is_capped (self : t) (s : S) (message : string) :
  0 < total_steps self ->
  Forall polite (callbacks self) ->
  (forall step,
      reportable self step ->
      exists p,
        update step message (self, s)
        = (Return tt, (moved self step, notified (callbacks self) p message s))
        /\ (p <= 100)%Q
        /\ (total_steps self <= step -> (p == 100)%Q)
        /\ current_step (moved self step) <= total_steps self)
  /\ (forall step, 0 <= step -> reportable self step)
  /\ (exists p,
        finish message (self, s)
        = (Return tt, (moved self (total_steps self),
                       notified (callbacks self) p message s))
        /\ (p == 100)%Q
        /\ current_step (moved self (total_steps self)) = total_steps self)
  /\ (current_step self = total_steps self ->
      exists p,
        increment message (self, s)
        = (Return tt, (moved self (total_steps self + 1),
                       notified (callbacks self) p message s))
        /\ (p == 100)%Q
        /\ current_step (moved self (total_steps self + 1)) = total_steps self).
Proof.
  intros Ht Hall.
  split; [| split; [| split]].
  - intros step Hr. exists (percent_at self step).
    destruct (percent_at_capped self step Ht) as [Hle Heq].
    split; [apply update_run; [lia | exact Hr | exact Hall]|]. split; [exact Hle|].
    split; [exact Heq|]. cbn [moved current_step]. lia.
  - intros step Hs. apply reportable_steps; assumption.
  - exists (percent_at self (total_steps self)).
    destruct (percent_at_capped self (total_steps self) Ht) as [_ Heq].
    split; [| split; [apply Heq; lia | cbn [moved current_step]; lia]].
    unfold finish, bind, gets. cbn [fst].
    apply update_run; [lia | apply reportable_steps; lia | exact Hall].
  - intros Hc. exists (percent_at self (total_steps self + 1)).
    destruct (percent_at_capped self (total_steps self + 1) Ht) as [_ Heq].
    split; [| split; [apply Heq; lia | cbn [moved current_step]; lia]].
    unfold increment, bind, gets. cbn [fst]. rewrite Hc.
    apply update_run; [lia | apply reportable_steps; lia | exact Hall].
Qed.

End Progress.

(** **** A tracker with its listeners *)

(** A listener that always raises, one that writes what it is told into
    the log, and one that ends the program. *)
Definition broken : Q -> string -> M (list (Q * string)) unit :=
  fun _ _ => raise "RuntimeError".

Definition recorder : Q -> string -> M (list (Q * string)) unit :=
  fun percent message => modify (fun log => log ++ [(percent, message)]).

Definition quitter : Q -> string -> M (list (Q * string)) unit :=
  fun _ _ => raise "SystemExit".

Definition watched (total current : Z) : @t (list (Q * string)) :=
  {| total_steps := total; current_step := current; start_time := None;
     callbacks := [broken; recorder] |}.

(** The same tracker with [quitter] registered before [recorder]. *)
Definition interrupted (total current : Z) : @t (list (Q * string)) :=
  {| total_steps := total; current_step := current; start_time := None;
     callbacks := [broken; quitter; recorder] |}.

Lemma polite_broken : polite broken.
Proof.
  intros percent message s e s' [= <- _]. unfold outside_Exception.
  rewrite !elem_of_cons, elem_of_nil. intros [E|[E|[E|[E|[]]]]]; discriminate E.
Qed.

Lemma polite_recorder : polite recorder.
Proof. intros percent message s e s' E. discriminate E. Qed.

Lemma watched_polite : Forall polite [broken; recorder].
Proof. constructor; [apply polite_broken | constructor; [apply polite_recorder | constructor]]. Qed.

Lemma update_notifies_every_callback_witness :
  update 1 "clip 1" (watched 4 0, [])
  = (Return tt, (watched 4 1, [(inject_Z 1 / inject_Z 4 * 100, "clip 1")]%Q))
  /\ update 1 "clip 1" (interrupted 4 0, []) = (Raise "SystemExit", (interrupted 4 1, [])).
Proof.
  split.
  - exact (proj1 (update_notifies_every_callback (watched 4 0) [] 1 "clip 1")
             ltac:(discriminate) ltac:(reflexivity) watched_polite).
  - exact (proj1 (proj2 (update_notifies_every_callback (interrupted 4 0) [] 1 "clip 1"))
             ltac:(discriminate) ltac:(reflexivity)
             [broken] quitter [recorder] "SystemExit" []
             eq_refl ltac:(constructor; [apply polite_broken | constructor]) eq_refl
             ltac:(unfold outside_Exception; rewrite !elem_of_cons; tauto)).
Defined.

Lemma progress_is_capped_witness :
  exists p,
    finish "done" (watched 4 1, [])
    = (Return tt, (watched 4 4, [(p, "done")])) /\ (p == 100)%Q.
Proof.
  destruct (proj1 (proj2 (proj2 (progress_is_capped (watched 4 1) [] "done"
                                   ltac:(reflexivity) watched_polite))))
    as (p & E & Hp & _).
  exists p. split; [exact E | exact Hp].
Defined.

End Progress.

(** ** The selection policies of the effects manager *)

Module Policies.
Import EffectsManager Selector.

Section Policies.
Context `{Platform}.

(** The element [random.choice(l)] takes in world [w]. *)
Definition choice_at {A} (l : list A) (w : World) : option A :=
  l !! (entropy (drawn w) mod length l)%nat.

Lemma random_choice_run {A} (l : list A) (w : World) :
  l <> [] ->
  exists x, choice_at l w = Some x
            /\ random_choice l w = (Return x, after_draw w) /\ x ∈ l.
Proof.
  intros Hne. destruct l as [|a l]; [congruence|].
  unfold random_choice, choice_at, bind, draw.
  set (r := (entropy (drawn w) mod length (a :: l))%nat).
  assert (Hlt : (r < length (a :: l))%nat).
  { apply Nat.mod_upper_bound. simpl. lia. }
  destruct (lookup_lt_is_Some_2 (a :: l) r Hlt) as [x Hx].
  exists x. rewrite Hx. split; [reflexivity|]. split; [reflexivity|].
  eapply list_elem_of_lookup_2; eassumption.
Qed.

(** *** Where the picks come from *)

Lemma pick_ken_burns_member (self : t) (i : Z) (w w' : World) (kb : option string * t) :
  pick_ken_burns self i w = (Return kb, w') ->
  forall e, kb.1 = Some e -> e ∈ ken_burns (settings self).
Proof.
  unfold pick_ken_burns.
  destruct (ken_burns (settings self)) as [|k ks] eqn:Hkb.
  { intros [= <- _] e He. discriminate He. }
  rewrite <- Hkb. destruct (kb_randomize (settings self)).
  - set (cand := List.filter _ (ken_burns (settings self))).
    set (avail := match cand with [] => ken_burns (settings self) | _ => cand end).
    assert (Hsub : forall e, e ∈ avail -> e ∈ ken_burns (settings self)).
    { intros e. unfold avail. destruct cand eqn:Ec; [auto|]. rewrite <- Ec.
      unfold cand. rewrite !list_elem_of_In, filter_In. tauto. }
    assert (Hne : avail <> []).
    { unfold avail. destruct cand; [rewrite Hkb|]; discriminate. }
    destruct (random_choice_run avail w Hne) as (x & _ & Ex & Hx).
    rewrite (bind_return _ _ _ _ _ Ex). intros [= <- _] e [= <-]. apply Hsub, Hx.
  - destruct (_ !! _) as [x|] eqn:Ex; [| discriminate].
    intros [= <- _] e [= <-]. eapply list_elem_of_lookup_2; exact Ex.
Qed.

Lemma pick_capcut_member (self : t) (i : Z) (w w' : World)
    (cc : option string * option string) :
  pick_capcut self i w = (Return cc, w') ->
  forall e, cc.1 = Some e \/ cc.2 = Some e ->
            e ∈ capcut_effects (settings self) ++ motion_effects (settings self).
Proof.
  unfold pick_capcut.
  destruct (capcut_effects (settings self)) as [|c cs] eqn:Hc.
  { intros [= <- _] e [He|He]; discriminate He. }
  rewrite <- Hc.
  set (all := capcut_effects (settings self) ++ motion_effects (settings self)).
  assert (Hall : all <> []) by (unfold all; rewrite Hc; discriminate).
  intros E. apply bind_returns in E as (b & w1 & _ & E).
  destruct b; [| injection E as <- _; intros e [He|He]; discriminate He].
  assert (Hopt : forall (g : bool) v r v',
    (if g then e <- random_choice all ;; ret (Some e) else ret (None : option string)) v
    = (Return r, v') -> forall e, r = Some e -> e ∈ all).
  { intros [] v r v' Er e He.
    - destruct (random_choice_run all v Hall) as (x & _ & Ex & Hx).
      rewrite (bind_return _ _ _ _ _ Ex) in Er. injection Er as <- _.
      injection He as <-. exact Hx.
    - injection Er as <- _. discriminate He. }
  apply bind_returns in E as (r1 & w2 & E1 & E).
  apply bind_returns in E as (r2 & w3 & E2 & E).
  apply bind_returns in E as (r3 & w4 & E3 & E).
  injection E as <- _. cbn [fst snd].
  assert (H3 : forall e, r3 = Some e -> e ∈ all).
  { destruct (String.eqb _ "middle").
    - eapply (Hopt true); exact E3.
    - injection E3 as <- _. eapply Hopt; exact E1. }
  intros e [He|He]; [apply H3, He | eapply Hopt; [exact E2 | exact He]].
Qed.

(** X10. The selector never invents an effect: with a non-zero
    [effect_every], choosing the effects of a clip returns, the Ken Burns
    effect it names is a member of the configured Ken Burns list, and each
    transient effect it names is a member of the configured scale and
    motion lists. *)
Theorem selected_effects_are_configured (self : t) (i n : Z) (w : World) :
  effect_every (settings self) <> 0 ->
  exists ce self' w',
    get_effects_for_clip self i n w = (Return (ce, self'), w')
    /\ (forall e, ce_ken_burns ce = Some e -> e ∈ ken_burns (settings self))
    /\ (forall e, capcut_start ce = Some e \/ capcut_end ce = Some e ->
                  e ∈ capcut_effects (settings self) ++ motion_effects (settings self)).
Proof.
  intros Hk.
  destruct (pick_ken_burns_total self i w) as (kb & w0 & Ek).
  pose proof (pick_ken_burns_settings _ _ _ _ _ Ek) as Hs.
  destruct (pick_capcut_total kb.2 i w0) as (cc & w1 & Ec); [rewrite Hs; exact Hk|].
  eexists _, _, _. split; [exact (get_effects_for_clip_run _ _ n _ _ _ _ _ Ek Ec)|].
  cbn [ce_ken_burns capcut_start capcut_end]. split.
  - eapply pick_ken_burns_member; exact Ek.
  - rewrite <- Hs. eapply pick_capcut_member; exact Ec.
Qed.

(** *** Sequential Ken Burns selection *)

(** X11. Without randomization the Ken Burns effects are dealt round
    robin: clip [i] gets entry [i mod n] of the configured list of [n]
    effects, so the clips [i] and [i + n] get the same one; the pick draws
    nothing from the random source and leaves the manager as it was. *)
Theorem sequential_ken_burns_round_robin (self : t) (i : Z) (w : World) :
  kb_randomize (settings self) = false ->
  let l := ken_burns (settings self) in
  let n := Z.of_nat (length l) in
  pick_ken_burns self i w = (Return (l !! Z.to_nat (i mod n), self), w)
  /\ pick_ken_burns self (i + n) w = pick_ken_burns self i w.
Proof.
  intros Hr l n.
  assert (Hrun : forall j,
    pick_ken_burns self j w = (Return (l !! Z.to_nat (j mod n), self), w)).
  { intros j. unfold pick_ken_burns. fold l.
    destruct l as [|k ks] eqn:Hl; [reflexivity|]. rewrite Hr.
    assert (Hn : 0 < n) by (unfold n; simpl; lia).
    pose proof (Z.mod_pos_bound j n Hn) as Hb.
    destruct (lookup_lt_is_Some_2 (k :: ks) (Z.to_nat (j mod n))) as [e He];
      [unfold n in *; lia|].
    fold n. rewrite He. reflexivity. }
  split; [apply Hrun|].
  rewrite !Hrun.
  destruct (Z.eq_dec n 0) as [Hn|Hn].
  - rewrite Hn. assert (l = []) as -> by (destruct l; [reflexivity | simpl in *; lia]).
    reflexivity.
  - replace ((i + n) mod n) with (i mod n); [reflexivity|].
    rewrite <- (Z.mul_1_l n) at 2. rewrite Z.mod_add by exact Hn. reflexivity.
Qed.

(** *** Transient effects: when and where *)

(** X12. The motion list alone never produces a transient effect: when the
    scale-effect list [capcut_effects] is empty, both slots stay empty
    whatever [motion_effects], the frequency and the timing are, and
    neither the frequency policy nor the random source is consulted. *)
Theorem motion_effects_need_capcut_effects (self : t) (i n : Z) (w : World) :
  capcut_effects (settings self) = [] ->
  exists kb self' w',
    pick_ken_burns self i w = (Return (kb, self'), w')
    /\ get_effects_for_clip self i n w
       = (Return ({| ce_ken_burns := kb; capcut_start := None; capcut_end := None |},
                  self'), w').
Proof.
  intros Hc.
  destruct (pick_ken_burns_total self i w) as ([kb self'] & w0 & Ek).
  pose proof (pick_ken_burns_settings _ _ _ _ _ Ek) as Hs. cbn [snd] in Hs.
  exists kb, self', w0. split; [exact Ek|].
  apply (get_effects_for_clip_run self i n w w0 w0 (kb, self') (None, None) Ek).
  unfold pick_capcut. cbn [snd]. rewrite Hs, Hc. reflexivity.
Qed.

(** X13. Under the frequency policy 'percent' the two ends are certain:
    with [effect_percent] at 0 or below no clip gets a transient effect,
    with [effect_percent] at 100 or above every clip does; either way one
    number is drawn. *)
Theorem percent_policy_extremes (self : t) (i : Z) (w : World) :
  effect_frequency (settings self) = "percent" ->
  (effect_percent (settings self) <= 0 ->
   _should_apply_capcut self i w = (Return false, after_draw w))
  /\ (100 <= effect_percent (settings self) ->
      _should_apply_capcut self i w = (Return true, after_draw w)).
Proof.
  intros Hf. unfold _should_apply_capcut. rewrite Hf.
  change (String.eqb "percent" "all") with false.
  change (String.eqb "percent" "percent") with true. cbn iota.
  unfold random_randint, bind, draw, ret, after_draw.
  pose proof (Z.mod_pos_bound (Z.of_nat (entropy (drawn w))) (100 - 1 + 1) ltac:(lia)) as Hb.
  split; intros Hp; do 2 f_equal; [apply Z.leb_gt | apply Z.leb_le]; lia.
Qed.

(** The slots of a clip the frequency policy selected. *)
Lemma pick_capcut_applied (self : t) (i : Z) (w w1 : World) :
  capcut_effects (settings self) <> [] ->
  _should_apply_capcut self i w = (Return true, w1) ->
  pick_capcut self i w
  = (let all := capcut_effects (settings self) ++ motion_effects (settings self) in
     let timing := capcut_timing (settings self) in
     cs <- (if str_in timing ["start"; "random"]
            then e <- random_choice all ;; ret (Some e) else ret None) ;;
     ce <- (if str_in timing ["end"; "random"]
            then e <- random_choice all ;; ret (Some e) else ret None) ;;
     cs <- (if String.eqb timing "middle"
            then e <- random_choice all ;; ret (Some e) else ret cs) ;;
     ret (cs, ce)) w1.
Proof.
  intros Hne Happ. unfold pick_capcut.
  destruct (capcut_effects (settings self)) as [|c cs] eqn:Hc; [congruence|].
  rewrite (bind_return _ _ _ _ _ Happ). reflexivity.
Qed.

(** X14. Where the timing policy puts the effect of a clip that gets one:
    'start' and 'middle' both fill the start slot only, 'end' fills the end
    slot only, each with the one effect drawn; any other name except
    'random' fills neither slot and draws nothing. *)
Theorem timing_policy_slots (self : t) (i : Z) (w w1 : World) :
  capcut_effects (settings self) <> [] ->
  _should_apply_capcut self i w = (Return true, w1) ->
  let all := capcut_effects (settings self) ++ motion_effects (settings self) in
  let timing := capcut_timing (settings self) in
  (timing = "start" \/ timing = "middle" ->
   is_Some (choice_at all w1)
   /\ pick_capcut self i w = (Return (choice_at all w1, None), after_draw w1))
  /\ (timing = "end" ->
      is_Some (choice_at all w1)
      /\ pick_capcut self i w = (Return (None, choice_at all w1), after_draw w1))
  /\ (timing ∉ ["start"; "middle"; "end"; "random"] ->
      pick_capcut self i w = (Return (None, None), w1)).
Proof.
  intros Hne Happ all timing.
  assert (Hall : all <> []).
  { unfold all. destruct (capcut_effects (settings self)); [congruence | discriminate]. }
  destruct (random_choice_run all w1 Hall) as (x & Hx & Ex & _).
  rewrite (pick_capcut_applied self i w w1 Hne Happ). cbn zeta. fold all timing.
  rewrite Hx. split; [| split].
  - intros Ht. split; [eauto|].
    destruct Ht as [Ht|Ht]; rewrite Ht.
    + change (str_in "start" ["start"; "random"]) with true.
      change (str_in "start" ["end"; "random"]) with false.
      change (String.eqb "start" "middle") with false.
      unfold bind. rewrite Ex. reflexivity.
    + change (str_in "middle" ["start"; "random"]) with false.
      change (str_in "middle" ["end"; "random"]) with false.
      change (String.eqb "middle" "middle") with true.
      unfold bind. cbn [ret]. rewrite Ex. reflexivity.
  - intros Ht. split; [eauto|]. rewrite Ht.
    change (str_in "end" ["start"; "random"]) with false.
    change (str_in "end" ["end"; "random"]) with true.
    change (String.eqb "end" "middle") with false.
    unfold bind. cbn [ret]. rewrite Ex. reflexivity.
  - intros Hno.
    assert (Hs : str_in timing ["start"; "random"] = false).
    { apply bool_decide_eq_false. intros Hin. apply Hno.
      rewrite !elem_of_cons in Hin. rewrite !elem_of_cons. tauto. }
    assert (He : str_in timing ["end"; "random"] = false).
    { apply bool_decide_eq_false. intros Hin. apply Hno.
      rewrite !elem_of_cons in Hin. rewrite !elem_of_cons. tauto. }
    assert (Hm : String.eqb timing "middle" = false).
    { apply String.eqb_neq. intros E. apply Hno. rewrite E, !elem_of_cons. tauto. }
    rewrite Hs, He, Hm. reflexivity.
Qed.

End Policies.

(** **** Concrete selections *)

(** Three Ken Burns effects dealt in order, a motion list without scale
    effects. *)
Definition in_order : t :=
  init (selection_settings ["zoomIn"; "panLeft"; "rotate"] false [] ["shake"]
          "all" 3 "start").

(** A manager whose transient effects go to [timing]. *)
Definition timed (timing : string) : t :=
  init (selection_settings [] false ["pulse"; "bounce"] ["shake"] "all" 3 timing).

(** The settings of the 'percent' policy at [percent]. *)
Definition by_percent (percent : Z) : EffectSettings :=
  {| ken_burns := []; ken_burns_intensity := 30; rotation_angle := 5;
     kb_randomize := false; kb_smooth_factor := 7 # 10;
     transitions := ["fade"]; transition_duration := 1; trans_overlap := 1 # 2;
     fade_in_from_black := false; fade_in_duration := 1;
     fade_out_to_black := false; fade_out_duration := 1;
     add_black_frame := true;
     color_correction := false; color_filter := "none";
     vignette := false; vignette_intensity := 40;
     grain := false; grain_intensity := 20;
     blur_edges := false; blur_intensity := 30;
     audio_pitch := "0"; audio_effect := "none";
     audio_stereo_enhance := false; audio_normalize := true;
     audio_compressor := false; audio_limiter := false;
     easing_type := "ease"; motion_blur := false; motion_blur_amount := 20;
     capcut_effects := ["pulse"]; scale_amplitude := 15;
     zoom_burst_start := 150; zoom_burst_decay := 80;
     motion_effects := []; motion_intensity := 30;
     effect_frequency := "percent"; effect_percent := percent; effect_every := 3;
     capcut_timing := "start" |}.

Lemma selected_effects_are_configured_witness :
  exists ce self' w',
    @get_effects_for_clip (quiet_platform zeros) (timed "random") 0 3 empty_world
    = (Return (ce, self'), w')
    /\ (forall e, ce_ken_burns ce = Some e -> e ∈ [])
    /\ (forall e, capcut_start ce = Some e \/ capcut_end ce = Some e ->
                  e ∈ ["pulse"; "bounce"] ++ ["shake"]).
Proof.
  apply (@selected_effects_are_configured (quiet_platform zeros) (timed "random") 0 3
           empty_world).
  discriminate.
Defined.

Lemma sequential_ken_burns_round_robin_witness :
  @pick_ken_burns (quiet_platform zeros) in_order 4 empty_world
  = (Return (Some "panLeft", in_order), empty_world)
  /\ @pick_ken_burns (quiet_platform zeros) in_order (4 + 3) empty_world
     = @pick_ken_burns (quiet_platform zeros) in_order 4 empty_world.
Proof.
  apply (@sequential_ken_burns_round_robin (quiet_platform zeros) in_order 4 empty_world).
  reflexivity.
Defined.

Lemma motion_effects_need_capcut_effects_witness :
  exists kb self' w',
    @pick_ken_burns (quiet_platform zeros) in_order 0 empty_world
    = (Return (kb, self'), w')
    /\ @get_effects_for_clip (quiet_platform zeros) in_order 0 3 empty_world
       = (Return ({| ce_ken_burns := kb; capcut_start := None; capcut_end := None |},
                  self'), w').
Proof.
  apply (@motion_effects_need_capcut_effects (quiet_platform zeros) in_order 0 3
           empty_world).
  reflexivity.
Defined.

Lemma percent_policy_extremes_witness :
  @_should_apply_capcut (quiet_platform zeros) (init (by_percent 0)) 0 empty_world
  = (Return false, after_draw empty_world)
  /\ @_should_apply_capcut (quiet_platform zeros) (init (by_percent 100)) 0 empty_world
     = (Return true, after_draw empty_world).
Proof.
  split.
  - apply (proj1 (@percent_policy_extremes (quiet_platform zeros) (init (by_percent 0)) 0
                    empty_world eq_refl)).
    simpl. lia.
  - apply (proj2 (@percent_policy_extremes (quiet_platform zeros) (init (by_percent 100)) 0
                    empty_world eq_refl)).
    simpl. lia.
Defined.

Lemma timing_policy_slots_witness :
  @pick_capcut (quiet_platform zeros) (timed "middle") 0 empty_world
  = (Return (Some "pulse", None), after_draw empty_world)
  /\ @pick_capcut (quiet_platform zeros) (timed "end") 0 empty_world
     = (Return (None, Some "pulse"), after_draw empty_world)
  /\ @pick_capcut (quiet_platform zeros) (timed "never") 0 empty_world
     = (Return (None, None), empty_world).
Proof.
  split; [| split].
  - apply (proj1 (@timing_policy_slots (quiet_platform zeros) (timed "middle") 0
                    empty_world empty_world ltac:(discriminate) eq_refl)).
    right. reflexivity.
  - apply (proj1 (proj2 (@timing_policy_slots (quiet_platform zeros) (timed "end") 0
                           empty_world empty_world ltac:(discriminate) eq_refl))).
    reflexivity.
  - apply (proj2 (proj2 (@timing_policy_slots (quiet_platform zeros) (timed "never") 0
                           empty_world empty_world ltac:(discriminate) eq_refl))).
    rewrite !elem_of_cons, elem_of_nil. intros [E|[E|[E|[E|[]]]]]; discriminate E.
Defined.

End Policies.

(** ** Lists of filters *)

Module Chains.
Import FFmpegUtils FilterGenerator.

(** No filter of the chain is the empty text. *)
Definition filled (l : list string) : Prop := Forall (fun f => f <> "") l.

Lemma append_empty (a b : string) : a +:+ b = "" -> a = "".
Proof. destruct a; [reflexivity | discriminate]. Qed.

Lemma filled_snoc (l : list string) (x : string) : filled l -> x <> "" -> filled (l ++ [x]).
Proof. intros Hl Hx. apply Forall_app. split; [exact Hl | constructor; [exact Hx | constructor]]. Qed.

Lemma join_filled (sep : string) (l : list string) :
  filled l -> l <> [] -> join sep l <> "".
Proof.
  intros Hl Hne. destruct l as [|p [|q l]]; [congruence | |].
  - inversion Hl; assumption.
  - cbn [join]. intros E. apply append_empty in E. inversion Hl; contradiction.
Qed.

Lemma join_snoc (sep : string) (l : list string) (x : string) :
  exists pre, join sep (l ++ [x]) = pre +:+ x.
Proof.
  induction l as [|p l [pre IH]]; [exists ""; reflexivity|].
  destruct l as [|q l].
  - exists (p +:+ sep). cbn [app join]. 
    rewrite Decimal.append_assoc. reflexivity.
  - exists (p +:+ sep +:+ pre). change ((p :: q :: l) ++ [x]) with (p :: (q :: l) ++ [x]).
    change (join sep (p :: (q :: l) ++ [x])) with (p +:+ sep +:+ join sep ((q :: l) ++ [x])).
    rewrite IH, !Decimal.append_assoc. reflexivity.
Qed.

End Chains.

(** ** The audio chain *)

Module AudioChain.
Import FFmpegUtils FilterGenerator Chains.

Section AudioChain.
Context `{Platform}.

(** One optional capability check: its outcome is one of the three
    values at hand. *)
Lemma guarded_check_cases {A} (g : bool) (name : string) (yes no skip : A) (w : World) :
  exists r w',
    (if g then a <- check_filter_available name ;; if a : bool then ret yes else ret no
     else ret skip) w = (Return r, w')
    /\ (if g then r = yes \/ r = no else r = skip).
Proof.
  destruct g; [| eexists _, _; split; reflexivity].
  destruct (Probes.check_filter_available_probes name w) as (b & w1 & E & _).
  rewrite (bind_return _ _ _ _ _ E).
  destruct b; eexists _, _; (split; [reflexivity|]); auto.
Qed.

(** The text ends with [tail]. *)
Definition ends_in (tail s : string) : Prop := exists pre, s = pre +:+ tail.

Lemma chain_text_snoc (l : list string) (x : string) :
  ends_in x (match (l ++ [x])%list with
             | [] => "anull"
             | _ => join "," (l ++ [x])%list
             end).
Proof.
  destruct (join_snoc "," l x) as [pre Hpre]. exists pre. rewrite <- Hpre.
  destruct l; reflexivity.
Qed.

(** X15. [generate_audio_filter] never returns an empty filter: a pitch
    that is not a number is skipped, and with nothing to apply the chain is
    ["anull"]; when normalization is on, the chain ends with the
    normalization stage, [loudnorm], or [volume=0.9] where [loudnorm] is not
    available.  The one exception it raises is [OverflowError], and only for
    a pitch whose [2 ** (semitones / 12)] is out of the float range when
    the probe finds no rubberband; with any other pitch it returns. *)
Theorem audio_filter_never_empty (self : FilterGenerator.t) (settings : EffectSettings)
    (w : World) :
  exists r w',
    generate_audio_filter self settings w = (r, w')
    /\ (forall tx, r = Return tx ->
          tx <> ""
          /\ (audio_normalize settings = true ->
              ends_in "loudnorm=I=-16:TP=-1.5:LRA=11" tx \/ ends_in "volume=0.9" tx)
          /\ (audio_pitch settings = "0" -> audio_effect settings = "none" ->
              audio_stereo_enhance settings = false -> audio_compressor settings = false ->
              audio_limiter settings = false -> audio_normalize settings = false ->
              tx = "anull"))
    /\ (forall e, r = Raise e ->
          e = "OverflowError"
          /\ Probes.pitch_overflows (audio_pitch settings) = true
          /\ check_filter_available "rubberband" w = (Return false, w'))
    /\ (Probes.pitch_overflows (audio_pitch settings) = false -> exists tx, r = Return tx).
Proof.
  unfold generate_audio_filter.
  (* pitch *)
  destruct (Probes.pitch_stage settings w)
    as [(f1 & w1 & E1 & _ & Hf1 & Hp1)|(w1 & E1 & Ho & Er & _)].
  2: { exists (Raise "OverflowError"), w1. unfold bind at 1. rewrite E1.
       split; [reflexivity|]. split; [intros tx Htx; discriminate Htx|].
       split; [intros e [= <-]; auto|]. rewrite Ho. discriminate. }
  rewrite (bind_return _ _ _ _ _ E1).
  (* named effect *)
  assert (H2 : exists f2 w2,
    match table_get (audio_effect settings)
            [("bass", "bass=g=10:f=100");
             ("reverb", "aecho=0.8:0.9:40:0.4");
             ("echo", "aecho=0.8:0.7:60:0.5");
             ("chorus", "chorus=0.5:0.9:50|60|40:0.4|0.32|0.3:0.25|0.4|0.3:2|2.3|1.3");
             ("telephone", "highpass=f=300,lowpass=f=3000");
             ("underwater", "lowpass=f=500,aecho=0.8:0.9:1000:0.3");
             ("radio", "highpass=f=300,lowpass=f=3000,aecho=0.8:0.7:40:0.25");
             ("vintage", "lowpass=f=8000,aecho=0.6:0.8:60:0.35");
             ("distortion", "acompressor=threshold=0.5:ratio=5:attack=10");
             ("robot", "afftfilt=real='re * (1-clip((b/nb)*b,0,1))':imag='im * (1-clip((b/nb)*b,0,1))'")]
    with
    | Some effect_filter =>
        effect_filter <-
          (if contains "afftfilt" effect_filter then
             a <- check_filter_available "afftfilt" ;;
             if a : bool then ret effect_filter
             else ret "aecho=0.8:0.8:5:0.7,aecho=0.8:0.8:11:0.5"
           else ret effect_filter) ;;
        ret (f1 ++ [effect_filter])
    | None => ret f1
    end w1 = (Return f2, w2)
    /\ filled f2 /\ (audio_effect settings = "none" -> f2 = f1)).
  { cbn [table_get].
    repeat match goal with
           | |- context [String.eqb (audio_effect settings) ?k] =>
               lazymatch k with
               | "robot" => fail
               | _ => destruct (String.eqb_spec (audio_effect settings) k) as [->|_];
                      [eexists _, _; split; [reflexivity|];
                       split; [apply filled_snoc; [exact Hf1 | discriminate]
                              | discriminate] |]
               end
           end.
    destruct (String.eqb_spec (audio_effect settings) "robot") as [->|_].
    - change (contains "afftfilt" _) with true. cbn iota.
      destruct (guarded_check_cases true "afftfilt"
                  "afftfilt=real='re * (1-clip((b/nb)*b,0,1))':imag='im * (1-clip((b/nb)*b,0,1))'"
                  "aecho=0.8:0.8:5:0.7,aecho=0.8:0.8:11:0.5" "" w1)
        as (r & w2 & E & Hr).
      rewrite (bind_return _ _ _ _ _ E).
      eexists _, _. split; [reflexivity|]. split; [| discriminate].
      apply filled_snoc; [exact Hf1|]. destruct Hr as [->| ->]; discriminate.
    - eexists _, _. split; [reflexivity|]. split; [exact Hf1 | reflexivity]. }
  destruct H2 as (f2 & w2 & E2 & Hf2 & Hp2).
  rewrite (bind_return _ _ _ _ _ E2).
  destruct (guarded_check_cases (audio_stereo_enhance settings) "stereotools"
              (f2 ++ ["stereotools=slev=1.5:sbal=0"]) f2 f2 w2) as (f3 & w3 & E3 & Hr3).
  rewrite (bind_return _ _ _ _ _ E3).
  assert (Hf3 : filled f3 /\ (audio_stereo_enhance settings = false -> f3 = f2)).
  { destruct (audio_stereo_enhance settings).
    - split; [| discriminate].
      destruct Hr3 as [->| ->]; [apply filled_snoc; [exact Hf2 | discriminate] | exact Hf2].
    - subst f3. split; [exact Hf2 | reflexivity]. }
  destruct Hf3 as [Hf3 Hp3].
  set (f4 := if audio_compressor settings
             then f3 ++ ["acompressor=threshold=0.1:ratio=4:attack=5:release=50"]
             else f3).
  assert (Hf4 : filled f4 /\ (audio_compressor settings = false -> f4 = f3)).
  { unfold f4. destruct (audio_compressor settings).
    - split; [apply filled_snoc; [exact Hf3 | discriminate] | discriminate].
    - split; [exact Hf3 | reflexivity]. }
  destruct Hf4 as [Hf4 Hp4].
  set (f5 := if audio_limiter settings
             then f4 ++ ["alimiter=limit=0.95:attack=5:release=50"]
             else f4).
  assert (Hf5 : filled f5 /\ (audio_limiter settings = false -> f5 = f4)).
  { unfold f5. destruct (audio_limiter settings).
    - split; [apply filled_snoc; [exact Hf4 | discriminate] | discriminate].
    - split; [exact Hf4 | reflexivity]. }
  destruct Hf5 as [Hf5 Hp5].
  destruct (guarded_check_cases (audio_normalize settings) "loudnorm"
              (f5 ++ ["loudnorm=I=-16:TP=-1.5:LRA=11"]) (f5 ++ ["volume=0.9"]) f5 w3)
    as (f6 & w4 & E6 & Hr6).
  rewrite (bind_return _ _ _ _ _ E6).
  assert (Hf6 : filled f6).
  { destruct (audio_normalize settings).
    - destruct Hr6 as [->| ->]; (apply filled_snoc; [exact Hf5 | discriminate]).
    - subst f6. exact Hf5. }
  exists (Return (match f6 with [] => "anull" | _ => join "," f6 end)), w4.
  split; [destruct f6; reflexivity|].
  split; [| split; [intros e He; discriminate He | intros _; eauto]].
  intros tx [= <-]. split; [| split].
  - destruct f6 as [|a l] eqn:E; [discriminate|]. rewrite <- E.
    apply join_filled; [rewrite E; exact Hf6 | rewrite E; discriminate].
  - intros Hn. rewrite Hn in Hr6.
    destruct Hr6 as [->| ->]; [left | right]; apply chain_text_snoc.
  - intros P0 P1 P2 P3 P4 P5. rewrite P5 in Hr6. subst f6.
    rewrite (Hp5 P4), (Hp4 P3), (Hp3 P2), (Hp2 P1), (Hp1 P0). reflexivity.
Qed.

End AudioChain.
End AudioChain.

(** ** The colour chain *)

Module ColourChain.
Import FFmpegUtils FilterGenerator Chains.

Section ColourChain.
Context `{Platform}.

Lemma stage_empty (l : list string) (c : bool) (x : string) :
  (if c then l ++ [x] else l) = [] <-> l = [] /\ c = false.
Proof.
  destruct c; split.
  - intros E. destruct l; discriminate E.
  - intros [_ E]. discriminate E.
  - auto.
  - intros [E _]. exact E.
Qed.

Lemma stage_filled (l : list string) (c : bool) (x : string) :
  filled l -> x <> "" -> filled (if c then l ++ [x] else l).
Proof. intros Hl Hx. destruct c; [apply filled_snoc; assumption | exact Hl]. Qed.

Lemma chain_text_empty (l : list string) :
  filled l -> (match l with [] => "" | _ => join "," l end) = "" <-> l = [].
Proof.
  intros Hl. split; [| intros ->; reflexivity]. intros Hj.
  destruct l as [|a l']; [reflexivity|]. exfalso.
  apply (join_filled "," (a :: l')); [exact Hl | discriminate | exact Hj].
Qed.

(** X16. The colour chain is empty exactly when no stage applies: the
    colour filter name is not one of the ten known looks, the vignette is
    off, and grain and edge blur are off or their filters unavailable.  A
    requested vignette always yields a stage, through its fallback when
    the [vignette] filter is missing. *)
Theorem color_chain_empty_iff (self : FilterGenerator.t) (settings : EffectSettings) :
  generate_color_correction_filter self settings = "" <->
  (color_filter settings ∉ ["warm"; "cold"; "vintage"; "blackwhite"; "sepia";
                            "cinematic"; "vibrant"; "faded"; "instagram"; "film"])
  /\ vignette settings = false
  /\ grain settings && available self "noise" true = false
  /\ blur_edges settings && available self "gblur" true = false.
Proof.
  unfold generate_color_correction_filter. cbv zeta.
  match goal with
  | |- context [match table_get ?k ?t with Some f => @?body f | None => [] end] =>
      set (l1 := match table_get k t with Some f => body f | None => [] end)
  end.
  assert (H1 : filled l1
               /\ (l1 = [] <->
                   (color_filter settings ∉ ["warm"; "cold"; "vintage"; "blackwhite";
                                             "sepia"; "cinematic"; "vibrant"; "faded";
                                             "instagram"; "film"]))).
  { unfold l1. cbn [table_get].
    repeat match goal with
           | |- context [String.eqb (color_filter settings) ?k] =>
               destruct (String.eqb_spec (color_filter settings) k) as [E|?];
               [rewrite E;
                split;
                [destruct (available self "colorbalance" true),
                          (available self "curves" true);
                 (constructor; [discriminate | constructor])
                | split; [intros E'; discriminate E'
                         | intros Hn; exfalso; apply Hn;
                           rewrite !elem_of_cons; tauto]] |]
           end.
    split; [constructor|]. split; [| reflexivity]. intros _.
    rewrite !elem_of_cons, elem_of_nil. tauto. }
  destruct H1 as [Hf1 He1].
  set (l2 := if vignette settings && available self "vignette" true then l1 ++ _
             else if vignette settings then l1 ++ _ else l1).
  assert (H2 : filled l2 /\ (l2 = [] <-> l1 = [] /\ vignette settings = false)).
  { unfold l2. destruct (vignette settings), (available self "vignette" true); cbn [andb].
    - split; [apply filled_snoc; [exact Hf1 | discriminate]|].
      split; [intros E; destruct l1; discriminate E | intros [_ E]; discriminate E].
    - split; [apply filled_snoc; [exact Hf1 | discriminate]|].
      split; [intros E; destruct l1; discriminate E | intros [_ E]; discriminate E].
    - split; [exact Hf1 | tauto].
    - split; [exact Hf1 | tauto]. }
  destruct H2 as [Hf2 He2].
  set (l3 := if grain settings && available self "noise" true then l2 ++ _ else l2).
  assert (H3 : filled l3 /\ (l3 = [] <-> l2 = []
                             /\ grain settings && available self "noise" true = false)).
  { unfold l3. split; [apply stage_filled; [exact Hf2 | discriminate] | apply stage_empty]. }
  destruct H3 as [Hf3 He3].
  set (l4 := if blur_edges settings && available self "gblur" true then l3 ++ _ else l3).
  assert (H4 : filled l4 /\ (l4 = [] <-> l3 = []
                             /\ blur_edges settings && available self "gblur" true = false)).
  { unfold l4. split; [apply stage_filled; [exact Hf3 | discriminate] | apply stage_empty]. }
  destruct H4 as [Hf4 He4].
  rewrite (chain_text_empty l4 Hf4). tauto.
Qed.

End ColourChain.
End ColourChain.

(** ** Transitions, codecs and names *)

Module Choices.
Import FFmpegUtils FilterGenerator Validators Converters.

Section Choices.
Context `{Platform}.

(** X17. [generate_transition_filter] names a crossfade exactly for the
    five transitions that have one, and only when the [xfade] filter is
    available; every other case is a fade, so without [xfade] every
    transition is a fade.  The duration given is the duration
    returned. *)
Theorem transition_is_xfade_iff (self : FilterGenerator.t) (transition_type : string)
    (duration : Q) :
  let r := generate_transition_filter self transition_type duration in
  (t_name r = "xfade" <->
   available self "xfade" false = true
   /\ transition_type ∈ ["dissolve"; "wipe"; "slide"; "zoom"; "blur"])
  /\ (t_name r = "xfade" \/ t_name r = "fade")
  /\ t_duration r = duration.
Proof.
  cbn zeta. unfold generate_transition_filter.
  assert (Hin : forall k, k ∈ ["dissolve"; "wipe"; "slide"; "zoom"; "blur"] <->
                          k = "dissolve" \/ k = "wipe" \/ k = "slide" \/ k = "zoom"
                          \/ k = "blur").
  { intros k. rewrite !elem_of_cons, elem_of_nil. tauto. }
  rewrite Hin.
  repeat match goal with
         | |- context [String.eqb transition_type ?k] =>
             destruct (String.eqb_spec transition_type k) as [->|?]
         end;
    destruct (available self "xfade" false); cbn [t_name t_duration];
    (split; [| split; [first [left; reflexivity | right; reflexivity] | reflexivity]]);
    (split; [intros E; first [discriminate E | split; [reflexivity | tauto]]
            | intros [E1 E2]; first [reflexivity | discriminate E1 | idtac]]).
  all: try (exfalso; destruct E2 as [E|[E|[E|[E|E]]]]; first [discriminate E | contradiction]).
Qed.

(** The settings agree in every audio switch but the named effect. *)
Definition same_audio_switches (a b : EffectSettings) : Prop :=
  audio_pitch a = audio_pitch b
  /\ audio_stereo_enhance a = audio_stereo_enhance b
  /\ audio_compressor a = audio_compressor b
  /\ audio_limiter a = audio_limiter b
  /\ audio_normalize a = audio_normalize b.

(** X18. A name the validators reject is read as the default by the code
    that consumes it: an easing as 'ease', an audio effect as 'none', a
    resolution as 1920x1080; and a resolution name the validator accepts,
    other than 'custom', denotes the frame size it spells. *)
Theorem rejected_names_read_as_defaults :
  (forall easing t duration,
      validate_easing_type easing = false ->
      get_easing_expression easing t duration = get_easing_expression "ease" t duration)
  /\ (forall self a b w,
        validate_audio_effect (audio_effect a) = false ->
        audio_effect b = "none" ->
        same_audio_switches a b ->
        generate_audio_filter self a w = generate_audio_filter self b w)
  /\ (forall e,
        validate_resolution (resolution e) = false -> get_resolution e = (1920, 1080))
  /\ (forall e,
        validate_resolution (resolution e) = true -> resolution e <> "custom" ->
        get_resolution e = string_to_resolution (resolution e)).
Proof.
  split; [| split; [| split]].
  - intros easing t duration Hv. apply bool_decide_eq_false in Hv.
    rewrite !elem_of_cons, elem_of_nil in Hv.
    unfold get_easing_expression. cbn [table_get].
    repeat match goal with
           | |- context [String.eqb easing ?k] =>
               destruct (String.eqb_spec easing k) as [E|?]; [exfalso; tauto|]
           end.
    reflexivity.
  - intros self a b w Hv Hb (Hp & Hs & Hc & Hl & Hn). apply bool_decide_eq_false in Hv.
    rewrite !elem_of_cons, elem_of_nil in Hv.
    unfold generate_audio_filter. rewrite Hb, Hp, Hs, Hc, Hl, Hn. cbn [table_get].
    repeat match goal with
           | |- context [String.eqb (audio_effect a) ?k] =>
               destruct (String.eqb_spec (audio_effect a) k) as [E|?]; [exfalso; tauto|]
           end.
    reflexivity.
  - intros e Hv. apply bool_decide_eq_false in Hv.
    rewrite !elem_of_cons, elem_of_nil in Hv.
    unfold get_resolution.
    repeat match goal with
           | |- context [String.eqb (resolution e) ?k] =>
               destruct (String.eqb_spec (resolution e) k) as [E|?]; [exfalso; tauto|]
           end.
    reflexivity.
  - intros e Hv Hc. apply bool_decide_eq_true in Hv.
    rewrite !elem_of_cons, elem_of_nil in Hv. unfold get_resolution.
    destruct Hv as [E|[E|[E|[E|[E|[E|[E|[E|[]]]]]]]]]; rewrite E in *;
      try contradiction; reflexivity.
Qed.

(** The arguments of the software encoder. *)
Definition software_encoder (e : ExportSettings) : list string :=
  ["-c:v"; "libx264"; "-preset"; preset (quality e); "-crf"; pretty (crf (quality e))].

Lemma codec_params_software (self : FilterGenerator.t) (e : ExportSettings)
    (g : gmap string bool) (include_audio : bool) :
  use_gpu e && String.eqb (gpu_type e) "auto"
  && (default false (g !! "nvidia") || default false (g !! "amd")
      || default false (g !! "intel")) = false ->
  exists rest, get_codec_params self e g include_audio = software_encoder e ++ rest.
Proof.
  intros Hsoft. unfold get_codec_params. cbv zeta.
  match goal with
  | |- context [if use_gpu e && _ then ?gpu else ?cpu] =>
      replace (if use_gpu e && String.eqb (gpu_type e) "auto" then gpu else cpu)
        with (software_encoder e)
  end.
  2:{ destruct (use_gpu e && String.eqb (gpu_type e) "auto"); [| reflexivity].
      cbn [andb] in Hsoft. apply orb_false_iff in Hsoft as [Hsoft Hi].
      apply orb_false_iff in Hsoft as [Hn Ha]. rewrite Hn, Ha, Hi. reflexivity. }
  repeat match goal with
         | |- context [if ?c then _ else _] => destruct c
         end;
    rewrite <- ?app_assoc; eexists; reflexivity.
Qed.

(** X19. The video encoder is the software encoder [libx264], with the
    configured preset and CRF, unless GPU use is on AND the GPU type is
    'auto' AND a GPU encoder was detected: a GPU type chosen by name never
    selects a GPU encoder.  When the encoder listing cannot be run, the
    detection reports no GPU at all, so the software encoder is used
    whatever the export settings say. *)
Theorem software_encoder_unless_detected :
  (forall self e g include_audio,
      use_gpu e = false \/ gpu_type e <> "auto"
      \/ (g !! "nvidia" <> Some true /\ g !! "amd" <> Some true
          /\ g !! "intel" <> Some true) ->
      exists rest, get_codec_params self e g include_audio = software_encoder e ++ rest)
  /\ (forall w,
        (forall ffmpeg, process w [ffmpeg; "-encoders"] = None) ->
        exists g w',
          check_gpu_support w = (Return g, w')
          /\ (forall k, g !! k <> Some true)
          /\ forall self e include_audio,
               exists rest,
                 get_codec_params self e g include_audio = software_encoder e ++ rest).
Proof.
  assert (Hoff : forall (g : gmap string bool) k, g !! k <> Some true ->
                                                  default false (g !! k) = false).
  { intros g k Hk. destruct (g !! k) as [[]|]; [congruence | reflexivity | reflexivity]. }
  split.
  - intros self e g include_audio Hcase. apply codec_params_software.
    destruct Hcase as [Hu|[Ht|(Hn & Ha & Hi)]].
    + rewrite Hu. reflexivity.
    + apply String.eqb_neq in Ht. rewrite Ht, andb_false_r. reflexivity.
    + rewrite (Hoff _ _ Hn), (Hoff _ _ Ha), (Hoff _ _ Hi), andb_false_r. reflexivity.
  - intros w Hfail. unfold check_gpu_support.
    destruct (Duration.get_ffmpeg_path_pure w) as [p Ep].
    rewrite (bind_return _ _ _ _ _ Ep).
    unfold try_except, bind, subprocess_run. rewrite Hfail. cbn [ret].
    eexists _, _. split; [reflexivity|].
    assert (Hnone : forall k,
      (<["nvidia" := false]> (<["amd" := false]> (<["intel" := false]>
         (<["videotoolbox" := false]> (∅ : gmap string bool))))) !! k <> Some true).
    { intros k Hk.
      repeat (apply lookup_insert_Some in Hk as [[_ Hk]|[_ Hk]]; [discriminate Hk|]).
      rewrite lookup_empty in Hk. discriminate Hk. }
    split; [exact Hnone|].
    intros self e include_audio. apply codec_params_software.
    rewrite !(Hoff _ _ (Hnone _)), andb_false_r. reflexivity.
Qed.



End Choices.
End Choices.

(** ** Names of files *)

Module Naming.
Import FFmpegUtils MontageEngine Validators Decimal.

Lemma append_length (a b : string) :
  String.length (a +:+ b) = (String.length a + String.length b)%nat.
Proof.
  induction a as [|c a IH]; [reflexivity|].
  change (String.length (String c (a +:+ b)) = S (String.length a + String.length b)).
  cbn [String.length]. rewrite IH. reflexivity.
Qed.

(** Texts with heads of the same length split the same way. *)
Lemma append_split (a1 a2 b1 b2 : string) :
  String.length a1 = String.length a2 ->
  a1 +:+ b1 = a2 +:+ b2 -> a1 = a2 /\ b1 = b2.
Proof.
  revert a2. induction a1 as [|c a1 IH]; intros [|c2 a2] Hlen E;
    try discriminate Hlen.
  - split; [reflexivity | exact E].
  - change (String c (a1 +:+ b1) = String c2 (a2 +:+ b2)) in E.
    injection E as -> E. injection Hlen as Hlen.
    destruct (IH a2 Hlen E) as [-> ->]. split; reflexivity.
Qed.

Lemma append_cancel_l (a b1 b2 : string) : a +:+ b1 = a +:+ b2 -> b1 = b2.
Proof. intros E. apply (append_split a a b1 b2 eq_refl E). Qed.

Lemma append_cancel_r (a1 a2 b : string) : a1 +:+ b = a2 +:+ b -> a1 = a2.
Proof.
  intros E. apply (append_split a1 a2 b b); [| exact E].
  apply (f_equal String.length) in E. rewrite !append_length in E. lia.
Qed.

(** The part of a variant name after the pair number. *)
Definition variant_suffix (pitch effect : string) : string :=
  _get_audio_variant_name "" pitch effect.

Lemma variant_name_split (number pitch effect : string) :
  _get_audio_variant_name number pitch effect = number +:+ variant_suffix pitch effect.
Proof.
  unfold variant_suffix, _get_audio_variant_name.
  destruct (negb (String.eqb effect "none")); cbn [String.append];
    rewrite ?append_assoc; reflexivity.
Qed.

(** The audio settings the validators accept. *)
Definition valid_configs : list (string * string) :=
  p ← ["-3"; "-2.5"; "-2"; "-1.5"; "-1"; "-0.5"; "0";
       "+0.5"; "+1"; "+1.5"; "+2"; "+2.5"; "+3"];
  e ← ["none"; "bass"; "reverb"; "echo"; "chorus"; "telephone";
       "underwater"; "radio"; "vintage"; "distortion"; "robot"];
  [(p, e)].

Lemma valid_config_listed (pitch effect : string) :
  validate_audio_pitch pitch = true -> validate_audio_effect effect = true ->
  (pitch, effect) ∈ valid_configs.
Proof.
  intros Hp He. apply bool_decide_eq_true in Hp, He.
  unfold valid_configs. apply list_elem_of_bind. exists pitch. split; [| exact Hp].
  apply list_elem_of_bind. exists effect. split; [| exact He].
  apply list_elem_of_singleton. reflexivity.
Qed.

Lemma NoDup_fmap_inj {A B} (f : A -> B) (l : list A) (x y : A) :
  NoDup (f <$> l) -> x ∈ l -> y ∈ l -> f x = f y -> x = y.
Proof.
  induction l as [|a l IH]; intros Hnd Hx Hy E; [inversion Hx|].
  cbn [fmap list_fmap] in Hnd. apply NoDup_cons in Hnd as [Ha Hnd].
  apply elem_of_cons in Hx as [->|Hx], Hy as [->|Hy].
  - reflexivity.
  - exfalso. apply Ha. rewrite E. apply list_elem_of_fmap_2. exact Hy.
  - exfalso. apply Ha. rewrite <- E. apply list_elem_of_fmap_2. exact Hx.
  - apply IH; assumption.
Qed.

Lemma valid_suffixes_distinct :
  NoDup ((fun cfg => variant_suffix cfg.1 cfg.2) <$> valid_configs).
Proof. apply (bool_decide_unpack _). vm_compute. exact I. Qed.

(** X21. Audio variants do not collide: for pitches and effects the
    validators accept, and pair numbers of the same length (they are four
    digits), two variant names are equal only if the number, the pitch and
    the effect all are. *)
Theorem variant_names_distinct (n1 p1 e1 n2 p2 e2 : string) :
  validate_audio_pitch p1 = true -> validate_audio_effect e1 = true ->
  validate_audio_pitch p2 = true -> validate_audio_effect e2 = true ->
  String.length n1 = String.length n2 ->
  _get_audio_variant_name n1 p1 e1 = _get_audio_variant_name n2 p2 e2
  <-> n1 = n2 /\ p1 = p2 /\ e1 = e2.
Proof.
  intros Hp1 He1 Hp2 He2 Hlen. split; [| intros (-> & -> & ->); reflexivity].
  intros E. rewrite !variant_name_split in E.
  destruct (append_split _ _ _ _ Hlen E) as [-> Es]. split; [reflexivity|].
  assert (Hcfg : (p1, e1) = (p2, e2)).
  { apply (NoDup_fmap_inj (fun cfg => variant_suffix cfg.1 cfg.2) valid_configs);
      [exact valid_suffixes_distinct | apply valid_config_listed; assumption
       | apply valid_config_listed; assumption | exact Es]. }
  injection Hcfg as -> ->. split; reflexivity.
Qed.

Lemma variant_names_distinct_witness :
  _get_audio_variant_name "0001" "+1.5" "echo" = _get_audio_variant_name "0001" "+1" "echo"
  <-> "0001" = "0001" /\ "+1.5" = "+1" /\ "echo" = "echo".
Proof.
  apply (variant_names_distinct "0001" "+1.5" "echo" "0001" "+1" "echo");
    reflexivity.
Defined.

(** No character of [s] is [c]. *)
Fixpoint lacks (c : ascii) (s : string) : Prop :=
  match s with
  | EmptyString => True
  | String x s' => x <> c /\ lacks c s'
  end.

Lemma lacks_app (c : ascii) (a b : string) : lacks c a -> lacks c b -> lacks c (a +:+ b).
Proof.
  intros Ha Hb. induction a as [|x a IH]; [exact Hb|].
  destruct Ha as [Hx Ha]. split; [exact Hx | apply IH, Ha].
Qed.

Lemma pretty_N_go_lacks (x : N) (s : string) :
  lacks "_" s -> lacks "_" (pretty_N_go x s).
Proof.
  revert s. induction (N.lt_wf_0 x) as [x _ IH]; intros s Hs.
  destruct (N.eq_dec x 0%N) as [->|Hx]; [rewrite pretty_N_go_0; exact Hs|].
  rewrite pretty_N_go_step by lia. apply IH; [apply N.div_lt; lia|].
  split; [| exact Hs]. unfold pretty_N_char.
  destruct (x `mod` 10)%N as [|[[[|[]|]|[[]|[]|]|]|[[|[]|]|[[]|[]|]|]|]]; discriminate.
Qed.

Lemma pretty_lacks_underscore (n : Z) : lacks "_" (pretty n).
Proof.
  destruct n as [|p|p].
  - split; [discriminate | exact I].
  - change (pretty (Z.pos p)) with (pretty_N_go (N.pos p) "").
    apply pretty_N_go_lacks. exact I.
  - change (pretty (Z.neg p)) with (String "-" (pretty_N_go (N.pos p) "")).
    split; [discriminate|]. apply pretty_N_go_lacks. exact I.
Qed.

(** A text is cut in one way only at its last underscore. *)
Lemma split_at_last_underscore (a1 a2 d1 d2 : string) :
  lacks "_" d1 -> lacks "_" d2 ->
  a1 +:+ "_" +:+ d1 = a2 +:+ "_" +:+ d2 -> a1 = a2 /\ d1 = d2.
Proof.
  intros H1 H2. revert a2.
  assert (Hno : forall a d, lacks "_" (a +:+ "_" +:+ d) -> False).
  { intros a d. induction a as [|x a IH]; [intros [Hx _]; congruence|].
    intros [_ Ha]. exact (IH Ha). }
  induction a1 as [|c a1 IH]; intros [|c2 a2] E.
  - change (String "_" d1 = String "_" d2) in E.
    injection E as E. split; [reflexivity | exact E].
  - exfalso. change (String "_" d1 = String c2 (a2 +:+ "_" +:+ d2)) in E.
    injection E as _ E. rewrite E in H1. exact (Hno _ _ H1).
  - exfalso. change (String c (a1 +:+ "_" +:+ d1) = String "_" d2) in E.
    injection E as _ E. rewrite <- E in H2. exact (Hno _ _ H2).
  - change (String c (a1 +:+ "_" +:+ d1) = String c2 (a2 +:+ "_" +:+ d2)) in E.
    injection E as -> E. destruct (IH a2 E) as [-> ->]. split; reflexivity.
Qed.

(** X22. Clips do not share their files: two clip output paths of one
    engine are equal only for the same pair number and the same clip
    index, so the clips of a run, whose indices all differ, are rendered to
    different files. *)
Theorem clip_paths_distinct (self : MontageEngine.t) (p1 p2 : MediaPair) (i1 i2 : Z) :
  clip_output_path self p1 i1 = clip_output_path self p2 i2
  <-> number p1 = number p2 /\ i1 = i2.
Proof.
  split; [| intros [E ->]; unfold clip_output_path; rewrite E; reflexivity].
  unfold clip_output_path, path_join. intros E.
  apply append_cancel_l in E. apply append_cancel_l in E.
  apply (append_cancel_l "clip_") in E.
  apply split_at_last_underscore in E as [En Ei].
  - split; [exact En|]. apply append_cancel_r in Ei.
    apply (inj pretty). exact Ei.
  - apply lacks_app; [apply pretty_lacks_underscore|]. repeat (split; [discriminate|]). exact I.
  - apply lacks_app; [apply pretty_lacks_underscore|]. repeat (split; [discriminate|]). exact I.
Qed.

End Naming.

(** ** Files of a run *)

Module Workspace.
Import FFmpegUtils MontageEngine Naming.

Section Workspace.
Context `{Platform}.

(** *** Cleaning up *)

Lemma cleanup_run (self : MontageEngine.t) (clips : list VideoClip) (w : World) :
  exists w',
    _cleanup_temp_files self clips w = (Return tt, w')
    /\ (forall p, disk w' !! p
                  = if bool_decide (p ∈ map video_path clips) then None else disk w !! p)
    /\ spawned w' = spawned w /\ drawn w' = drawn w.
Proof.
  unfold _cleanup_temp_files. revert w.
  induction clips as [|c clips IH]; intros w.
  - exists w. split; [reflexivity|]. split; [| split; reflexivity].
    intros p. rewrite bool_decide_eq_false_2 by apply not_elem_of_nil. reflexivity.
  - cbn [for_each]. unfold bind at 1, try_except, unlink_missing_ok, modify.
    destruct (IH (mkWorld (delete (video_path c) (disk w)) (spawned w) (drawn w)))
      as (w' & E & Hd & Hs & Hr).
    exists w'. split; [exact E|]. split; [| split; [exact Hs | exact Hr]].
    intros p. rewrite Hd. cbn [disk map].
    destruct (decide (p = video_path c)) as [->|Hne].
    + rewrite (bool_decide_eq_true_2 (_ ∈ _ :: _)) by apply list_elem_of_here.
      rewrite lookup_delete_eq. destruct (bool_decide _); reflexivity.
    + rewrite lookup_delete_ne by congruence.
      destruct (bool_decide_reflect (p ∈ map video_path clips)) as [Hin|Hin].
      * rewrite bool_decide_eq_true_2 by (apply list_elem_of_further; exact Hin).
        reflexivity.
      * rewrite bool_decide_eq_false_2; [reflexivity|].
        intros Hin'. apply elem_of_cons in Hin' as [E'|Hin']; [congruence | contradiction].
Qed.

(** X23. [_cleanup_temp_files] never raises, removes the video file of
    every clip it is given, whether the file was there or not, and touches
    no other file; it launches no process. *)
Theorem cleanup_removes_the_clips (self : MontageEngine.t) (clips : list VideoClip)
    (w : World) :
  exists w',
    _cleanup_temp_files self clips w = (Return tt, w')
    /\ (forall c, c ∈ clips -> disk w' !! video_path c = None)
    /\ (forall p, p ∉ map video_path clips -> disk w' !! p = disk w !! p)
    /\ spawned w' = spawned w.
Proof.
  destruct (cleanup_run self clips w) as (w' & E & Hd & Hs & _).
  exists w'. split; [exact E|]. split; [| split; [| exact Hs]].
  - intros c Hc. rewrite Hd, bool_decide_eq_true_2; [reflexivity|].
    apply list_elem_of_In, in_map, list_elem_of_In, Hc.
  - intros p Hp. rewrite Hd, bool_decide_eq_false_2 by exact Hp. reflexivity.
Qed.

(** *** The overlay asset *)

(** X24. A missing overlay asset is not a failure: when none of the
    configured overlay files is on disk (or none is configured),
    [_apply_overlays] answers [True] and leaves the disk and the list of
    launched processes as they were. *)
Theorem missing_overlay_is_skipped (self : MontageEngine.t) (video_path : string)
    (ov : OverlaySettings) (w : World) :
  (forall f, f ∈ files ov -> disk w !! path_join (folder ov) f = None) ->
  exists w',
    _apply_overlays self video_path ov w = (Return true, w')
    /\ disk w' = disk w /\ spawned w' = spawned w.
Proof.
  intros Hmiss. unfold _apply_overlays.
  destruct (files ov) as [|first rest] eqn:Hfiles; [exists w; auto|].
  rewrite <- Hfiles.
  assert (Hpick : exists f w1,
    (if randomize ov then random_choice (files ov) else ret first) w = (Return f, w1)
    /\ f ∈ files ov /\ disk w1 = disk w /\ spawned w1 = spawned w).
  { destruct (randomize ov).
    - destruct (Selector.random_choice_member (files ov) w) as (f & E & Hf);
        [rewrite Hfiles; discriminate|].
      exists f, (Selector.after_draw w). auto.
    - exists first, w. split; [reflexivity|]. split; [| auto].
      rewrite Hfiles. apply list_elem_of_here. }
  destruct Hpick as (f & w1 & Ef & Hf & Hd1 & Hs1).
  rewrite (bind_return _ _ _ _ _ Ef).
  unfold bind at 1. unfold path_exists at 1. unfold gets at 1.
  rewrite Hd1, (Hmiss f) by (rewrite <- Hfiles; exact Hf).
  rewrite bool_decide_eq_false_2 by (intros [? E]; discriminate E).
  exists w1. auto.
Qed.

(** *** The black frame *)

(** X25. [_add_black_frame] works in place: when its encoder exits with
    code 0, the video is unlinked and the encoder's output renamed onto
    it, so the video then holds what the encoder wrote and the temporary
    file is gone.  When the encoder exits with code 0 without having written
    its output, the video has been unlinked and nothing replaces it.  The
    step returns in both cases. *)
Theorem black_frame_in_place (self : MontageEngine.t) (video_path : string)
    (ex : ExportSettings) (w : World) (ffmpeg : string) (c : Completed)
    (written : list (string * string)) :
  let temp_output := with_suffix video_path ".black.mp4" in
  let made := foldr (fun kv d => <[kv.1 := kv.2]> d) (disk w) written in
  get_ffmpeg_path w = (Return ffmpeg, w) ->
  process w (black_frame_cmd ffmpeg video_path temp_output (get_resolution ex))
  = Some (c, written) ->
  returncode c = 0 ->
  is_Some (made !! video_path) ->
  temp_output <> video_path ->
  exists w',
    _add_black_frame self video_path ex w = (Return tt, w')
    /\ disk w' !! video_path = made !! temp_output
    /\ disk w' !! temp_output = None.
Proof.
  intros temp_output made Ep Eproc Hrc [old Hold] Hne.
  unfold _add_black_frame. rewrite (bind_return _ _ _ _ _ Ep).
  fold temp_output.
  unfold try_except, bind, subprocess_run. rewrite Eproc. fold made.
  rewrite Hrc. cbn [Z.eqb].
  unfold unlink. cbn [disk spawned drawn]. rewrite Hold.
  unfold rename. cbn [disk spawned drawn].
  rewrite lookup_delete_ne by congruence.
  destruct (made !! temp_output) as [data|] eqn:Et.
  - eexists. split; [reflexivity|]. cbn [disk]. split.
    + rewrite lookup_insert_eq. reflexivity.
    + rewrite lookup_insert_ne by congruence. apply lookup_delete_eq.
  - eexists. split; [reflexivity|]. cbn [disk]. split.
    + apply lookup_delete_eq.
    + rewrite lookup_delete_ne by congruence. exact Et.
Qed.

(** *** The concat lists *)

Lemma list_file_lines_none (paths : list string) (w : World) :
  (forall p, p ∈ paths -> disk w !! p = None) ->
  list_file_lines paths w = (Return "", w).
Proof.
  induction paths as [|p paths IH]; intros Hnone; [reflexivity|].
  cbn [list_file_lines]. unfold bind at 1. unfold path_exists at 1. unfold gets at 1.
  rewrite (Hnone p) by apply list_elem_of_here.
  rewrite bool_decide_eq_false_2 by (intros [? E]; discriminate E).
  unfold bind. rewrite IH by (intros q Hq; apply Hnone, list_elem_of_further, Hq).
  reflexivity.
Qed.

Lemma list_file_lines_pure (paths : list string) (w : World) :
  exists lines, list_file_lines paths w = (Return lines, w).
Proof.
  induction paths as [|p paths [lines IH]]; [eexists; reflexivity|].
  cbn [list_file_lines]. unfold bind at 1. unfold path_exists at 1. unfold gets at 1.
  unfold bind at 1. rewrite IH.
  destruct (bool_decide _); [| eexists; reflexivity].
  destruct (is_absolute p && String.eqb os_name "nt"); eexists; reflexivity.
Qed.

(** X26. Unless there is exactly one clip, [_combine_clips] first writes
    the list of the clips' video files that exist.  When none of them is on
    disk (the list file itself, which is opened first, not being one of
    them) the list is empty and [_combine_clips] answers [False] without
    launching the transcoder. *)
Theorem combine_without_clip_files (self : MontageEngine.t) (clips : list VideoClip)
    (output_path : string) (channel : Channel) (w : World) :
  length clips <> 1%nat ->
  (forall c, c ∈ clips ->
     disk w !! video_path c = None
     /\ video_path c <> path_join (temp_folder self) "concat_list.txt") ->
  exists w',
    _combine_clips self clips output_path channel w = (Return false, w')
    /\ spawned w' = spawned w
    /\ disk w' !! path_join (temp_folder self) "concat_list.txt" = Some "".
Proof.
  intros Hlen Hnone.
  unfold _combine_clips.
  destruct (Duration.get_ffmpeg_path_pure w) as [ffmpeg Ep].
  rewrite (bind_return _ _ _ _ _ Ep).
  assert (Hv : list_file_lines (map video_path clips) w = (Return "", w)).
  { apply list_file_lines_none. intros p Hp.
    apply list_elem_of_In, in_map_iff in Hp as (c & <- & Hc).
    apply Hnone, list_elem_of_In, Hc. }
  remember (map video_path clips) as vs eqn:Evs.
  remember (map audio_path clips) as aus eqn:Eaus.
  destruct clips as [|c1 [|c2 clips]]; [| exfalso; apply Hlen; reflexivity |].
  all: unfold try_except, _create_video_list_file, _create_audio_list_file.
  all: unfold bind at 1; unfold bind at 1; rewrite Hv.
  all: unfold bind at 1; unfold write_file at 1; unfold modify at 1; cbn [ret].
  all: set (w1 := mkWorld _ _ _).
  all: destruct (list_file_lines_pure aus w1) as [lines Ea].
  all: unfold bind at 1; unfold bind at 1; rewrite Ea.
  all: unfold bind at 1; unfold write_file at 1; unfold modify at 1; cbn [ret].
  all: set (w2 := mkWorld _ _ _).
  all: assert (Hcl : disk w2 !! path_join (temp_folder self) "concat_list.txt" = Some "")
         by (unfold w2, w1; cbn [disk]; rewrite lookup_insert_ne;
             [apply lookup_insert_eq
             | unfold path_join; intros E; apply append_cancel_l in E; discriminate E]).
  all: unfold bind at 1; unfold path_exists at 1; unfold gets at 1.
  all: rewrite bool_decide_eq_true_2 by (rewrite Hcl; eauto).
  all: unfold bind at 1; unfold bind at 1; unfold st_size; rewrite Hcl; cbn [ret].
  all: exists w2; split; [reflexivity|]; split; [reflexivity | exact Hcl].
Qed.

(** *** Audio variants *)

Lemma audio_configs_spec (channels : list Channel) (cfg : string * string) :
  cfg ∈ audio_configs channels ->
  exists c, c ∈ channels /\ cfg = (audio_pitch (effects c), audio_effect (effects c)).
Proof.
  induction channels as [|c channels IH]; [intros Hin; inversion Hin|].
  cbn [audio_configs]. destruct (bool_decide _).
  - intros Hin. destruct (IH Hin) as (c' & Hc' & E).
    exists c'. split; [apply list_elem_of_further, Hc' | exact E].
  - intros Hin. apply elem_of_cons in Hin as [->|Hin].
    + exists c. split; [apply list_elem_of_here | reflexivity].
    + destruct (IH Hin) as (c' & Hc' & E).
      exists c'. split; [apply list_elem_of_further, Hc' | exact E].
Qed.

Lemma prepare_variants_present (self : MontageEngine.t)
    (todo : list (MediaPair * (string * string))) (w : World) :
  (forall item, item ∈ todo ->
     is_Some (disk w !! path_join (audio_variants_folder self)
                          (_get_audio_variant_name (number item.1) item.2.1 item.2.2))) ->
  prepare_variants self todo w = (Return true, w).
Proof.
  induction todo as [|item todo IH]; intros Hall; [reflexivity|].
  cbn [prepare_variants]. unfold bind at 1. unfold path_exists at 1. unfold gets at 1.
  rewrite bool_decide_eq_true_2 by (apply Hall, list_elem_of_here).
  unfold bind at 1. cbn [ret].
  apply IH. intros it Hit. apply Hall, list_elem_of_further, Hit.
Qed.

(** X27. When the variant file of every pair and every channel's audio
    settings is already on disk, [prepare_audio_variants] answers [True]
    and does nothing: no process is launched and no file changes.  In
    particular it does nothing when there is no pair or no channel. *)
Theorem prepared_variants_are_kept (self : MontageEngine.t) (channels : list Channel)
    (w : World) :
  (forall pair c, pair ∈ media_pairs self -> c ∈ channels ->
     is_Some (disk w !! path_join (audio_variants_folder self)
                          (_get_audio_variant_name (number pair)
                             (audio_pitch (effects c)) (audio_effect (effects c))))) ->
  prepare_audio_variants self channels w = (Return true, w).
Proof.
  intros Hall. unfold prepare_audio_variants. apply prepare_variants_present.
  intros [pair cfg] Hitem. cbn [fst snd].
  apply list_elem_of_In, in_flat_map in Hitem as (pair' & Hp & Hitem).
  apply in_map_iff in Hitem as (cfg' & [= <- <-] & Hcfg).
  apply list_elem_of_In, audio_configs_spec in Hcfg as (c & Hc & ->).
  cbn [fst snd]. apply Hall; [apply list_elem_of_In, Hp | exact Hc].
Qed.

(** *** Clips of a run *)

(** X28. Ken Burns and transient effects are applied to image pairs only:
    for a pair of any other media type the encoder invocation, and so the
    whole clip render, is the same whatever effects were selected for the
    clip. *)
Theorem video_pairs_ignore_clip_effects (self : MontageEngine.t) (pair : MediaPair)
    (duration : Q) (resolution : Z * Z) (channel : Channel)
    (e1 e2 : EffectsManager.ClipEffects) (clip_index total_clips : Z) :
  media_type pair <> "image" ->
  (forall ffmpeg,
     clip_cmd self ffmpeg pair duration resolution channel e1 clip_index total_clips
     = clip_cmd self ffmpeg pair duration resolution channel e2 clip_index total_clips)
  /\ (forall w,
        _create_video_clip self pair duration resolution channel e1 clip_index
          total_clips w
        = _create_video_clip self pair duration resolution channel e2 clip_index
            total_clips w).
Proof.
  intros Hvideo.
  assert (Hcmd : forall ffmpeg,
    clip_cmd self ffmpeg pair duration resolution channel e1 clip_index total_clips
    = clip_cmd self ffmpeg pair duration resolution channel e2 clip_index total_clips).
  { intros ffmpeg. unfold clip_cmd, clip_filters. destruct resolution as [wd ht].
    apply String.eqb_neq in Hvideo. rewrite Hvideo. reflexivity. }
  split; [exact Hcmd|].
  intros w. unfold _create_video_clip, try_except, bind.
  destruct (get_ffmpeg_path w) as [[ffmpeg|e] w0]; [| reflexivity].
  rewrite (Hcmd ffmpeg). reflexivity.
Qed.

(** X29. On a machine whose probe answers are well-shaped, the channel
    render always returns, and none of the clips its loop kept is left on
    disk afterwards, whether the assembly succeeded or not. *)
Theorem clips_do_not_outlive_the_run (self : MontageEngine.t) (channel : Channel)
    (test_mode : bool) (w : World) :
  Duration.probe_answers_shaped ->
  exists r w' clips mgr w1,
    generate_channel_montage self channel test_mode w = (Return r, w')
    /\ render_clips self (validate_channel channel)
         (if test_mode then take 1 (media_pairs self) else media_pairs self) w
       = (Return (clips, mgr), w1)
    /\ (forall c, c ∈ clips -> disk w' !! video_path c = None).
Proof.
  intros Hshape. unfold generate_channel_montage.
  set (ch := validate_channel channel).
  set (pairs := if test_mode then take 1 (media_pairs self) else media_pairs self).
  destruct (Rendering.render_loop_total self ch (get_resolution (export ch))
              (Z.of_nat (length pairs)) (enumerate pairs) Hshape []
              (EffectsManager.init (effects ch)) w
              (Selector.validated_every_nonzero (effects channel)))
    as (clips & mgr & w1 & Er).
  fold (render_clips self ch pairs) in Er.
  destruct pairs as [|p0 ps] eqn:Hpairs.
  { injection Er as <- <- <-. exists None, w, [], (EffectsManager.init (effects ch)), w.
    split; [reflexivity|]. split; [reflexivity|].
    intros c Hc. inversion Hc. }
  rewrite <- Hpairs in *.
  rewrite (bind_return _ _ _ _ _ Er). cbn [fst].
  destruct clips as [|c0 cs] eqn:Hclips.
  { exists None, w1, [], mgr, w1. split; [reflexivity|]. split; [exact Er|].
    intros c Hc. inversion Hc. }
  rewrite <- Hclips in *.
  unfold bind at 1. unfold gets at 1.
  destruct (Rendering.combine_clips_total self clips
              (montage_path self ch (time_time w1)) ch w1) as (ok & w2 & Ec).
  rewrite (bind_return _ _ _ _ _ Ec).
  destruct (cleanup_run self clips w2) as (w3 & Ecl & Hd & _).
  rewrite (bind_return _ _ _ _ _ Ecl).
  exists (if ok then Some (montage_path self ch (time_time w1)) else None), w3,
    clips, mgr, w1.
  split; [destruct ok; reflexivity|]. split; [exact Er|].
  intros c Hc. rewrite Hd, bool_decide_eq_true_2; [reflexivity|].
  apply list_elem_of_In, in_map, list_elem_of_In, Hc.
Qed.

End Workspace.

(** **** On a concrete studio *)

(** The render of one channel, before its post-steps. *)
Definition rendered : World :=
  mkWorld (list_to_map [("/proj/renders/main.mp4", "montage")]) [] 0.

(** Every audio variant of the two pairs, for the default audio settings. *)
Definition prepared : World :=
  mkWorld (list_to_map [("/proj/audio_variants/0001_pitch_0.mp3", "mp3");
                        ("/proj/audio_variants/0002_pitch_0.mp3", "mp3")]) [] 0.

(** Two clips whose files were never written. *)
Definition lost_clips : list VideoClip :=
  [mkVideoClip "/tmp/automontage/session_1/clip_0001_0.mp4" "/proj/0001_a.mp3" 3
     true false (EffectsManager.mkClipEffects None None None);
   mkVideoClip "/tmp/automontage/session_1/clip_0002_1.mp4" "/proj/0002_b.mp3" 3
     false true (EffectsManager.mkClipEffects None None None)].

Definition footage : MediaPair :=
  mkMediaPair "0003" "video" "/proj/0003_c.mp4" "/proj/0003_c.mp3".

Lemma missing_overlay_is_skipped_witness :
  exists w',
    @_apply_overlays (Rendering.studio "none") (Rendering.engine_over Rendering.two_pairs)
      "/proj/renders/main.mp4" Rendering.logo_overlay rendered = (Return true, w')
    /\ disk w' = disk rendered /\ spawned w' = spawned rendered.
Proof.
  apply (@missing_overlay_is_skipped (Rendering.studio "none")).
  intros f Hf. apply list_elem_of_singleton in Hf as ->. vm_compute. reflexivity.
Defined.

Lemma black_frame_in_place_witness :
  exists w',
    @_add_black_frame (Rendering.studio "none") (Rendering.engine_over Rendering.two_pairs)
      "/proj/renders/main.mp4" Rendering.default_export rendered = (Return tt, w')
    /\ disk w' !! "/proj/renders/main.mp4" = Some "data"
    /\ disk w' !! "/proj/renders/main.black.mp4" = None.
Proof.
  apply (@black_frame_in_place (Rendering.studio "none")
           (Rendering.engine_over Rendering.two_pairs) "/proj/renders/main.mp4"
           Rendering.default_export rendered "ffmpeg" (mkCompleted 0 "" "")
           [("/proj/renders/main.black.mp4", "data")]).
  - reflexivity.
  - vm_compute. reflexivity.
  - reflexivity.
  - vm_compute. eauto.
  - vm_compute. discriminate.
Defined.

Lemma combine_without_clip_files_witness :
  exists w',
    @_combine_clips (Rendering.studio "none") (Rendering.engine_over Rendering.two_pairs)
      lost_clips "/proj/renders/main.mp4" (Rendering.channel_with Rendering.no_overlays)
      empty_world = (Return false, w')
    /\ spawned w' = spawned empty_world
    /\ disk w' !! path_join "/tmp/automontage/session_1" "concat_list.txt" = Some "".
Proof.
  apply (@combine_without_clip_files (Rendering.studio "none")
           (Rendering.engine_over Rendering.two_pairs)).
  - vm_compute. discriminate.
  - intros c Hc. unfold lost_clips in Hc.
    apply elem_of_cons in Hc as [->|Hc];
      [| apply list_elem_of_singleton in Hc as ->];
      (split; [vm_compute; reflexivity | vm_compute; discriminate]).
Defined.

Lemma prepared_variants_are_kept_witness :
  @prepare_audio_variants (Rendering.studio "none")
    (Rendering.engine_over Rendering.two_pairs)
    [Rendering.channel_with Rendering.no_overlays;
     Rendering.channel_with Rendering.logo_overlay] prepared
  = (Return true, prepared).
Proof.
  apply (@prepared_variants_are_kept (Rendering.studio "none")).
  intros pair c Hp Hc. cbn [media_pairs Rendering.engine_over] in Hp.
  unfold Rendering.two_pairs in Hp.
  apply elem_of_cons in Hc as [->|Hc]; [| apply list_elem_of_singleton in Hc as ->];
    (apply elem_of_cons in Hp as [->|Hp]; [| apply list_elem_of_singleton in Hp as ->]);
    vm_compute; eauto.
Defined.

(** The footage on disk. *)
Definition footage_world : World :=
  mkWorld (list_to_map [("/proj/0003_c.mp4", "mp4"); ("/proj/0003_c.mp3", "mp3")]) [] 0.

Lemma video_pairs_ignore_clip_effects_witness :
  @_create_video_clip (Rendering.studio "none") (Rendering.engine_over [footage])
    footage 3 (1920, 1080) (Rendering.channel_with Rendering.no_overlays)
    (EffectsManager.mkClipEffects (Some "zoomIn") (Some "pulse") None) 0 1 footage_world
  = @_create_video_clip (Rendering.studio "none") (Rendering.engine_over [footage])
      footage 3 (1920, 1080) (Rendering.channel_with Rendering.no_overlays)
      (EffectsManager.mkClipEffects None None None) 0 1 footage_world.
Proof.
  apply (@video_pairs_ignore_clip_effects (Rendering.studio "none")).
  vm_compute. discriminate.
Defined.

Lemma clips_do_not_outlive_the_run_witness :
  exists r w' clips mgr w1,
    @generate_channel_montage (Rendering.studio "none")
      (Rendering.engine_over Rendering.two_pairs)
      (Rendering.channel_with Rendering.no_overlays) false Rendering.start = (Return r, w')
    /\ @render_clips (Rendering.studio "none") (Rendering.engine_over Rendering.two_pairs)
         (validate_channel (Rendering.channel_with Rendering.no_overlays))
         Rendering.two_pairs Rendering.start = (Return (clips, mgr), w1)
    /\ (forall c, c ∈ clips -> disk w' !! video_path c = None).
Proof.
  apply (@clips_do_not_outlive_the_run (Rendering.studio "none")
           (Rendering.engine_over Rendering.two_pairs)
           (Rendering.channel_with Rendering.no_overlays) false Rendering.start
           (Rendering.studio_shaped "none")).
Defined.

End Workspace.
